(** * RFID-over-LoRaWAN tooling: EPC grouping analyzer and airtime calculator

  A shallow embedding of [EPC_OPT.py] (class [EPCAnalyzer]) and of
  [Testing.py] (class [EPCLoRaWANCalculator]), and the properties of the
  design document proved (or refuted) on it.

  Python [int] is [Z]; [str] is [string]; [bytes] is [list byte]; a raised
  exception is the [Raise] of [pyresult].  Python [float] is IEEE-754
  binary64: a finite float is carried as the integer number of units of
  2^-1074 it is worth (every finite binary64 value is such an integer), and
  every arithmetic operation computes the exact rational result and rounds
  it to nearest, ties to even ([rnd]).  The sign of a zero is not tracked:
  no operation of the two programs observes it (a division by either zero
  raises).

  The sections after the planner go beyond the design document: they
  prove properties of the loader, of the grouping pass and its rows, of the
  packet codec, of the processing of a batch and of the airtime and plan
  figures, read off the code. *)

From Stdlib Require Import ZArith Lia Bool Strings.String Strings.Ascii Strings.Byte.
From Stdlib Require Import Floats.SpecFloat.
From stdpp Require Import base list strings gmap.
From Equations Require Import Equations.
From Equations.Prop Require Import Logic.

Open Scope Z_scope.

(** ** Python values and library primitives *)

Module Py.

(** Exceptions the two programs can raise.  The [ValueError]s carry the
    place that raised them rather than their message text. *)
Inductive value_error : Type :=
| TropDEPCs (max : Z)      (* "Trop d'EPCs pour un seul packet. Max: {max}" *)
| PayloadTropCourt         (* "Payload trop court" *)
| NonHexadecimal           (* bytes.fromhex on a malformed string *)
| EmptySequence            (* min() of an empty sequence *)
| FloatNaNToInteger.       (* math.ceil / math.floor of a NaN *)

Inductive exn : Type :=
| ZeroDivisionError
| OverflowError
| StructError
| ValueError (why : value_error).

Inductive pyresult (A : Type) : Type :=
| Ok (a : A)
| Raise (e : exn).
Arguments Ok {A} a.
Arguments Raise {A} e.

Definition bind {A B : Type} (m : pyresult A) (k : A -> pyresult B) : pyresult B :=
  match m with
  | Ok a => k a
  | Raise e => Raise e
  end.

(** A [for] loop that appends one computed item per element. *)
Fixpoint for_each {A B : Type} (f : A -> pyresult B) (l : list A) : pyresult (list B) :=
  match l with
  | [] => Ok []
  | a :: l' => bind (f a) (fun b => bind (for_each f l') (fun bs => Ok (b :: bs)))
  end.

(** *** Floats *)

Inductive float : Type :=
| Finite (n : Z)        (* the value n * 2^-1074 *)
| Inf (neg : bool)
| NaN.

Definition unit_exp : Z := 1074.
Definition one_unit : Z := 2 ^ unit_exp.      (* the float 1.0 *)
Definition overflow_threshold : Z := 2 ^ 2098. (* 2^1024, in units *)

(** [rhe n d]: the integer nearest to n/d, ties to the even one (d > 0). *)
Definition rhe (n d : Z) : Z :=
  let q := n / d in
  let r := n mod d in
  match (2 * r ?= d) with
  | Lt => q
  | Gt => q + 1
  | Eq => if Z.even q then q else q + 1
  end.

(** Rounding of the non-negative rational n/d (in units) to 53 significant
    bits: [e] is the exponent of the last kept bit. *)
Definition rnd_pos (n d : Z) : Z :=
  let e := Z.max (Z.log2 (n / d) - 52) 0 in
  rhe n (d * 2 ^ e) * 2 ^ e.

Definition rnd_signed (n d : Z) : Z :=
  if n <? 0 then - rnd_pos (- n) d else rnd_pos n d.

(** Rounding of n/d units (d > 0) to a float; overflow gives an infinity. *)
Definition rnd (n d : Z) : float :=
  let r := rnd_signed n d in
  if overflow_threshold <=? Z.abs r then Inf (n <? 0) else Finite r.

Definition fadd (x y : float) : float :=
  match x, y with
  | Finite a, Finite b => rnd (a + b) 1
  | Finite _, Inf s => Inf s
  | Inf s, Finite _ => Inf s
  | Inf s, Inf t => if Bool.eqb s t then Inf s else NaN
  | _, _ => NaN
  end.

Definition fmul (x y : float) : float :=
  match x, y with
  | Finite a, Finite b => rnd (a * b) one_unit
  | Finite a, Inf s => if a =? 0 then NaN else Inf (xorb (a <? 0) s)
  | Inf s, Finite b => if b =? 0 then NaN else Inf (xorb s (b <? 0))
  | Inf s, Inf t => Inf (xorb s t)
  | _, _ => NaN
  end.

(** Python's float division: a zero divisor raises, whatever the dividend. *)
Definition fdiv (x y : float) : pyresult float :=
  match x, y with
  | _, Finite 0 => Raise ZeroDivisionError
  | Finite a, Finite b => Ok (rnd (Z.sgn b * a * one_unit) (Z.abs b))
  | Finite _, Inf _ => Ok (Finite 0)
  | Inf s, Finite b => Ok (Inf (xorb s (b <? 0)))
  | _, _ => Ok NaN
  end.

Definition flt (x y : float) : bool :=
  match x, y with
  | Finite a, Finite b => a <? b
  | Finite _, Inf s => negb s
  | Inf s, Finite _ => s
  | Inf s, Inf t => s && negb t
  | _, _ => false
  end.

Definition fle (x y : float) : bool :=
  match x, y with
  | Finite a, Finite b => a <=? b
  | Finite _, Inf s => negb s
  | Inf s, Finite _ => s
  | Inf s, Inf t => s || negb t
  | _, _ => false
  end.

(** The IEEE-754 datum of a float, in the Standard Library's [spec_float]
    (mantissa and exponent), to compare [rnd] with [SpecFloat]'s operations. *)
Definition to_spec (f : float) : spec_float :=
  match f with
  | NaN => S754_nan
  | Inf s => S754_infinity s
  | Finite 0 => S754_zero false
  | Finite (Zpos p) =>
      let e := Z.max (Z.log2 (Zpos p) - 52) 0 in
      match Zpos p / 2 ^ e with
      | Zpos m => S754_finite false m (e - unit_exp)
      | _ => S754_nan
      end
  | Finite (Zneg p) =>
      let e := Z.max (Z.log2 (Zpos p) - 52) 0 in
      match Zpos p / 2 ^ e with
      | Zpos m => S754_finite true m (e - unit_exp)
      | _ => S754_nan
      end
  end.

(** int -> float conversion: correctly rounded, OverflowError when too big. *)
Definition of_int (z : Z) : pyresult float :=
  match rnd (z * one_unit) 1 with
  | Inf _ => Raise OverflowError
  | f => Ok f
  end.

(** [a / b] on two ints: the correctly rounded quotient. *)
Definition int_truediv (a b : Z) : pyresult float :=
  if b =? 0 then Raise ZeroDivisionError
  else match rnd (Z.sgn b * a * one_unit) (Z.abs b) with
       | Inf _ => Raise OverflowError
       | f => Ok f
       end.

(** *** Numbers: the int/float tower *)

Inductive num : Type :=
| PyInt (z : Z)
| PyFloat (f : float).

Definition to_float (x : num) : pyresult float :=
  match x with
  | PyInt z => of_int z
  | PyFloat f => Ok f
  end.

Definition num_add (x y : num) : pyresult num :=
  match x, y with
  | PyInt a, PyInt b => Ok (PyInt (a + b))
  | _, _ => bind (to_float x) (fun fx => bind (to_float y) (fun fy => Ok (PyFloat (fadd fx fy))))
  end.

Definition num_mul (x y : num) : pyresult num :=
  match x, y with
  | PyInt a, PyInt b => Ok (PyInt (a * b))
  | _, _ => bind (to_float x) (fun fx => bind (to_float y) (fun fy => Ok (PyFloat (fmul fx fy))))
  end.

Definition num_truediv (x y : num) : pyresult float :=
  match x, y with
  | PyInt a, PyInt b => int_truediv a b
  | _, _ => bind (to_float x) (fun fx => bind (to_float y) (fun fy => fdiv fx fy))
  end.

(** Comparison of an int with a float is exact in Python. *)
Definition num_lt (x y : num) : bool :=
  match x, y with
  | PyInt a, PyInt b => a <? b
  | PyInt a, PyFloat f => flt (Finite (a * one_unit)) f
  | PyFloat f, PyInt b => flt f (Finite (b * one_unit))
  | PyFloat f, PyFloat g => flt f g
  end.

(** The builtin [max(a, b)]: the first of the largest. *)
Definition max2 (a b : num) : num := if num_lt a b then b else a.

Definition num_le (x y : num) : bool :=
  match x, y with
  | PyInt a, PyInt b => a <=? b
  | PyInt a, PyFloat f => fle (Finite (a * one_unit)) f
  | PyFloat f, PyInt b => fle f (Finite (b * one_unit))
  | PyFloat f, PyFloat g => fle f g
  end.

(** [2 ** n] for an int [n]: an int, or a float when [n] is negative. *)
Definition pow2 (n : Z) : num :=
  if 0 <=? n then PyInt (2 ^ n) else PyFloat (rnd one_unit (2 ^ (- n))).

(** [range(n)] *)
Definition range (n : Z) : list Z := map Z.of_nat (seq 0 (Z.to_nat n)).

(** [b[i:j]] for 0 <= i <= j *)
Definition slice {A : Type} (i j : Z) (b : list A) : list A :=
  take (Z.to_nat (j - i)) (drop (Z.to_nat i) b).

Definition math_floor (f : float) : pyresult Z :=
  match f with
  | Finite n => Ok (n / one_unit)
  | Inf _ => Raise OverflowError
  | NaN => Raise (ValueError FloatNaNToInteger)
  end.

Definition math_ceil (f : float) : pyresult Z :=
  match f with
  | Finite n => Ok (- ((- n) / one_unit))
  | Inf _ => Raise OverflowError
  | NaN => Raise (ValueError FloatNaNToInteger)
  end.

(** The builtin [round(x, 1)] on a float: the exact value is rounded to
    one decimal (ties to even), and the decimal to the nearest float. *)
Definition round1 (f : float) : pyresult float :=
  match f with
  | Finite n =>
      match rnd (rhe (10 * n) one_unit * one_unit) 10 with
      | Inf _ => Raise OverflowError
      | g => Ok g
      end
  | _ => Ok f
  end.

(** *** Strings and bytes *)

Definition hex_value (c : ascii) : option N :=
  let n := N_of_ascii c in
  if ((48 <=? n) && (n <=? 57))%N then Some (n - 48)%N       (* 0-9 *)
  else if ((65 <=? n) && (n <=? 70))%N then Some (n - 55)%N  (* A-F *)
  else if ((97 <=? n) && (n <=? 102))%N then Some (n - 87)%N (* a-f *)
  else None.

Definition is_space (c : ascii) : bool :=
  let n := N_of_ascii c in
  ((n =? 32) || ((9 <=? n) && (n <=? 13)))%N.

(** [bytes.fromhex]: two digits per byte, ASCII whitespace skipped between
    bytes, ValueError on anything else. *)
Fixpoint fromhex_chars (s : list ascii) : pyresult (list byte) :=
  match s with
  | [] => Ok []
  | c :: rest =>
      if is_space c then fromhex_chars rest
      else match hex_value c, rest with
           | Some hi, d :: rest' =>
               match hex_value d with
               | Some lo =>
                   match Byte.of_N (16 * hi + lo) with
                   | Some b => bind (fromhex_chars rest') (fun bs => Ok (b :: bs))
                   | None => Raise (ValueError NonHexadecimal)
                   end
               | None => Raise (ValueError NonHexadecimal)
               end
           | _, _ => Raise (ValueError NonHexadecimal)
           end
  end.

Definition fromhex (s : string) : pyresult (list byte) :=
  fromhex_chars (list_ascii_of_string s).

Definition hex_digit (n : N) : ascii :=
  if (n <? 10)%N then ascii_of_N (48 + n) else ascii_of_N (87 + n).

(** [bytes.hex]: two lower-case digits per byte. *)
Fixpoint hex (bs : list byte) : string :=
  match bs with
  | [] => EmptyString
  | b :: bs' =>
      let n := Byte.to_N b in
      String (hex_digit (n / 16)) (String (hex_digit (n mod 16)) (hex bs'))
  end.

Definition upper_char (c : ascii) : ascii :=
  let n := N_of_ascii c in
  if ((97 <=? n) && (n <=? 122))%N then ascii_of_N (n - 32) else c.

(** [str.upper] on ASCII text. *)
Fixpoint upper (s : string) : string :=
  match s with
  | EmptyString => EmptyString
  | String c s' => String (upper_char c) (upper s')
  end.

Definition byte_of_Z (z : Z) : pyresult byte :=
  if (0 <=? z) && (z <? 256) then
    match Byte.of_N (Z.to_N z) with
    | Some b => Ok b
    | None => Raise StructError
    end
  else Raise StructError.

Definition Z_of_byte (b : byte) : Z := Z.of_N (Byte.to_N b).

(** [struct.pack('>BBH', a, b, h)] *)
Definition pack_BBH (a b h : Z) : pyresult (list byte) :=
  if (0 <=? h) && (h <? 65536) then
    bind (byte_of_Z a) (fun ba =>
    bind (byte_of_Z b) (fun bb =>
    bind (byte_of_Z (Z.shiftr h 8)) (fun hhi =>
    bind (byte_of_Z (Z.land h 255)) (fun hlo =>
    Ok [ba; bb; hhi; hlo]))))
  else Raise StructError.

(** [struct.unpack('>BBH', buf)] *)
Definition unpack_BBH (buf : list byte) : pyresult (Z * Z * Z) :=
  match buf with
  | [b0; b1; b2; b3] =>
      Ok (Z_of_byte b0, Z_of_byte b1, Z.lor (Z.shiftl (Z_of_byte b2) 8) (Z_of_byte b3))
  | _ => Raise StructError
  end.

(** *** Text and iteration helpers of the loader and of the batch processing *)

(** [str.isspace] on one character, for the code points below 256 (those an
    [ascii] carries): the ASCII whitespace 9-13 and 32, the separators 28-31,
    NEL (133) and the no-break space (160). *)
Definition isspace (c : ascii) : bool :=
  let n := N_of_ascii c in
  ((9 <=? n) && (n <=? 13) || (28 <=? n) && (n <=? 32) || (n =? 133) || (n =? 160))%N.

Fixpoint lstrip (s : string) : string :=
  match s with
  | EmptyString => EmptyString
  | String c s' => if isspace c then lstrip s' else s
  end.

Fixpoint rstrip (s : string) : string :=
  match s with
  | EmptyString => EmptyString
  | String c s' =>
      match rstrip s' with
      | EmptyString => if isspace c then EmptyString else String c EmptyString
      | kept => String c kept
      end
  end.

(** [str.strip()]: the whitespace at both ends removed. *)
Definition strip (s : string) : string := rstrip (lstrip s).

(** [str.lower] on one character, for the code points below 256: A-Z and
    the Latin-1 capitals 192-222 (but the multiplication sign 215) move up
    by 32. *)
Definition lower_char (c : ascii) : ascii :=
  let n := N_of_ascii c in
  if ((65 <=? n) && (n <=? 90) || (192 <=? n) && (n <=? 222) && negb (n =? 215))%N
  then ascii_of_N (n + 32) else c.

Fixpoint lower (s : string) : string :=
  match s with
  | EmptyString => EmptyString
  | String c s' => String (lower_char c) (lower s')
  end.

(** [range(0, stop, step)] for a non-zero [step]: 0, step, 2 * step, ...
    short of [stop]. *)
Definition range_by (stop step : Z) : list Z :=
  let count := if 0 <? step then (stop + step - 1) / step
               else (stop + step + 1) / step in
  map (fun k => Z.of_nat k * step) (seq 0 (Z.to_nat count)).

(** [random.choices(population, k=k)]: [k] characters of the population.
    [picks] is the source of randomness: the position in the population of
    each successive draw; [pos] counts the draws made so far. *)
Definition random_choices {n : nat} (population : vec ascii n) (k : nat)
    (picks : nat -> fin n) (pos : nat) : list ascii :=
  (fun i => population !!! picks (pos + i)%nat) <$> seq 0 k.

End Py.

Import Py.

Declare Scope py_scope.
Notation "'let*' x ':=' m 'in' k" := (bind m (fun x => k))
(at level 10, x pattern, m at level 100, k at level 200) : py_scope.
Open Scope py_scope.

(** ** [EPC_OPT.py]: class [EPCAnalyzer] *)

Module EPCAnalyzer.

(** The test [load_epcs] applies to a stripped entry (lines 26 and 36):
    [len(epc) == 24 and all(c in '0123456789ABCDEFabcdef' for c in epc)]. *)
Definition char_in (c : ascii) (s : string) : bool :=
  existsb (Ascii.eqb c) (list_ascii_of_string s).

Definition valid_epc (epc : string) : bool :=
  (String.length epc =? 24)%nat
  && forallb (fun c => char_in c "0123456789ABCDEFabcdef") (list_ascii_of_string epc).

(** [self.min_prefix_length], set once in [__init__]. *)
Definition min_prefix_length : Z := 6.

(** [sum(1 for a, b in zip(base, cand) if a == b)] *)
Fixpoint common_len (base cand : string) : Z :=
  match base, cand with
  | String a base', String b cand' =>
      (if Ascii.eqb a b then 1 else 0) + common_len base' cand'
  | _, _ => 0
  end.

(** The test of line 64, [common_len >= self.min_prefix_length], as a
    proposition. *)
Definition passes (base cand : string) : Prop :=
  min_prefix_length <= common_len base cand.

#[global] Instance passes_dec base cand : Decision (passes base cand).
Proof. unfold passes. apply _. Defined.

(** The inner [while i < len(remaining)] loop: the state is the group
    built so far, the pool and the index [i]. *)
Equations scan (base : string) (group remaining : list string) (i : nat)
  : list string * list string by wf (length remaining - i)%nat lt :=
  scan base group remaining i with inspect (remaining !! i) := {
    | exist _ (Some cand) _ =>
        if min_prefix_length <=? common_len base cand
        then scan base (group ++ [cand]) (delete i remaining) i
        else scan base group remaining (S i)
    | exist _ None _ => (group, remaining) }.
Next Obligation.
  apply lookup_lt_Some in e.
  rewrite length_delete by eauto using lookup_lt_is_Some_2. lia.
Qed.
Next Obligation.
  apply lookup_lt_Some in e. lia.
Qed.

Lemma scan_eq base group remaining i :
  scan base group remaining i =
  match remaining !! i with
  | Some cand =>
      if min_prefix_length <=? common_len base cand
      then scan base (group ++ [cand]) (delete i remaining) i
      else scan base group remaining (S i)
  | None => (group, remaining)
  end.
Proof.
  rewrite scan_equation_1. unfold inspect.
  enough (H : forall o (e : remaining !! i = o),
             scan_unfold_clause_1 base group remaining i (exist _ o e) =
             match o with
             | Some cand =>
                 if min_prefix_length <=? common_len base cand
                 then scan base (group ++ [cand]) (delete i remaining) i
                 else scan base group remaining (S i)
             | None => (group, remaining)
             end) by apply H.
  intros [cand|] e; reflexivity.
Qed.

Lemma scan_pool_length base remaining :
  forall group i,
    (length (scan base group remaining i).2 <= length remaining)%nat.
Proof.
  induction remaining as [remaining IH] using (induction_ltof1 _ (@length string)).
  intros group i.
  remember (length remaining - i)%nat as k eqn:Hk.
  revert i Hk. induction k as [k IHk] using lt_wf_ind. intros i Hk.
  rewrite scan_eq. destruct (remaining !! i) as [cand|] eqn:E; [|simpl; lia].
  pose proof (lookup_lt_Some _ _ _ E) as Hlt.
  destruct (min_prefix_length <=? common_len base cand).
  - assert (Hd : (length (delete i remaining) < length remaining)%nat).
    { rewrite length_delete by eauto. lia. }
    specialize (IH (delete i remaining) Hd (group ++ [cand]) i). lia.
  - apply (IHk (length remaining - S i)%nat); lia.
Qed.

(** The outer [while remaining] loop. *)
Equations form_groups_loop (groups : list (list string)) (remaining : list string)
  : list (list string) by wf (length remaining) lt :=
  form_groups_loop groups [] := groups;
  form_groups_loop groups (base :: rest) :=
    form_groups_loop (groups ++ [(scan base [base] rest 0).1])
                     (scan base [base] rest 0).2.
Next Obligation.
  pose proof (scan_pool_length base rest [base] 0). simpl. lia.
Qed.

(** Lines 52-68: [groups] once the pool is empty. *)
Definition form_groups (epcs : list string) : list (list string) :=
  form_groups_loop [] epcs.

(** [zip] of the unpacked group, for the group [g0 :: rest]: one column per character
    position, as far as the shortest member goes. *)
Definition uncons (s : string) : option (ascii * string) :=
  match s with
  | EmptyString => None
  | String c s' => Some (c, s')
  end.

Fixpoint zip_star (g0 : string) (rest : list string) : list (list ascii) :=
  match g0 with
  | EmptyString => []
  | String c g0' =>
      match mapM uncons rest with
      | Some hts => (c :: map fst hts) :: zip_star g0' (map snd hts)
      | None => []
      end
  end.

(** [sum(1 for chars in zip( *group) if len(set(chars)) == 1)] *)
Definition unanimous_columns (group : list string) : Z :=
  match group with
  | [] => 0
  | g0 :: rest =>
      Z.of_nat (length (filter (fun chars => length (remove_dups chars) = 1%nat)
                               (zip_star g0 rest)))
  end.

(** [min(group, key=len)]: the first of the shortest members. *)
Definition min_by_len (group : list string) : pyresult string :=
  match group with
  | [] => Raise (ValueError EmptySequence)
  | g0 :: rest =>
      Ok (fold_left (fun m s => if (String.length s <? String.length m)%nat then s else m)
                    rest g0)
  end.

(** One row of the report (a dict of [results]). *)
Record row : Type := {
  Group_ID : Z;
  Prefix : string;
  Prefix_Bytes : Z;
  Suffix_Bytes : Z;
  Suffix_Count : Z;
  Total_Payload_Bytes : Z;
  EPCs_SF7_51B : Z;
  EPCs_SF12_11B : Z;
  Compression_pct : num  (* the column "Compression_%" *)
}.

Definition round1_num (x : num) : pyresult num :=
  match x with
  | PyInt z => Ok (PyInt z)
  | PyFloat f => let* g := round1 f in Ok (PyFloat g)
  end.

(** Lines 73-119: the body of the [for gid, group in enumerate(groups, 1)]
    loop. *)
Definition analyze_group (gid : Z) (group : list string) : pyresult row :=
  if (length group =? 1)%nat then
    Ok {| Group_ID := gid; Prefix := ""; Prefix_Bytes := 0; Suffix_Bytes := 12;
          Suffix_Count := 1; Total_Payload_Bytes := 14; EPCs_SF7_51B := 3;
          EPCs_SF12_11B := 0; Compression_pct := PyInt 0 |}
  else
    let* shortest := min_by_len group in
    let prefix_len :=
      Z.min (Z.of_nat (String.length shortest))
            (Z.max min_prefix_length (unanimous_columns group)) in
    let prefix := substring 0 (Z.to_nat prefix_len) (List.hd ""%string group) in
    let prefix_bytes := prefix_len / 2 in
    let suffix_bytes := (24 - prefix_len) / 2 in
    let suffix_count := Z.of_nat (length group) in
    let total_payload := 2 + prefix_bytes + suffix_count * suffix_bytes in
    let overhead := 2 + prefix_bytes in
    let epcs_sf7 :=
      if 0 <? suffix_bytes then Z.max 0 ((51 - overhead) / suffix_bytes) else 0 in
    let epcs_sf12 :=
      if 0 <? suffix_bytes then Z.max 0 ((11 - overhead) / suffix_bytes) else 0 in
    let uncompressed := Z.of_nat (length group) * 12 in
    let* ratio := num_truediv (PyInt (uncompressed - total_payload)) (PyInt uncompressed) in
    let* percent := num_mul (PyFloat ratio) (PyInt 100) in
    let* compression := round1_num percent in
    Ok {| Group_ID := gid; Prefix := prefix; Prefix_Bytes := prefix_bytes;
          Suffix_Bytes := suffix_bytes; Suffix_Count := suffix_count;
          Total_Payload_Bytes := total_payload; EPCs_SF7_51B := epcs_sf7;
          EPCs_SF12_11B := epcs_sf12; Compression_pct := compression |}.

(** [enumerate(l, start)] *)
Fixpoint enumerate {A : Type} (start : Z) (l : list A) : list (Z * A) :=
  match l with
  | [] => []
  | a :: l' => (start, a) :: enumerate (start + 1) l'
  end.

(** [group_and_analyze(epcs)]: the rows of the returned data frame. *)
Definition group_and_analyze (epcs : list string) : pyresult (list row) :=
  for_each (fun '(gid, group) => analyze_group gid group)
           (enumerate 1 (form_groups epcs)).

(** *** [load_epcs] *)

(** What [load_epcs] reads of the file at [file_path], a file that can be
    opened and read when it exists: [path.exists()], [path.suffix],
    [path.name]; the lines that iterating the open text file yields; and,
    of the frame [pd.read_excel] returns, the first column [df.iloc[:, 0]]:
    [None] when the frame has no column, where [df.iloc[:, 0]] raises
    IndexError, otherwise the [str] of each of its values. *)
Record file : Type := {
  file_exists : bool;
  file_suffix : string;
  file_name : string;
  file_lines : list string;
  sheet_column : option (list string)
}.

(** The lines [load_epcs] prints. *)
Inductive printed : Type :=
| SkippingLine (line_num : Z) (epc : string) (* "Skipping invalid EPC at line {line_num}: {epc}" *)
| SkippingRow (idx : Z) (epc : string)       (* "Skipping invalid EPC at row {idx}: {epc}" *)
| LoadedFrom (count : Z) (name : string).    (* "Loaded {count} valid EPCs from {name}" *)

Inductive load_error : Type :=
| FileNotFoundError      (* "File not found: {file_path}" *)
| IndexError             (* raised by df.iloc[:, 0] on a frame with no column *)
| UnsupportedFileFormat  (* ValueError("Unsupported file format. Use .txt, .csv, or .xlsx") *)
| NoValidEPCs.           (* ValueError("No valid EPCs found in file") *)

Inductive loaded : Type :=
| Returns (epcs : list string)
| Raises (e : load_error).

(** Lines 24-29: the loop over the lines of a text file. *)
Fixpoint load_lines (entries : list (Z * string)) (epcs : list string)
  : list printed * list string :=
  match entries with
  | [] => ([], epcs)
  | (line_num, line) :: entries' =>
      let epc := strip line in
      if negb (String.eqb epc "") && valid_epc epc then
        load_lines entries' (epcs ++ [upper epc])
      else if negb (String.eqb epc "") then
        let '(out, epcs') := load_lines entries' epcs in
        (SkippingLine line_num epc :: out, epcs')
      else load_lines entries' epcs
  end.

(** Lines 34-39: the loop over the first column of a sheet. *)
Fixpoint load_rows (entries : list (Z * string)) (epcs : list string)
  : list printed * list string :=
  match entries with
  | [] => ([], epcs)
  | (idx, cell) :: entries' =>
      let epc := strip cell in
      if valid_epc epc then load_rows entries' (epcs ++ [upper epc])
      else
        let '(out, epcs') := load_rows entries' epcs in
        (SkippingRow idx epc :: out, epcs')
  end.

(** Lines 44-48: the end of [load_epcs], once one of the loops has run. *)
Definition finish_load (name : string) (read : list printed * list string)
  : list printed * loaded :=
  match read with
  | (out, []) => (out, Raises NoValidEPCs)
  | (out, epcs) => (out ++ [LoadedFrom (Z.of_nat (length epcs)) name], Returns epcs)
  end.

(** [load_epcs(file_path)]: what it prints, and what it returns or raises. *)
Definition load_epcs (path : file) : list printed * loaded :=
  if negb path.(file_exists) then ([], Raises FileNotFoundError)
  else
    let suffix := lower path.(file_suffix) in
    if String.eqb suffix ".txt" || String.eqb suffix ".csv" then
      finish_load path.(file_name) (load_lines (enumerate 1 path.(file_lines)) [])
    else if String.eqb suffix ".xlsx" then
      match path.(sheet_column) with
      | None => ([], Raises IndexError)
      | Some column =>
          finish_load path.(file_name) (load_rows (enumerate 1 column) [])
      end
    else ([], Raises UnsupportedFileFormat).

End EPCAnalyzer.

(** ** [Testing.py]: class [EPCLoRaWANCalculator] *)

Module EPCLoRaWANCalculator.

(** The instance attributes set by [__init__]. *)
Record calculator : Type := {
  sf : Z;
  bw : Z;
  cr : Z;
  epc_size_bytes : Z;
  header_size : Z;
  max_payload_size : Z;
  max_epcs_per_packet : Z
}.

Definition sf_limits : gmap Z Z :=
  list_to_map [(7, 230); (8, 230); (9, 123); (10, 59); (11, 59); (12, 51)].

(** [_calculate_max_payload_size]: [sf_limits.get(self.sf, 51)] *)
Definition _calculate_max_payload_size (sf : Z) : Z :=
  default 51 (sf_limits !! sf).

(** [__init__(sf, bw, cr, payload_size)]; [None] is the default of
    [payload_size]. *)
Definition init (sf bw cr : Z) (payload_size : option Z) : calculator :=
  let max_payload_size :=
    match payload_size with
    | None => _calculate_max_payload_size sf
    | Some p => p
    end in
  {| sf := sf; bw := bw; cr := cr;
     epc_size_bytes := 12;
     header_size := 4;
     max_payload_size := max_payload_size;
     max_epcs_per_packet := (max_payload_size - 4) / 12 |}.

(** The arguments [__init__] documents: a spreading factor of 7 to 12, a
    bandwidth of 125, 250 or 500 kHz, a coding rate of 1 to 4. *)
Definition documented_radio (sf bw cr : Z) : Prop :=
  7 <= sf <= 12 /\ (bw = 125 \/ bw = 250 \/ bw = 500) /\ 1 <= cr <= 4.

(** The dict returned by [calculate_airtime_parameters]. *)
Record airtime : Type := {
  T_sym_ms : num;
  T_pream_ms : num;
  N_payload : num;
  T_payload_ms : num;
  T_frame_ms : num;
  EPC_frame : Z
}.

(** The literal [4.25] = 17 * 2^-2. *)
Definition lit_4_25 : float := Finite (17 * 2 ^ 1072).

Definition calculate_airtime_parameters (self : calculator) (payload_bytes : Z)
  : pyresult airtime :=
  let* T_sym := num_truediv (pow2 self.(sf)) (PyInt (self.(bw) * 1000)) in
  let* preamble_symbols := num_add (PyInt 8) (PyFloat lit_4_25) in
  let* T_pream := num_mul preamble_symbols (PyFloat T_sym) in
  let PL_H := if 11 <=? self.(sf) then 1 else 0 in
  let* ceil_term :=
    num_truediv (PyInt (8 * payload_bytes - 4 * self.(sf) + 28 + 16 - 20 * PL_H))
                (PyInt (4 * (self.(sf) - 2))) in
  let* scaled := num_mul (max2 (PyFloat ceil_term) (PyInt 0)) (PyInt (self.(cr) + 4)) in
  let* N_payload := num_add (PyInt 8) scaled in
  let* T_payload := num_mul N_payload (PyFloat T_sym) in
  let* T_frame := num_add T_pream T_payload in
  let* per_frame :=
    num_truediv (PyInt (self.(max_payload_size) - self.(header_size)))
                (PyInt self.(epc_size_bytes)) in
  let* EPC_frame := math_floor per_frame in
  let* T_sym_ms := num_mul (PyFloat T_sym) (PyInt 1000) in
  let* T_pream_ms := num_mul T_pream (PyInt 1000) in
  let* T_payload_ms := num_mul T_payload (PyInt 1000) in
  let* T_frame_ms := num_mul T_frame (PyInt 1000) in
  Ok {| T_sym_ms := T_sym_ms; T_pream_ms := T_pream_ms; N_payload := N_payload;
        T_payload_ms := T_payload_ms; T_frame_ms := T_frame_ms;
        EPC_frame := EPC_frame |}.

(** The dict returned by [calculate_transmission_plan]. *)
Record plan : Type := {
  total_epcs : Z;
  frames_needed : Z;
  epcs_per_frame : Z;
  frame_duration_ms : num;
  batch_duration_ms : num;
  batch_duration_s : float;
  max_batches_per_day : Z;
  max_epcs_per_day : Z;
  parameters : airtime
}.

Definition calculate_transmission_plan (self : calculator) (total_epcs : Z)
  : pyresult plan :=
  let* frames := num_truediv (PyInt total_epcs) (PyInt self.(max_epcs_per_packet)) in
  let* N_frames := math_ceil frames in
  let* params_700 := calculate_airtime_parameters self self.(max_payload_size) in
  let T_frame_700 := params_700.(T_frame_ms) in
  let* frames_700 := num_truediv (PyInt 700) (PyInt self.(max_epcs_per_packet)) in
  let* N_frames_700 := math_ceil frames_700 in
  let* T_batch_700 := num_mul (PyInt N_frames_700) T_frame_700 in
  let* params_current := calculate_airtime_parameters self self.(max_payload_size) in
  let T_frame_current := params_current.(T_frame_ms) in
  let* T_batch_current := num_mul (PyInt N_frames) T_frame_current in
  let T_max_per_day := 864000 in
  let* lots := num_truediv (PyInt T_max_per_day) T_batch_current in
  let* lots_per_day := math_floor lots in
  let* seconds := num_truediv T_batch_current (PyInt 1000) in
  Ok {| total_epcs := total_epcs;
        frames_needed := N_frames;
        epcs_per_frame := self.(max_epcs_per_packet);
        frame_duration_ms := T_frame_current;
        batch_duration_ms := T_batch_current;
        batch_duration_s := seconds;
        max_batches_per_day := lots_per_day;
        max_epcs_per_day := lots_per_day * total_epcs;
        parameters := params_current |}.

(** [create_packet_header]; [now] is [int(datetime.now().timestamp())],
    the one input the method takes from its environment. *)
Definition create_packet_header (now packet_id epc_count : Z) : pyresult (list byte) :=
  let timestamp := Z.land now 65535 in
  pack_BBH (Z.land packet_id 255) (Z.land epc_count 255) timestamp.

Definition create_lorawan_payload (self : calculator) (now : Z)
    (epcs : list string) (packet_id : Z) : pyresult (list byte) :=
  if self.(max_epcs_per_packet) <? Z.of_nat (length epcs) then
    Raise (ValueError (TropDEPCs self.(max_epcs_per_packet)))
  else
    let* header := create_packet_header now packet_id (Z.of_nat (length epcs)) in
    let* epc_bytes := for_each fromhex epcs in
    Ok (header ++ concat epc_bytes).

(** The dict returned by [decode_payload]. *)
Record decoded : Type := {
  packet_id : Z;
  epc_count : Z;
  timestamp : Z;
  epcs : list string
}.

(** The [for i in range(epc_count)] loop of [decode_payload], with its
    [break]. *)
Fixpoint decode_loop (self : calculator) (epc_data : list byte)
    (indices : list Z) (epcs : list string) : list string :=
  match indices with
  | [] => epcs
  | i :: indices' =>
      let start_idx := i * self.(epc_size_bytes) in
      let end_idx := start_idx + self.(epc_size_bytes) in
      if Z.of_nat (length epc_data) <? end_idx then epcs
      else
        let epc_bytes := slice start_idx end_idx epc_data in
        let epc_hex := upper (hex epc_bytes) in
        decode_loop self epc_data indices' (epcs ++ [epc_hex])
  end.

Definition decode_payload (self : calculator) (payload : list byte) : pyresult decoded :=
  if Z.of_nat (length payload) <? self.(header_size) then
    Raise (ValueError PayloadTropCourt)
  else
    let* header := unpack_BBH (take 4 payload) in
    let '(packet_id, epc_count, timestamp) := header in
    let epc_data := drop 4 payload in
    let epcs := decode_loop self epc_data (range epc_count) [] in
    Ok {| packet_id := packet_id; epc_count := epc_count;
          timestamp := timestamp; epcs := epcs |}.

(** *** [generate_random_epc] and [process_epcs] *)

(** The population of [generate_random_epc], '0123456789ABCDEF'. *)
Definition hex_population : vec ascii 16 :=
  [# "0"; "1"; "2"; "3"; "4"; "5"; "6"; "7"; "8"; "9"; "A"; "B"; "C"; "D"; "E"; "F"]%char.

(** The [for _ in range(n)] loop of [generate_random_epc]: each EPC is the
    join of 24 draws. *)
Fixpoint generate_loop (count : nat) (picks : nat -> fin 16) (pos : nat) : list string :=
  match count with
  | O => []
  | S count' =>
      string_of_list_ascii (random_choices hex_population 24 picks pos)
        :: generate_loop count' picks (pos + 24)
  end.

Definition generate_random_epc (picks : nat -> fin 16) (n : Z) : list string :=
  generate_loop (Z.to_nat n) picks 0.

(** One entry of ['payload_details']. *)
Record payload_detail : Type := {
  detail_payload : list byte;    (* 'payload' *)
  detail_epcs : list string;     (* 'epcs' *)
  detail_params : airtime        (* 'params' *)
}.

(** The dict returned by [process_epcs]. *)
Record processed : Type := {
  processed_epcs : list string;            (* 'epcs' *)
  payloads : list (list byte);
  transmission_plan : plan;                (* 'plan' *)
  payload_details : list payload_detail
}.

(** How a call of [process_epcs] ends: it returns its dict, having shown
    the decoding of each payload; or [range] refuses a step of 0
    ("range() arg 3 must not be zero"); or a call it makes raises. *)
Inductive process_outcome : Type :=
| Processed (shown : list decoded) (result : processed)
| RangeArgZero
| Raising (e : exn).

(** The body of the first loop of [process_epcs], lines 204-215, at the
    start index [i]; [k] counts the iterations, hence the readings of the
    clock: [clock k] is [int(datetime.now().timestamp())] at the [k]-th
    call of [create_packet_header]. *)
Definition build_payload (self : calculator) (clock : Z -> Z) (generated : list string)
    (entry : Z * Z) : pyresult payload_detail :=
  let '(k, i) := entry in
  let packet_epcs := slice i (i + self.(max_epcs_per_packet)) generated in
  let* payload :=
    create_lorawan_payload self (clock k) packet_epcs (i / self.(max_epcs_per_packet)) in
  let* params := calculate_airtime_parameters self (Z.of_nat (length payload)) in
  Ok {| detail_payload := payload; detail_epcs := packet_epcs; detail_params := params |}.

(** [process_epcs(epc_count)]: the EPCs are generated, cut into packets of
    [max_epcs_per_packet], encoded and costed; each payload is decoded to be
    shown; then the plan is computed. *)
Definition process_epcs (self : calculator) (picks : nat -> fin 16) (clock : Z -> Z)
    (epc_count : Z) : process_outcome :=
  let generated := generate_random_epc picks epc_count in
  if self.(max_epcs_per_packet) =? 0 then RangeArgZero
  else
    let starts := range_by (Z.of_nat (length generated)) self.(max_epcs_per_packet) in
    match for_each (build_payload self clock generated) (EPCAnalyzer.enumerate 0 starts) with
    | Raise e => Raising e
    | Ok details =>
        match for_each (fun detail => decode_payload self detail.(detail_payload)) details with
        | Raise e => Raising e
        | Ok shown =>
            match calculate_transmission_plan self epc_count with
            | Raise e => Raising e
            | Ok plan =>
                Processed shown
                  {| processed_epcs := generated;
                     payloads := detail_payload <$> details;
                     transmission_plan := plan;
                     payload_details := details |}
            end
        end
    end.

End EPCLoRaWANCalculator.

Import EPCAnalyzer.
Import EPCLoRaWANCalculator.

(** ** The grouping pass in the words of the design document

  A second definition of the grouping, written from section 4.1 of the
  design document and not from the code: it is compared with
  [form_groups] below. *)

Module Design.

(** The count of positions [i] of the 24 where [base[i] == candidate[i]]. *)
Definition positional_equality_count (base candidate : string) : nat :=
  length (filter (fun i => is_Some (String.get i base)
                           /\ String.get i base = String.get i candidate)
                 (seq 0 24)).

Definition joins (base candidate : string) : Prop :=
  (6 <= positional_equality_count base candidate)%nat.

#[global] Instance joins_dec base candidate : Decision (joins base candidate).
Proof. unfold joins. apply _. Defined.

(** Remove the first EPC of the pool as the base; the later EPCs that join
    form its group, in order; go on with those that do not. *)
Equations greedy_groups (pool : list string) : list (list string)
  by wf (length pool) lt :=
  greedy_groups [] := [];
  greedy_groups (base :: rest) :=
    (base :: filter (joins base) rest)
      :: greedy_groups (filter (fun candidate => ~ joins base candidate) rest).
Next Obligation.
  pose proof (length_filter (fun candidate => ~ joins base candidate) rest).
  simpl. lia.
Qed.

End Design.

(** ** Two sub-expressions of [calculate_airtime_parameters], named

    [ceil_term_numerator] is the dividend of line 80; [frame_ms] is
    ['T_frame_ms'] as a function of the symbol time [ts], the preamble time
    [tp], the int [k = cr + 4] and the float quotient [q] of line 80. *)

Definition ceil_term_numerator (sf payload_bytes : Z) : Z :=
  8 * payload_bytes - 4 * sf + 28 + 16 - 20 * (if 11 <=? sf then 1 else 0).

Definition frame_ms (ts tp k : Z) (q : float) : float :=
  fmul (fadd (Finite tp)
             (fmul (if flt q (Finite 0) then Finite (8 * one_unit)
                    else fadd (Finite (8 * one_unit)) (fmul q (Finite (k * one_unit))))
                   (Finite ts)))
       (Finite (1000 * one_unit)).

(** ** The messages of [load_epcs], entry by entry

    [skipped_line] is the message, if any, that the loop of lines 24-29
    prints for one numbered line, [skipped_row] that of the loop of lines
    34-39 for one numbered cell. *)

Definition skipped_line (entry : Z * string) : option printed :=
  let epc := strip entry.2 in
  if negb (String.eqb epc "") && negb (valid_epc epc)
  then Some (SkippingLine entry.1 epc) else None.

Definition skipped_row (entry : Z * string) : option printed :=
  let epc := strip entry.2 in
  if valid_epc epc then None else Some (SkippingRow entry.1 epc).

(** Which branch of [load_epcs] the suffix selects, and the entries that
    branch goes over: the lines of a text file, the cells of the first
    column of a sheet (none when the frame has no column). *)
Definition reads_text (path : file) : bool :=
  String.eqb (lower path.(file_suffix)) ".txt"
  || String.eqb (lower path.(file_suffix)) ".csv".

Definition reads_sheet (path : file) : bool :=
  negb (reads_text path) && String.eqb (lower path.(file_suffix)) ".xlsx".

Definition entries_of (path : file) : list string :=
  if reads_text path then path.(file_lines) else default [] path.(sheet_column).

(** A text file of four lines, for the instances of the loader's
    properties: a valid EPC in lower case, a blank line, a line that is not
    an EPC, and a valid EPC between spaces. *)
Definition example_file : file :=
  {| file_exists := true;
     file_suffix := ".TXT";
     file_name := "epcs.txt";
     file_lines := ["aaaaaa000000000000000001" ++ String "010" "";
                    String "010" "";
                    "oops" ++ String "010" "";
                    " AAAAAA000000000000000002 " ++ String "010" ""]%string;
     sheet_column := None |}.

(** * The float model against the Standard Library's [SpecFloat]

    [rnd] agrees with the binary64 instance of [SFdiv], [SFmul] and [SFadd]
    on a normal quotient, a product, a sum, an overflow, two products that
    round in the subnormal range, and the quotient of the two ints of the
    counterexample to C6. *)

Section Validation.

Example quotient_agrees :
  to_spec (rnd one_unit 3)
  = SFdiv 53 1024 (to_spec (Finite one_unit)) (to_spec (Finite (3 * one_unit))).
Proof. vm_compute. reflexivity. Qed.

Example product_agrees :
  to_spec (fmul (rnd one_unit 10) (rnd one_unit 10))
  = SFmul 53 1024 (to_spec (rnd one_unit 10)) (to_spec (rnd one_unit 10)).
Proof. vm_compute. reflexivity. Qed.

Example sum_agrees :
  to_spec (fadd (rnd one_unit 10) (Finite one_unit))
  = SFadd 53 1024 (to_spec (rnd one_unit 10)) (to_spec (Finite one_unit)).
Proof. vm_compute. reflexivity. Qed.

Example overflow_agrees :
  to_spec (fmul (Finite ((2 ^ 53 - 1) * 2 ^ 2045)) (Finite (2 * one_unit)))
  = SFmul 53 1024 (to_spec (Finite ((2 ^ 53 - 1) * 2 ^ 2045)))
                  (to_spec (Finite (2 * one_unit))).
Proof. vm_compute. reflexivity. Qed.

Example subnormal_products_agree :
  to_spec (fmul (Finite 3) (rnd one_unit 10))
  = SFmul 53 1024 (to_spec (Finite 3)) (to_spec (rnd one_unit 10))
  /\ to_spec (fmul (Finite 15) (rnd one_unit 10))
     = SFmul 53 1024 (to_spec (Finite 15)) (to_spec (rnd one_unit 10)).
Proof. split; vm_compute; reflexivity. Qed.

Example int_quotient_agrees :
  to_spec (rnd (13510798882111489 * one_unit) 3)
  = SFdiv 53 1024 (S754_finite false 13510798882111489 0) (S754_finite false 3 0).
Proof. vm_compute. reflexivity. Qed.

End Validation.

(** * Rounding to nearest, ties to even *)

Section Rounding.

Lemma rhe_cases (n d : Z) :
  0 < d ->
  (2 * Z.abs (rhe n d * d - n) < d)
  \/ (2 * Z.abs (rhe n d * d - n) = d /\ Z.even (rhe n d) = true).
Proof.
  intros Hd. unfold rhe.
  pose proof (Z.div_mod n d ltac:(lia)) as Hdm.
  pose proof (Z.mod_pos_bound n d Hd) as Hr.
  destruct (Z.compare_spec (2 * (n mod d)) d) as [Heq|Hlt|Hgt].
  - right. destruct (Z.even (n / d)) eqn:He.
    + split; [nia|done].
    + split; [nia|]. rewrite Z.even_add, He. done.
  - left. nia.
  - left. nia.
Qed.

Lemma rhe_exact (k d : Z) : 0 < d -> rhe (k * d) d = k.
Proof.
  intros Hd. unfold rhe. rewrite Z.div_mul, Z.mod_mul by lia.
  destruct (Z.compare_spec (2 * 0) d); lia.
Qed.

Lemma rhe_mono (n d n' d' : Z) :
  0 < d -> 0 < d' -> n * d' <= n' * d -> rhe n d <= rhe n' d'.
Proof.
  intros Hd Hd' Hle.
  destruct (Z.le_gt_cases (rhe n d) (rhe n' d')) as [|Hgt]; [done|exfalso].
  pose proof (rhe_cases n d Hd) as H1. pose proof (rhe_cases n' d' Hd') as H2.
  set (q := rhe n d) in *. set (q' := rhe n' d') in *.
  assert (Hq : (2 * q - 1) * d <= 2 * n) by lia.
  assert (Hq' : 2 * n' <= (2 * q' + 1) * d') by lia.
  assert (Hchain : (2 * q - 1) * (d * d') <= (2 * q' + 1) * (d * d')) by nia.
  assert (Hqq : q = q' + 1) by nia.
  subst q.
  assert (E1 : 2 * n = (2 * (q' + 1) - 1) * d) by nia.
  assert (E2 : 2 * n' = (2 * q' + 1) * d') by nia.
  destruct H1 as [H1|[_ H1]]; [lia|]. destruct H2 as [H2|[_ H2]]; [lia|].
  rewrite Hqq in H1. rewrite Z.even_add in H1. rewrite H2 in H1. done.
Qed.

Lemma div_le_cross (n d n' d' : Z) :
  0 < d -> 0 < d' -> n * d' <= n' * d -> n / d <= n' / d'.
Proof.
  intros Hd Hd' Hle. apply Z.div_le_lower_bound; [done|].
  pose proof (Z.mul_div_le n d Hd). nia.
Qed.

Lemma pow2_pos (e : Z) : 0 <= e -> 0 < 2 ^ e.
Proof. intros. apply Z.pow_pos_nonneg; lia. Qed.

Lemma rhe_le_bound (n d N : Z) : 0 < d -> n <= N * d -> rhe n d <= N.
Proof.
  intros Hd Hn. rewrite <- (rhe_exact N d Hd). apply rhe_mono; try done. nia.
Qed.

Lemma rhe_ge_bound (n d N : Z) : 0 < d -> N * d <= n -> N <= rhe n d.
Proof.
  intros Hd Hn. rewrite <- (rhe_exact N d Hd). apply rhe_mono; try done. nia.
Qed.

Lemma rnd_pos_nonneg (n d : Z) : 0 <= n -> 0 < d -> 0 <= rnd_pos n d.
Proof.
  intros Hn Hd. unfold rnd_pos.
  set (e := Z.max (Z.log2 (n / d) - 52) 0).
  pose proof (pow2_pos e ltac:(lia)).
  apply Z.mul_nonneg_nonneg; [|lia]. apply rhe_ge_bound; nia.
Qed.

Lemma rnd_pos_mono (n d n' d' : Z) :
  0 <= n -> 0 < d -> 0 < d' -> n * d' <= n' * d -> rnd_pos n d <= rnd_pos n' d'.
Proof.
  intros Hn Hd Hd' Hle. unfold rnd_pos.
  pose proof (div_le_cross n d n' d' Hd Hd' Hle) as Hdiv.
  pose proof (Z.log2_le_mono _ _ Hdiv) as Hlog.
  assert (Ha : 0 <= n / d) by (apply Z.div_pos; lia).
  set (a := n / d) in *. set (a' := n' / d') in *.
  set (e := Z.max (Z.log2 a - 52) 0). set (e' := Z.max (Z.log2 a' - 52) 0).
  assert (He : 0 <= e <= e') by lia.
  pose proof (pow2_pos e ltac:(lia)) as Hpe.
  pose proof (pow2_pos e' ltac:(lia)) as Hpe'.
  destruct (Z.eq_dec e e') as [Heq|Hne].
  - rewrite <- Heq. apply Z.mul_le_mono_nonneg_r; [lia|].
    apply rhe_mono; nia.
  - assert (He' : e' = Z.log2 a' - 52) by lia.
    assert (Ha' : 0 < a').
    { destruct (Z.le_gt_cases a' 0) as [Hle0|]; [|done].
      rewrite (Z.log2_nonpos a' Hle0) in He'. lia. }
    transitivity (2 ^ (e' + 52)).
    + (* the smaller argument stays below the binade of the larger *)
      assert (Hub : a < 2 ^ (e' + 52)).
      { destruct (Z.eq_dec a 0) as [->|Hnz]; [apply pow2_pos; lia|].
        pose proof (Z.log2_spec a ltac:(lia)) as [_ Hlt].
        eapply Z.lt_le_trans; [exact Hlt|].
        apply Z.pow_le_mono_r; lia. }
      assert (Hn' : n <= 2 ^ (e' + 52) * d).
      { pose proof (Z.div_mod n d ltac:(lia)). pose proof (Z.mod_pos_bound n d Hd).
        fold a in H. nia. }
      replace (2 ^ (e' + 52)) with (2 ^ (e' + 52 - e) * 2 ^ e)
        by (rewrite <- Z.pow_add_r by lia; f_equal; lia).
      apply Z.mul_le_mono_nonneg_r; [lia|].
      apply rhe_le_bound; [nia|].
      replace (2 ^ (e' + 52 - e) * (d * 2 ^ e)) with (2 ^ (e' + 52) * d); [done|].
      replace (2 ^ (e' + 52)) with (2 ^ (e' + 52 - e) * 2 ^ e)
        by (rewrite <- Z.pow_add_r by lia; f_equal; lia).
      ring.
    + replace (2 ^ (e' + 52)) with (2 ^ 52 * 2 ^ e')
        by (rewrite <- Z.pow_add_r by lia; f_equal; lia).
      apply Z.mul_le_mono_nonneg_r; [lia|].
      apply rhe_ge_bound; [nia|].
      pose proof (Z.log2_spec a' Ha') as [Hlow _].
      replace (Z.log2 a') with (52 + e') in Hlow by lia.
      rewrite Z.pow_add_r in Hlow by lia.
      pose proof (Z.mul_div_le n' d' Hd'). fold a' in H. nia.
Qed.

(** Representable values are fixed points. *)
Lemma rnd_pos_exact (m e d : Z) :
  0 <= m < 2 ^ 53 -> 0 <= e -> 0 < d ->
  rnd_pos (m * 2 ^ e * d) d = m * 2 ^ e.
Proof.
  intros Hm He Hd. unfold rnd_pos. rewrite Z.div_mul by lia.
  pose proof (pow2_pos e He) as Hpe.
  set (ec := Z.max (Z.log2 (m * 2 ^ e) - 52) 0).
  assert (Hec : 0 <= ec <= e).
  { subst ec. destruct (Z.eq_dec m 0) as [->|Hnz]; [simpl; lia|].
    rewrite Z.log2_mul_pow2 by lia.
    assert (Z.log2 m < 53) by (apply Z.log2_lt_pow2; lia). lia. }
  pose proof (pow2_pos ec ltac:(lia)) as Hpec.
  replace (m * 2 ^ e * d) with (m * 2 ^ (e - ec) * (d * 2 ^ ec)).
  - rewrite rhe_exact by nia. rewrite <- Z.mul_assoc, <- Z.pow_add_r by lia.
    do 2 f_equal. lia.
  - replace (2 ^ e) with (2 ^ (e - ec) * 2 ^ ec)
      by (rewrite <- Z.pow_add_r by lia; f_equal; lia).
    ring.
Qed.

Lemma rnd_signed_mono (n d n' d' : Z) :
  0 < d -> 0 < d' -> n * d' <= n' * d -> rnd_signed n d <= rnd_signed n' d'.
Proof.
  intros Hd Hd' Hle. unfold rnd_signed.
  destruct (Z.ltb_spec n 0) as [Hn|Hn], (Z.ltb_spec n' 0) as [Hn'|Hn'].
  - apply Z.opp_le_mono. rewrite !Z.opp_involutive.
    apply rnd_pos_mono; nia.
  - pose proof (rnd_pos_nonneg (- n) d ltac:(lia) Hd).
    pose proof (rnd_pos_nonneg n' d' Hn' Hd'). lia.
  - nia.
  - by apply rnd_pos_mono.
Qed.

Lemma rnd_signed_sign (n d : Z) :
  0 < d -> (0 <= n -> 0 <= rnd_signed n d) /\ (n <= 0 -> rnd_signed n d <= 0).
Proof.
  intros Hd. unfold rnd_signed. destruct (Z.ltb_spec n 0) as [Hn|Hn]; split; intros.
  - lia.
  - pose proof (rnd_pos_nonneg (- n) d ltac:(lia) Hd). lia.
  - by apply rnd_pos_nonneg.
  - assert (n = 0) as -> by lia.
    pose proof (rnd_pos_exact 0 0 d ltac:(lia) ltac:(lia) Hd) as H0.
    rewrite !Z.mul_0_l in H0. lia.
Qed.

Lemma rnd_mono (n d n' d' : Z) :
  0 < d -> 0 < d' -> n * d' <= n' * d -> fle (rnd n d) (rnd n' d') = true.
Proof.
  intros Hd Hd' Hle. unfold rnd.
  pose proof (rnd_signed_mono n d n' d' Hd Hd' Hle) as Hm.
  pose proof (rnd_signed_sign n d Hd) as [Hs1 Hs2].
  pose proof (rnd_signed_sign n' d' Hd') as [Hs1' Hs2'].
  assert (Hthr : 0 < overflow_threshold) by (apply pow2_pos; lia).
  destruct (Z.leb_spec overflow_threshold (Z.abs (rnd_signed n d))) as [Ho|Ho],
           (Z.leb_spec overflow_threshold (Z.abs (rnd_signed n' d'))) as [Ho'|Ho'];
    simpl.
  - destruct (Z.ltb_spec n 0), (Z.ltb_spec n' 0); simpl; try done. lia.
  - destruct (Z.ltb_spec n 0); [done|]. lia.
  - destruct (Z.ltb_spec n' 0); [|done]. lia.
  - by apply Z.leb_le.
Qed.

Lemma rnd_exact (m e d : Z) :
  0 <= m < 2 ^ 53 -> 0 <= e -> 0 < d -> m * 2 ^ e < overflow_threshold ->
  rnd (m * 2 ^ e * d) d = Finite (m * 2 ^ e).
Proof.
  intros Hm He Hd Hthr. unfold rnd, rnd_signed.
  pose proof (pow2_pos e He).
  destruct (Z.ltb_spec (m * 2 ^ e * d) 0); [nia|].
  rewrite rnd_pos_exact by done.
  destruct (Z.leb_spec overflow_threshold (Z.abs (m * 2 ^ e))); [lia|done].
Qed.

(** A rational between two representable bounds rounds to a finite float
    between them. *)
Lemma rnd_between (n d lo hi : Z) :
  0 < d ->
  rnd (lo * d) d = Finite lo -> rnd (hi * d) d = Finite hi ->
  lo * d <= n <= hi * d ->
  exists r, rnd n d = Finite r /\ lo <= r <= hi.
Proof.
  intros Hd Hlo Hhi [H1 H2].
  pose proof (rnd_mono (lo * d) d n d Hd Hd ltac:(nia)) as Hl.
  pose proof (rnd_mono n d (hi * d) d Hd Hd ltac:(nia)) as Hh.
  rewrite Hlo in Hl. rewrite Hhi in Hh.
  destruct (rnd n d) as [r|s|]; simpl in *.
  - exists r. split; [done|]. apply Z.leb_le in Hl, Hh. lia.
  - destruct s; simpl in *; done.
  - done.
Qed.

Lemma fle_trans (x y z : float) :
  fle x y = true -> fle y z = true -> fle x z = true.
Proof.
  destruct x as [a|[]|], y as [b|[]|], z as [c|[]|]; simpl; try done.
  intros ?%Z.leb_le ?%Z.leb_le. apply Z.leb_le. lia.
Qed.

Lemma rnd_not_nan (n d : Z) : rnd n d <> NaN.
Proof. unfold rnd. by destruct (_ <=? _). Qed.

Lemma fle_pos_inf (x : float) : x <> NaN -> fle x (Inf false) = true.
Proof. by destruct x as [|[]|]. Qed.

Lemma fle_neg_inf (x : float) : x <> NaN -> fle (Inf true) x = true.
Proof. by destruct x as [|[]|]. Qed.

Lemma one_unit_pos : 0 < one_unit.
Proof. apply pow2_pos. unfold unit_exp. lia. Qed.

Lemma fmul_mono (x y : float) (k : Z) :
  0 < k -> fle x y = true -> fle (fmul x (Finite k)) (fmul y (Finite k)) = true.
Proof.
  intros Hk Hxy. pose proof one_unit_pos as HU.
  assert (Hk0 : (k =? 0) = false) by (apply Z.eqb_neq; lia).
  assert (Hkn : (k <? 0) = false) by (apply Z.ltb_ge; lia).
  destruct x as [a|[]|], y as [b|[]|]; cbn [fmul fle] in *;
    rewrite ?Hk0, ?Hkn; cbn [xorb]; try done.
  - apply Z.leb_le in Hxy. apply rnd_mono; try done.
    apply Z.mul_le_mono_nonneg_r; [lia|nia].
  - apply fle_pos_inf, rnd_not_nan.
  - apply fle_neg_inf, rnd_not_nan.
Qed.

Lemma fadd_mono (c : Z) (x y : float) :
  fle x y = true -> fle (fadd (Finite c) x) (fadd (Finite c) y) = true.
Proof.
  intros Hxy.
  destruct x as [a|[]|], y as [b|[]|]; cbn [fadd fle] in *; try done.
  - apply Z.leb_le in Hxy. apply rnd_mono; lia.
  - apply fle_pos_inf, rnd_not_nan.
  - apply fle_neg_inf, rnd_not_nan.
Qed.

Lemma of_int_exact (z : Z) :
  0 <= z < 2 ^ 53 -> of_int z = Ok (Finite (z * one_unit)).
Proof.
  intros Hz. unfold of_int, one_unit, unit_exp.
  rewrite <- (Z.mul_1_r (z * 2 ^ 1074)) at 1.
  rewrite rnd_exact; [done|lia|lia|lia|].
  unfold overflow_threshold.
  apply Z.lt_le_trans with (2 ^ 53 * 2 ^ 1074).
  - apply Z.mul_lt_mono_pos_r; [apply pow2_pos|]; lia.
  - rewrite <- Z.pow_add_r by lia. apply Z.pow_le_mono_r; lia.
Qed.

Lemma int_truediv_mono (a a' b : Z) (q q' : float) :
  0 < b -> a <= a' ->
  int_truediv a b = Ok q -> int_truediv a' b = Ok q' -> fle q q' = true.
Proof.
  intros Hb Ha. unfold int_truediv.
  destruct (Z.eqb_spec b 0); [lia|].
  rewrite (Z.sgn_pos b Hb), (Z.abs_eq b) by lia. rewrite !Z.mul_1_l.
  pose proof one_unit_pos.
  assert (Hab : a * one_unit * b <= a' * one_unit * b)
    by (apply Z.mul_le_mono_nonneg_r; [lia|apply Z.mul_le_mono_nonneg_r; lia]).
  pose proof (rnd_mono (a * one_unit) b (a' * one_unit) b Hb Hb Hab) as Hm.
  destruct (rnd (a * one_unit) b) as [r|s|], (rnd (a' * one_unit) b) as [r'|s'|];
    try done; by intros [= <-] [= <-].
Qed.

Lemma one_unit_eq : one_unit = 2 ^ 1074.
Proof. reflexivity. Qed.

Lemma rnd_range (n d i k : Z) :
  0 < d -> 0 <= i <= k -> k < 2098 -> 2 ^ i * d <= n <= 2 ^ k * d ->
  exists r, rnd n d = Finite r /\ 2 ^ i <= r <= 2 ^ k.
Proof.
  intros Hd Hi Hk Hn. apply rnd_between; [exact Hd| | |exact Hn].
  - pose proof (rnd_exact 1 i d ltac:(lia) ltac:(lia) Hd) as H1.
    rewrite !Z.mul_1_l in H1. apply H1.
    unfold overflow_threshold. apply Z.pow_lt_mono_r; lia.
  - pose proof (rnd_exact 1 k d ltac:(lia) ltac:(lia) Hd) as H1.
    rewrite !Z.mul_1_l in H1. apply H1.
    unfold overflow_threshold. apply Z.pow_lt_mono_r; lia.
Qed.

Lemma rnd_range0 (n d k : Z) :
  0 < d -> 0 <= k < 2098 -> 0 <= n <= 2 ^ k * d ->
  exists r, rnd n d = Finite r /\ 0 <= r <= 2 ^ k.
Proof.
  intros Hd Hk Hn. apply rnd_between; [exact Hd| | |lia].
  - pose proof (rnd_exact 0 0 d ltac:(lia) ltac:(lia) Hd) as H1.
    rewrite !Z.mul_0_l in H1. rewrite Z.mul_0_l. apply H1. vm_compute. reflexivity.
  - pose proof (rnd_exact 1 k d ltac:(lia) ltac:(lia) Hd) as H1.
    rewrite !Z.mul_1_l in H1. apply H1.
    unfold overflow_threshold. apply Z.pow_lt_mono_r; lia.
Qed.

Lemma rnd_finite (n d k : Z) :
  0 < d -> 0 <= k < 2098 -> Z.abs n <= 2 ^ k * d ->
  exists r, rnd n d = Finite r /\ Z.abs r <= 2 ^ k.
Proof.
  intros Hd Hk Hn.
  assert (Hpow : 2 ^ k < 2 ^ 2098) by (apply Z.pow_lt_mono_r; lia).
  pose proof (pow2_pos k ltac:(lia)) as Hpk.
  assert (Hpos : forall m, 0 <= m <= 2 ^ k * d -> 0 <= rnd_pos m d <= 2 ^ k).
  { intros m Hm. split; [apply rnd_pos_nonneg; lia|].
    pose proof (rnd_pos_exact 1 k d ltac:(lia) ltac:(lia) Hd) as He.
    rewrite !Z.mul_1_l in He. rewrite <- He.
    apply rnd_pos_mono; [lia|lia|lia|nia]. }
  assert (Hs : Z.abs (rnd_signed n d) <= 2 ^ k).
  { unfold rnd_signed. destruct (Z.ltb_spec n 0).
    - pose proof (Hpos (- n) ltac:(lia)). lia.
    - pose proof (Hpos n ltac:(lia)). lia. }
  unfold rnd, overflow_threshold.
  destruct (Z.leb_spec (2 ^ 2098) (Z.abs (rnd_signed n d))); [lia|].
  eexists. split; [reflexivity|exact Hs].
Qed.

Lemma rnd_pos_exact_units (m d : Z) :
  0 <= m < 2 ^ 53 -> 0 < d -> rnd_pos (m * one_unit * d) d = m * one_unit.
Proof. intros Hm Hd. unfold one_unit, unit_exp. apply rnd_pos_exact; lia. Qed.

#[local] Opaque one_unit overflow_threshold.

Lemma int_truediv_finite (a b k : Z) :
  b <> 0 -> 0 <= k < 1024 -> Z.abs a <= 2 ^ k * Z.abs b ->
  exists r, int_truediv a b = Ok (Finite r) /\ Z.abs r <= 2 ^ k * one_unit.
Proof.
  intros Hb Hk Ha. unfold int_truediv. destruct (Z.eqb_spec b 0); [lia|].
  pose proof one_unit_pos as HU.
  destruct (rnd_finite (Z.sgn b * a * one_unit) (Z.abs b) (k + 1074)) as (r & -> & Hr).
  - lia.
  - lia.
  - rewrite Z.pow_add_r, <- one_unit_eq by lia.
    rewrite !Z.abs_mul. rewrite (Z.abs_eq one_unit) by lia.
    assert (Hsb : Z.abs (Z.sgn b) = 1) by lia. rewrite Hsb. nia.
  - exists r. split; [reflexivity|].
    by rewrite Z.pow_add_r, <- one_unit_eq in Hr by lia.
Qed.

Lemma fmul_range (a b i j i' j' : Z) :
  2 ^ i <= a <= 2 ^ j -> 2 ^ i' <= b <= 2 ^ j' ->
  0 <= i -> 0 <= i' -> 1074 <= i + i' -> j + j' - 1074 < 2098 ->
  exists r, fmul (Finite a) (Finite b) = Finite r
            /\ 2 ^ (i + i' - 1074) <= r <= 2 ^ (j + j' - 1074).
Proof.
  intros Ha Hb Hi Hi' Hlo Hhi. cbn [fmul].
  pose proof (pow2_pos i Hi). pose proof (pow2_pos i' Hi').
  assert (Hj : i <= j).
  { destruct (Z.le_gt_cases i j); [done|].
    assert (2 ^ j < 2 ^ i) by (apply Z.pow_lt_mono_r; lia). lia. }
  assert (Hj' : i' <= j').
  { destruct (Z.le_gt_cases i' j'); [done|].
    assert (2 ^ j' < 2 ^ i') by (apply Z.pow_lt_mono_r; lia). lia. }
  apply rnd_range; [apply one_unit_pos|lia|lia|].
  rewrite one_unit_eq, <- !Z.pow_add_r by lia.
  replace (i + i' - 1074 + 1074) with (i + i') by lia.
  replace (j + j' - 1074 + 1074) with (j + j') by lia.
  rewrite !Z.pow_add_r by lia. split.
  - apply Z.mul_le_mono_nonneg; lia.
  - apply Z.mul_le_mono_nonneg; lia.
Qed.

Lemma fmul_range0 (a b j j' : Z) :
  0 <= a <= 2 ^ j -> 0 <= b <= 2 ^ j' ->
  0 <= j -> 0 <= j' -> 1074 <= j + j' -> j + j' - 1074 < 2098 ->
  exists r, fmul (Finite a) (Finite b) = Finite r /\ 0 <= r <= 2 ^ (j + j' - 1074).
Proof.
  intros Ha Hb Hj Hj' Hlo Hhi. cbn [fmul].
  apply rnd_range0; [apply one_unit_pos|lia|].
  rewrite one_unit_eq, <- !Z.pow_add_r by lia.
  replace (j + j' - 1074 + 1074) with (j + j') by lia.
  rewrite !Z.pow_add_r by lia. split; [nia|].
  apply Z.mul_le_mono_nonneg; lia.
Qed.

Lemma fadd_range (a b i j : Z) :
  2 ^ i <= a <= 2 ^ j -> 0 <= b <= 2 ^ j -> 0 <= i -> j + 1 < 2098 ->
  exists r, fadd (Finite a) (Finite b) = Finite r /\ 2 ^ i <= r <= 2 ^ (j + 1).
Proof.
  intros Ha Hb Hi Hj. cbn [fadd].
  pose proof (pow2_pos i Hi).
  assert (Hij : i <= j).
  { destruct (Z.le_gt_cases i j); [done|].
    assert (2 ^ j < 2 ^ i) by (apply Z.pow_lt_mono_r; lia). lia. }
  apply rnd_range; [lia|lia|lia|].
  rewrite (Z.pow_add_r 2 j 1) by lia. change (2 ^ 1) with 2. lia.
Qed.

Lemma pow2_le (i j : Z) : 0 <= i <= j -> 2 ^ i <= 2 ^ j.
Proof. intros. apply Z.pow_le_mono_r; lia. Qed.

Lemma rnd_pos_error (n d : Z) :
  0 <= n -> 0 < d ->
  let e := Z.max (Z.log2 (n / d) - 52) 0 in
  2 * Z.abs (rnd_pos n d * d - n) <= d * 2 ^ e
  /\ 2 ^ e * d <= Z.max d (n / 2 ^ 52).
Proof.
  intros Hn Hd e. unfold rnd_pos. fold e.
  pose proof (pow2_pos e ltac:(lia)) as Hpe.
  split.
  - pose proof (rhe_cases n (d * 2 ^ e) ltac:(nia)) as Hc.
    replace (rhe n (d * 2 ^ e) * 2 ^ e * d) with (rhe n (d * 2 ^ e) * (d * 2 ^ e)) by ring.
    lia.
  - destruct (Z.le_gt_cases (Z.log2 (n / d) - 52) 0) as [Hle|Hgt].
    + replace e with 0 by lia. change (2 ^ 0) with 1. lia.
    + replace e with (Z.log2 (n / d) - 52) by lia.
      assert (Hx : 0 < n / d).
      { destruct (Z.le_gt_cases (n / d) 0) as [H0|]; [|done].
        rewrite (Z.log2_nonpos _ H0) in Hgt. lia. }
      pose proof (Z.log2_spec _ Hx) as [Hlow _].
      replace (Z.log2 (n / d)) with (Z.log2 (n / d) - 52 + 52) in Hlow by lia.
      rewrite Z.pow_add_r in Hlow by lia.
      pose proof (Z.mul_div_le n d Hd) as Hmd.
      pose proof (pow2_pos (Z.log2 (n / d) - 52) ltac:(lia)) as Hp.
      set (t := 2 ^ (Z.log2 (n / d) - 52)) in *.
      assert (Hq : t * d <= n / 2 ^ 52).
      { apply Z.div_le_lower_bound; [lia|]. nia. }
      lia.
Qed.

Lemma int_truediv_ceil (a b : Z) :
  0 <= a < 2 ^ 53 -> 0 < b < 2 ^ 53 ->
  exists q, int_truediv a b = Ok q /\ math_ceil q = Ok ((a + b - 1) / b).
Proof.
  intros Ha Hb. pose proof one_unit_pos as HU.
  assert (HU53 : 2 ^ 53 < one_unit) by (vm_compute; reflexivity).
  unfold int_truediv. destruct (Z.eqb_spec b 0); [lia|].
  rewrite Z.sgn_pos, Z.abs_eq, Z.mul_1_l by lia.
  set (k := a / b). set (s := a mod b).
  pose proof (Z.div_mod a b ltac:(lia)) as Hdm. fold k s in Hdm.
  pose proof (Z.mod_pos_bound a b ltac:(lia)) as Hs. fold s in Hs.
  assert (Hk : 0 <= k <= a) by (subst k; split; [apply Z.div_pos|apply Z.div_le_upper_bound]; nia).
  assert (Hceil : (a + b - 1) / b = if s =? 0 then k else k + 1).
  { destruct (Z.eqb_spec s 0).
    - symmetry. apply (Z.div_unique _ _ _ (b - 1)); lia.
    - symmetry. apply (Z.div_unique _ _ _ (s - 1)); lia. }
  rewrite Hceil.
  assert (Hexact : forall m, 0 <= m < 2 ^ 53 ->
             rnd_pos (m * one_unit * b) b = m * one_unit).
  { intros m Hm. apply rnd_pos_exact_units; lia. }
  (* the rounded quotient, in units *)
  assert (Hr : exists r, rnd (a * one_unit) b = Finite r
                         /\ (if s =? 0 then r = k * one_unit
                             else k * one_unit < r <= (k + 1) * one_unit)).
  { assert (Hsig : rnd_signed (a * one_unit) b = rnd_pos (a * one_unit) b).
    { unfold rnd_signed. destruct (Z.ltb_spec (a * one_unit) 0); [nia|done]. }
    assert (Hval : if s =? 0 then rnd_pos (a * one_unit) b = k * one_unit
                   else k * one_unit < rnd_pos (a * one_unit) b <= (k + 1) * one_unit).
    { destruct (Z.eqb_spec s 0) as [Hs0|Hs0].
      - replace a with (k * b) by lia.
        replace (k * b * one_unit) with (k * one_unit * b) by ring.
        apply Hexact. lia.
      - assert (Hb2 : 2 <= b) by lia.
        assert (Hk1 : k + 1 < 2 ^ 53) by nia.
        split.
        + destruct (rnd_pos_error (a * one_unit) b ltac:(nia) ltac:(lia)) as [He1 He2].
          cbv zeta in He1, He2.
          set (e := Z.max (Z.log2 (a * one_unit / b) - 52) 0) in *.
          set (r := rnd_pos (a * one_unit) b) in *.
          assert (He3 : 2 ^ e * b < 2 * one_unit).
          { assert (a * one_unit / 2 ^ 52 < 2 * one_unit).
            { apply Z.div_lt_upper_bound; [lia|]. change (2 ^ 53) with (2 ^ 52 * 2) in Ha. nia. }
            lia. }
          assert (2 * (a * one_unit - r * b) < 2 * one_unit) by lia.
          assert (Hau : a * one_unit = b * k * one_unit + s * one_unit) by (rewrite Hdm at 1; ring).
          assert (one_unit <= s * one_unit) by nia.
          assert (k * one_unit * b < r * b) by lia.
          nia.
        + rewrite <- (Hexact (k + 1)) by lia.
          apply rnd_pos_mono; [nia|lia|lia|].
          apply Z.mul_le_mono_nonneg_r; [lia|].
          replace ((k + 1) * one_unit * b) with ((b * k + b) * one_unit) by ring.
          apply Z.mul_le_mono_nonneg_r; lia. }
    unfold rnd. rewrite Hsig.
    set (r := rnd_pos (a * one_unit) b) in *.
    assert (Hthr : 2 ^ 53 * one_unit < overflow_threshold) by (vm_compute; reflexivity).
    assert (Hrb : 0 <= r <= 2 ^ 53 * one_unit).
    { destruct (s =? 0); nia. }
    destruct (Z.leb_spec overflow_threshold (Z.abs r)); [lia|].
    exists r. split; [done|]. done. }
  destruct Hr as (r & -> & Hr). exists (Finite r). split; [done|].
  cbn [math_ceil]. f_equal.
  destruct (s =? 0).
  - subst r. replace (- (k * one_unit)) with (- k * one_unit) by ring.
    rewrite Z.div_mul by lia. lia.
  - assert ((- r) / one_unit = - (k + 1)); [|lia].
    symmetry. apply (Z.div_unique _ _ _ ((k + 1) * one_unit - r)); lia.
Qed.

Lemma fdiv_pos (a b : Z) :
  0 < b -> fdiv (Finite a) (Finite b) = Ok (rnd (a * one_unit) b).
Proof.
  intros Hb. destruct b as [|b|b]; [lia| |lia].
  cbn [fdiv]. by rewrite Z.sgn_pos, Z.abs_eq, Z.mul_1_l by lia.
Qed.

Lemma fadd_eight_zero : fadd (Finite (8 * one_unit)) (Finite 0) = Finite (8 * one_unit).
Proof. vm_compute. reflexivity. Qed.

Lemma fmul_zero_l (k : Z) : fmul (Finite 0) (Finite k) = Finite 0.
Proof.
  cbn [fmul]. rewrite Z.mul_0_l.
  pose proof (rnd_exact 0 0 one_unit ltac:(lia) ltac:(lia) one_unit_pos) as H0.
  rewrite !Z.mul_0_l in H0. apply H0. vm_compute. reflexivity.
Qed.

Lemma fle_not_nan (x y : float) : fle x y = true -> x <> NaN /\ y <> NaN.
Proof. destruct x as [|[]|], y as [|[]|]; cbn [fle]; intros H; split; congruence. Qed.

Lemma flt_zero_spec (q : float) :
  q <> NaN ->
  if flt q (Finite 0) then fle q (Finite 0) = true else fle (Finite 0) q = true.
Proof.
  destruct q as [a|[]|]; cbn [flt fle negb]; try congruence.
  intros _. destruct (Z.ltb_spec a 0); apply Z.leb_le; lia.
Qed.

Lemma flt_zero_mono (q q' : float) :
  fle q q' = true -> flt q' (Finite 0) = true -> flt q (Finite 0) = true.
Proof.
  destruct q as [a|[]|], q' as [a'|[]|]; simpl; intros H1 H2;
    try congruence; try reflexivity.
  apply Z.leb_le in H1. apply Z.ltb_lt in H2. apply Z.ltb_lt. lia.
Qed.

Lemma num_mul_float_int (f : float) (z : Z) :
  0 <= z < 2 ^ 53 ->
  num_mul (PyFloat f) (PyInt z) = Ok (PyFloat (fmul f (Finite (z * one_unit)))).
Proof. intros Hz. cbn [num_mul to_float bind]. by rewrite of_int_exact. Qed.

Lemma num_mul_int_float (z : Z) (f : float) :
  0 <= z < 2 ^ 53 ->
  num_mul (PyInt z) (PyFloat f) = Ok (PyFloat (fmul (Finite (z * one_unit)) f)).
Proof. intros Hz. cbn [num_mul to_float]. by rewrite of_int_exact. Qed.

Lemma num_add_int_float (z : Z) (f : float) :
  0 <= z < 2 ^ 53 ->
  num_add (PyInt z) (PyFloat f) = Ok (PyFloat (fadd (Finite (z * one_unit)) f)).
Proof. intros Hz. cbn [num_add to_float]. by rewrite of_int_exact. Qed.

Lemma bind_eq {A B : Type} (m : pyresult A) (k : A -> pyresult B) (a : A) :
  m = Ok a -> bind m k = k a.
Proof. by intros ->. Qed.

Lemma bind_returns {A B : Type} (m : pyresult A) (k : A -> pyresult B) (a : A) :
  m = Ok a -> (exists b, k a = Ok b) -> exists b, bind m k = Ok b.
Proof. intros -> Hk. exact Hk. Qed.

End Rounding.

(** * Properties of the grouping engine *)

Section Grouping.

Lemma scan_spec base remaining :
  forall group i,
    scan base group remaining i =
    (group ++ filter (passes base) (drop i remaining),
     take i remaining ++ filter (fun c => ~ passes base c) (drop i remaining)).
Proof.
  induction remaining as [remaining IH] using (induction_ltof1 _ (@length string)).
  intros group i.
  remember (length remaining - i)%nat as k eqn:Hk.
  revert i Hk. induction k as [k IHk] using lt_wf_ind. intros i Hk.
  rewrite scan_eq. destruct (remaining !! i) as [cand|] eqn:E.
  - pose proof (lookup_lt_Some _ _ _ E) as Hlt.
    rewrite (drop_S _ _ _ E).
    destruct (Z.leb_spec min_prefix_length (common_len base cand)) as [Hj|Hj].
    + rewrite IH by (unfold ltof; rewrite length_delete by eauto; lia).
      rewrite delete_take_drop.
      rewrite take_app_length' by (rewrite length_take_le; lia).
      rewrite drop_app_length' by (rewrite length_take_le; lia).
      rewrite filter_cons_True by exact Hj.
      rewrite (filter_cons_False (fun c => ~ passes base c)) by (unfold passes; lia).
      by rewrite <- app_assoc.
    + rewrite (IHk (length remaining - S i)%nat) by lia.
      rewrite (take_S_r _ _ _ E).
      rewrite filter_cons_False by (unfold passes; lia).
      rewrite (filter_cons_True (fun c => ~ passes base c)) by (unfold passes; lia).
      by rewrite <- app_assoc.
  - apply lookup_ge_None in E.
    rewrite drop_ge, take_ge by lia. simpl. by rewrite !app_nil_r.
Qed.

(** The groups of the code, by recursion on the pool. *)
Lemma form_groups_loop_cons groups base rest :
  form_groups_loop groups (base :: rest) =
  form_groups_loop (groups ++ [base :: filter (passes base) rest])
                   (filter (fun c => ~ passes base c) rest).
Proof.
  rewrite form_groups_loop_equation_2, scan_spec. simpl.
  by rewrite drop_0.
Qed.

Lemma form_groups_loop_acc pool :
  forall groups, form_groups_loop groups pool = groups ++ form_groups pool.
Proof.
  induction pool as [pool IH] using (induction_ltof1 _ (@length string)).
  intros groups. destruct pool as [|base rest].
  - unfold form_groups. rewrite !form_groups_loop_equation_1. by rewrite app_nil_r.
  - unfold form_groups. rewrite !form_groups_loop_cons.
    assert (Hlt : ltof _ (@length string)
                    (filter (fun c => ~ passes base c) rest) (base :: rest)).
    { pose proof (length_filter (fun c => ~ passes base c) rest).
      unfold ltof. cbn [length]. lia. }
    rewrite (IH _ Hlt (groups ++ _)), (IH _ Hlt ([] ++ _)).
    by rewrite <- app_assoc.
Qed.

Lemma form_groups_nil : form_groups [] = [].
Proof. unfold form_groups. by rewrite form_groups_loop_equation_1. Qed.

Lemma form_groups_cons base rest :
  form_groups (base :: rest) =
  (base :: filter (passes base) rest)
    :: form_groups (filter (fun c => ~ passes base c) rest).
Proof.
  unfold form_groups at 1. by rewrite form_groups_loop_cons, form_groups_loop_acc.
Qed.

(** An induction principle that follows the pass. *)
Lemma form_groups_ind (P : list string -> list (list string) -> Prop) :
  P [] [] ->
  (forall base rest,
      P (filter (fun c => ~ passes base c) rest)
        (form_groups (filter (fun c => ~ passes base c) rest)) ->
      P (base :: rest)
        ((base :: filter (passes base) rest)
           :: form_groups (filter (fun c => ~ passes base c) rest))) ->
  forall pool, P pool (form_groups pool).
Proof.
  intros Hnil Hcons pool.
  induction pool as [pool IH] using (induction_ltof1 _ (@length string)).
  destruct pool as [|base rest].
  - by rewrite form_groups_nil.
  - rewrite form_groups_cons. apply Hcons, IH.
    pose proof (length_filter (fun c => ~ passes base c) rest).
    unfold ltof. cbn [length]. lia.
Qed.

Lemma length_filter_fmap {A B : Type} (f : A -> B) (P : B -> Prop)
    `{!forall y, Decision (P y)} (l : list A) :
  length (filter P (f <$> l)) = length (filter (fun x => P (f x)) l).
Proof.
  induction l as [|x l IH]; [done|].
  rewrite fmap_cons. destruct (decide (P (f x))) as [Hx|Hx].
  - rewrite !filter_cons_True by done. simpl. by rewrite IH.
  - by rewrite !filter_cons_False.
Qed.

(** On strings of one length the count of line 63 is the count of equal
    positions. *)
Lemma common_len_positions (base : string) :
  forall (cand : string) (n : nat),
    String.length base = n -> String.length cand = n ->
    common_len base cand =
    Z.of_nat (length (filter (fun i => is_Some (String.get i base)
                                       /\ String.get i base = String.get i cand)
                             (seq 0 n))).
Proof.
  induction base as [|a base IH]; intros cand n Hb Hc.
  - simpl in Hb. subst n. by destruct cand.
  - destruct cand as [|b cand]; [simpl in *; congruence|].
    destruct n as [|n]; [simpl in Hb; lia|].
    simpl in Hb, Hc.
    cbn [common_len seq]. rewrite <- fmap_S_seq.
    rewrite (IH cand n) by lia.
    destruct (Ascii.eqb_spec a b) as [->|Hab].
    + rewrite filter_cons_True by (simpl; eauto).
      cbn [length]. rewrite length_filter_fmap. simpl. lia.
    + rewrite filter_cons_False by (simpl; intros [_ ?]; congruence).
      rewrite length_filter_fmap. simpl. lia.
Qed.

Lemma passes_joins base cand :
  String.length base = 24%nat -> String.length cand = 24%nat ->
  passes base cand <-> Design.joins base cand.
Proof.
  intros Hb Hc. unfold passes, Design.joins, Design.positional_equality_count.
  rewrite (common_len_positions base cand 24 Hb Hc).
  unfold min_prefix_length. lia.
Qed.

Lemma form_groups_greedy (epcs : list string) :
  Forall (fun epc => String.length epc = 24%nat) epcs ->
  form_groups epcs = Design.greedy_groups epcs.
Proof.
  induction epcs as [epcs IH] using (induction_ltof1 _ (@length string)).
  intros Hlen. destruct epcs as [|base rest].
  - by rewrite form_groups_nil, Design.greedy_groups_equation_1.
  - rewrite form_groups_cons, Design.greedy_groups_equation_2.
    apply Forall_cons in Hlen as [Hb Hrest].
    assert (Hin : forall P1 P2 `{!forall x, Decision (P1 x), !forall x, Decision (P2 x)},
               (forall c, String.length c = 24%nat -> P1 c <-> P2 c) ->
               filter P1 rest = filter P2 rest).
    { intros P1 P2 ? ? HP. clear IH. induction rest as [|c rest IHr]; [done|].
      apply Forall_cons in Hrest as [Hc Hrest].
      rewrite !filter_cons. rewrite (IHr Hrest).
      pose proof (HP c Hc) as Hiff.
      destruct (decide (P1 c)), (decide (P2 c)); tauto || done. }
    rewrite (Hin (passes base) (Design.joins base) _ _)
      by (intros; by apply passes_joins).
    rewrite (Hin (fun c => ~ passes base c) (fun c => ~ Design.joins base c) _ _)
      by (intros c Hc; by rewrite (passes_joins base c Hb Hc)).
    f_equal. apply IH.
    + pose proof (length_filter (fun c => ~ Design.joins base c) rest).
      unfold ltof. cbn [length]. lia.
    + apply Forall_forall. intros c [_ Hc]%list_elem_of_filter.
      by eapply Forall_forall in Hrest.
Qed.

(** C2. For 24-character EPCs the groups that [group_and_analyze] forms
    (lines 52-68) are those of the greedy pass of the design document: the
    first remaining EPC is the base, a later EPC joins when at least 6 of the
    24 positions carry the same character as the base, and groups come out in
    the order of their bases; the rows are the analysis of these groups in
    that order. *)
Theorem C2_grouping_is_the_greedy_pass (epcs : list string) :
  Forall (fun epc => String.length epc = 24%nat) epcs ->
  form_groups epcs = Design.greedy_groups epcs
  /\ group_and_analyze epcs =
     for_each (fun '(gid, group) => analyze_group gid group)
              (enumerate 1 (Design.greedy_groups epcs)).
Proof.
  intros Hlen. unfold group_and_analyze.
  by rewrite (form_groups_greedy epcs Hlen).
Qed.

(** Every group is a base followed by EPCs that pass the test against it. *)
Lemma form_groups_shape (epcs : list string) :
  Forall (fun group => exists base members,
              group = base :: members /\ Forall (passes base) members)
         (form_groups epcs).
Proof.
  apply (form_groups_ind (fun _ groups =>
    Forall (fun group => exists base members,
                group = base :: members /\ Forall (passes base) members) groups)).
  - constructor.
  - intros base rest IH. constructor; [|exact IH].
    exists base, (filter (passes base) rest). split; [done|].
    apply Forall_forall. by intros c [Hc _]%list_elem_of_filter.
Qed.

Lemma form_groups_concat (epcs : list string) :
  concat (form_groups epcs) ≡ₚ epcs.
Proof.
  apply (form_groups_ind (fun pool groups => concat groups ≡ₚ pool)); [done|].
  intros base rest IH. cbn [concat app]. constructor.
  rewrite IH. apply filter_app_complement.
Qed.

End Grouping.

(** * Properties of the per-group statistics *)

Section Statistics.

Lemma bind_Ok {A B : Type} (m : pyresult A) (k : A -> pyresult B) (b : B) :
  bind m k = Ok b <-> exists a, m = Ok a /\ k a = Ok b.
Proof.
  destruct m as [a|e]; simpl; split.
  - eauto.
  - by intros (a' & [= ->] & ?).
  - done.
  - by intros (a' & ? & _).
Qed.

Lemma for_each_Ok {A B : Type} (f : A -> pyresult B) (l : list A) (bs : list B) :
  for_each f l = Ok bs <-> Forall2 (fun a b => f a = Ok b) l bs.
Proof.
  revert bs. induction l as [|a l IH]; intros bs; simpl.
  - split; [intros [= <-]; constructor | by intros ->%Forall2_nil_inv_l].
  - rewrite bind_Ok. split.
    + intros (b & Hb & (bs' & Hbs & [= <-])%bind_Ok). constructor; [done|by apply IH].
    + intros (b & bs' & Hb & Hbs & ->)%Forall2_cons_inv_l.
      exists b. split; [done|]. apply bind_Ok. exists bs'. split; [by apply IH|done].
Qed.

Lemma enumerate_lookup {A : Type} (l : list A) :
  forall start i, enumerate start l !! i = (fun a => (start + Z.of_nat i, a)) <$> l !! i.
Proof.
  induction l as [|a l IH]; intros start [|i]; simpl; try done.
  - by rewrite Z.add_0_r.
  - rewrite IH. destruct (l !! i); simpl; [|done]. do 2 f_equal. lia.
Qed.

(** What a row says of its group. *)
Lemma analyze_group_single gid group :
  length group = 1%nat ->
  analyze_group gid group =
  Ok {| Group_ID := gid; Prefix := ""; Prefix_Bytes := 0; Suffix_Bytes := 12;
        Suffix_Count := 1; Total_Payload_Bytes := 14; EPCs_SF7_51B := 3;
        EPCs_SF12_11B := 0; Compression_pct := PyInt 0 |}.
Proof. intros Hlen. unfold analyze_group. by rewrite Hlen. Qed.

Lemma analyze_group_multi gid group r :
  length group <> 1%nat ->
  analyze_group gid group = Ok r ->
  exists shortest,
    min_by_len group = Ok shortest /\
    let prefix_len :=
      Z.min (Z.of_nat (String.length shortest))
            (Z.max min_prefix_length (unanimous_columns group)) in
    Group_ID r = gid /\
    Prefix_Bytes r = prefix_len / 2 /\
    Suffix_Bytes r = (24 - prefix_len) / 2 /\
    Suffix_Count r = Z.of_nat (length group) /\
    Total_Payload_Bytes r =
      2 + prefix_len / 2 + Z.of_nat (length group) * ((24 - prefix_len) / 2).
Proof.
  intros Hlen. unfold analyze_group.
  destruct (Nat.eqb_spec (length group) 1) as [|_]; [done|].
  intros (shortest & Hmin & H)%bind_Ok. exists shortest. split; [done|].
  apply bind_Ok in H as (ratio & _ & H).
  apply bind_Ok in H as (percent & _ & H).
  apply bind_Ok in H as (compression & _ & [= <-]).
  by simpl.
Qed.

Lemma analyze_group_count gid group r :
  group <> [] -> analyze_group gid group = Ok r ->
  Suffix_Count r = Z.of_nat (length group).
Proof.
  intros Hne Hr. destruct (decide (length group = 1%nat)) as [Hlen|Hlen].
  - rewrite analyze_group_single in Hr by done. injection Hr as <-. simpl. lia.
  - by apply analyze_group_multi in Hr as (? & _ & _ & _ & _ & ? & _).
Qed.

Lemma common_len_le base :
  forall cand,
    0 <= common_len base cand
    /\ common_len base cand <= Z.of_nat (String.length base)
    /\ common_len base cand <= Z.of_nat (String.length cand).
Proof.
  induction base as [|a base IH]; intros [|b cand]; simpl; try lia.
  specialize (IH cand). destruct (Ascii.eqb a b); lia.
Qed.

Lemma min_by_len_elem group shortest :
  min_by_len group = Ok shortest -> shortest ∈ group.
Proof.
  destruct group as [|g0 rest]; [done|]. simpl. intros [= <-].
  assert (H : forall m, fold_left (fun m s =>
                if (String.length s <? String.length m)%nat then s else m) rest m
              ∈ m :: rest).
  { induction rest as [|s rest IH]; intros m; simpl; [by left|].
    destruct (String.length s <? String.length m)%nat.
    - apply list_elem_of_further, IH.
    - destruct (proj1 (elem_of_cons _ _ _) (IH m)) as [->|Hin].
      + apply list_elem_of_here.
      + by do 2 apply list_elem_of_further. }
  apply H.
Qed.

(** The arithmetic behind C5: a billed prefix of at least 6 characters
    saves bytes on two or more members. *)
Lemma compression_saves (p n : Z) :
  6 <= p -> 2 <= n -> 2 + p / 2 + n * ((24 - p) / 2) < 12 * n.
Proof.
  intros Hp Hn.
  assert (3 <= p / 2) by (apply Z.div_le_lower_bound; lia).
  assert (p / 2 + (24 - p) / 2 <= 12).
  { pose proof (Z.div_mod p 2 ltac:(lia)). pose proof (Z.mod_pos_bound p 2 ltac:(lia)).
    pose proof (Z.div_mod (24 - p) 2 ltac:(lia)).
    pose proof (Z.mod_pos_bound (24 - p) 2 ltac:(lia)). lia. }
  nia.
Qed.

Lemma group_members_long base members shortest :
  Forall (passes base) members ->
  (2 <= length (base :: members))%nat ->
  shortest ∈ base :: members ->
  6 <= Z.of_nat (String.length shortest).
Proof.
  intros Hpass Hlen [->|Hin]%elem_of_cons.
  - destruct members as [|m members]; [simpl in Hlen; lia|].
    apply Forall_cons in Hpass as [Hm _]. unfold passes, min_prefix_length in Hm.
    pose proof (common_len_le base m). lia.
  - rewrite Forall_forall in Hpass. specialize (Hpass _ Hin).
    unfold passes, min_prefix_length in Hpass.
    pose proof (common_len_le base shortest). lia.
Qed.

(** The row at position [i] is the analysis of the group at position [i],
    numbered [i + 1]. *)
Lemma group_and_analyze_rows epcs rows :
  group_and_analyze epcs = Ok rows ->
  length rows = length (form_groups epcs)
  /\ forall i group, form_groups epcs !! i = Some group ->
       exists r, rows !! i = Some r /\ analyze_group (1 + Z.of_nat i) group = Ok r.
Proof.
  unfold group_and_analyze. intros Hrows%for_each_Ok. split.
  - apply Forall2_length in Hrows.
    rewrite <- Hrows. clear Hrows. generalize 1.
    induction (form_groups epcs) as [|g gs IH]; intros start; simpl; [done|].
    by rewrite (IH (start + 1)).
  - intros i group Hi.
    assert (Hen : enumerate 1 (form_groups epcs) !! i = Some (1 + Z.of_nat i, group))
      by (by rewrite enumerate_lookup, Hi).
    destruct (Forall2_lookup_l _ _ _ _ _ Hrows Hen) as (r & Hr & Hrow).
    by exists r.
Qed.

Lemma group_and_analyze_row_inv epcs rows r :
  group_and_analyze epcs = Ok rows -> r ∈ rows ->
  exists i group, form_groups epcs !! i = Some group
                  /\ rows !! i = Some r
                  /\ analyze_group (1 + Z.of_nat i) group = Ok r.
Proof.
  intros Hrows (i & Hi)%list_elem_of_lookup_1.
  pose proof Hrows as Hall. unfold group_and_analyze in Hall.
  apply for_each_Ok in Hall.
  destruct (Forall2_lookup_r _ _ _ _ _ Hall Hi) as ([gid group] & Hen & Hrow).
  rewrite enumerate_lookup in Hen.
  destruct (form_groups epcs !! i) as [g|] eqn:Hg; [|done].
  injection Hen as <- <-. by exists i, g.
Qed.

#[local] Opaque one_unit overflow_threshold.

Lemma for_each_returns {A B : Type} (f : A -> pyresult B) (l : list A) :
  Forall (fun a => exists b, f a = Ok b) l -> exists bs, for_each f l = Ok bs.
Proof.
  induction 1 as [|a l (b & Hb) _ (bs & Hbs)]; [by exists []|].
  exists (b :: bs). cbn [for_each]. by rewrite Hb, Hbs.
Qed.

Lemma unanimous_columns_nonneg (group : list string) : 0 <= unanimous_columns group.
Proof. destruct group; unfold unanimous_columns; lia. Qed.

Lemma round1_returns (pv : Z) :
  Z.abs pv <= 2 ^ 1082 -> exists g, round1 (Finite pv) = Ok g.
Proof.
  intros Hpv. unfold round1. pose proof one_unit_pos as HU.
  assert (Hup : rhe (10 * pv) one_unit <= 4096).
  { apply rhe_le_bound; [exact HU|]. rewrite one_unit_eq.
    replace (2 ^ 1082) with (256 * 2 ^ 1074) in Hpv by (vm_compute; reflexivity).
    pose proof (pow2_pos 1074 ltac:(lia)). set (u := 2 ^ 1074) in *. lia. }
  assert (Hlo : - 4096 <= rhe (10 * pv) one_unit).
  { apply rhe_ge_bound; [exact HU|]. rewrite one_unit_eq.
    replace (2 ^ 1082) with (256 * 2 ^ 1074) in Hpv by (vm_compute; reflexivity).
    pose proof (pow2_pos 1074 ltac:(lia)). set (u := 2 ^ 1074) in *. lia. }
  destruct (rnd_finite (rhe (10 * pv) one_unit * one_unit) 10 1086) as (g & -> & _);
    [lia|lia| |by exists (Finite g)].
  rewrite one_unit_eq.
  replace (2 ^ 1086) with (4096 * 2 ^ 1074) by (vm_compute; reflexivity).
  rewrite one_unit_eq in Hup, Hlo.
  pose proof (pow2_pos 1074 ltac:(lia)). set (u := 2 ^ 1074) in *.
  set (k := rhe (10 * pv) u) in *. nia.
Qed.

(** On a group of 24-character EPCs the analysis of lines 73-119 returns. *)
Lemma analyze_group_returns (gid : Z) (group : list string) :
  group <> [] ->
  Forall (fun epc => String.length epc = 24%nat) group ->
  exists r, analyze_group gid group = Ok r.
Proof.
  intros Hne Hlen. destruct (decide (length group = 1%nat)) as [H1|H1].
  { rewrite analyze_group_single by done. by eexists. }
  unfold analyze_group. destruct (Nat.eqb_spec (length group) 1) as [|_]; [done|].
  destruct (min_by_len group) as [shortest|] eqn:Hmin;
    [|by destruct group].
  pose proof (min_by_len_elem _ _ Hmin) as Hin.
  rewrite Forall_forall in Hlen. cbn [bind]. rewrite (Hlen _ Hin).
  pose proof (unanimous_columns_nonneg group) as Hu.
  set (p := Z.min (Z.of_nat 24) (Z.max min_prefix_length (unanimous_columns group))).
  assert (Hp : 6 <= p <= 24) by (unfold p, min_prefix_length; lia).
  assert (Hn : 1 <= Z.of_nat (length group)) by (destruct group; [done|simpl; lia]).
  set (n := Z.of_nat (length group)) in *.
  assert (Hpb : 3 <= p / 2 <= 12) by (split; [apply Z.div_le_lower_bound|apply Z.div_le_upper_bound]; lia).
  assert (Hsb : 0 <= (24 - p) / 2 <= 9) by (split; [apply Z.div_pos|apply Z.div_le_upper_bound]; lia).
  set (pb := p / 2) in *. set (sb := (24 - p) / 2) in *.
  destruct (int_truediv_finite (n * 12 - (2 + pb + n * sb)) (n * 12) 1)
    as (ratio & Hratio & Hr); [lia|lia|nia|].
  cbn [num_truediv]. rewrite Hratio. cbn [bind].
  rewrite num_mul_float_int by lia. cbn [bind round1_num fmul].
  destruct (rnd_finite (ratio * (100 * one_unit)) one_unit 1082) as (pv & -> & Hpv);
    [apply one_unit_pos|lia| |].
  { rewrite one_unit_eq.
    replace (2 ^ 1082) with (256 * 2 ^ 1074) by (vm_compute; reflexivity).
    rewrite one_unit_eq in Hr. change (2 ^ 1) with 2 in Hr.
    pose proof (pow2_pos 1074 ltac:(lia)). set (u := 2 ^ 1074) in *.
    rewrite !Z.abs_mul. rewrite (Z.abs_eq 100), (Z.abs_eq u) by lia. nia. }
  destruct (round1_returns pv Hpv) as (g & ->). cbn [bind]. by eexists.
Qed.

Lemma group_and_analyze_returns (epcs : list string) :
  Forall (fun epc => String.length epc = 24%nat) epcs ->
  exists rows, group_and_analyze epcs = Ok rows.
Proof.
  intros Hlen. unfold group_and_analyze. apply for_each_returns.
  pose proof (form_groups_shape epcs) as Hshape.
  pose proof (form_groups_concat epcs) as Hperm.
  apply Forall_forall. intros [gid group] Hin.
  apply list_elem_of_lookup_1 in Hin as (i & Hi).
  rewrite enumerate_lookup in Hi.
  destruct (form_groups epcs !! i) as [g|] eqn:Hg; [|done].
  injection Hi as <- <-.
  rewrite Forall_lookup in Hshape. destruct (Hshape _ _ Hg) as (base & members & -> & _).
  apply analyze_group_returns; [done|].
  apply Forall_forall. intros epc Hepc.
  rewrite Forall_forall in Hlen. apply Hlen. rewrite <- Hperm.
  apply list_elem_of_In, in_concat. exists (base :: members).
  split; apply list_elem_of_In; [by eapply list_elem_of_lookup_2|done].
Qed.

(** C3. The groups formed by [group_and_analyze] (lines 52-68) partition
    the input: the groups laid end to end are a rearrangement of the input, so
    each input EPC is in exactly one group, counted with multiplicity; the
    group sizes sum to the input length, and so do the [Suffix_Count]s of the
    returned rows; and rows are returned for every list of 24-character
    EPCs. *)
Theorem C3_groups_partition_the_input (epcs : list string) :
  concat (form_groups epcs) ≡ₚ epcs
  /\ sum_list_with length (form_groups epcs) = length epcs
  /\ (forall rows, group_and_analyze epcs = Ok rows ->
       foldr Z.add 0 (Suffix_Count <$> rows) = Z.of_nat (length epcs))
  /\ (Forall (fun epc => String.length epc = 24%nat) epcs ->
      exists rows, group_and_analyze epcs = Ok rows).
Proof.
  pose proof (form_groups_concat epcs) as Hperm.
  assert (Hsum : sum_list_with length (form_groups epcs) = length epcs).
  { rewrite <- (Permutation_length Hperm). clear Hperm.
    induction (form_groups epcs) as [|g gs IH]; [done|].
    change (length g + sum_list_with length gs = length (g ++ concat gs))%nat.
    by rewrite length_app, IH. }
  split; [done|]. split; [done|]. split; [|apply group_and_analyze_returns].
  intros rows Hrows. rewrite <- Hsum.
  pose proof (form_groups_shape epcs) as Hshape.
  unfold group_and_analyze in Hrows. apply for_each_Ok in Hrows.
  revert Hrows Hshape. generalize 1. clear Hsum Hperm. revert rows.
  induction (form_groups epcs) as [|g gs IH]; intros rows start Hrows Hshape.
  - apply Forall2_nil_inv_l in Hrows as ->. done.
  - simpl in Hrows. apply Forall2_cons_inv_l in Hrows as (r & rows' & Hr & Hrows & ->).
    apply Forall_cons in Hshape as [(base & members & -> & _) Hshape].
    apply analyze_group_count in Hr; [|done].
    rewrite fmap_cons. cbn [foldr].
    rewrite (IH rows' (start + 1) Hrows Hshape), Hr.
    change (sum_list_with length ((base :: members) :: gs))
      with (length (base :: members) + sum_list_with length gs)%nat.
    lia.
Qed.

Lemma C3_witness :
  exists rows,
    group_and_analyze ["AAAAAA000000000000000001"; "123456789012345678901234";
                       "AAAAAA000000000000000002"]%string = Ok rows
    /\ foldr Z.add 0 (Suffix_Count <$> rows) = 3.
Proof.
  eexists. split.
  - vm_compute. reflexivity.
  - apply (proj1 (proj2 (proj2 (C3_groups_partition_the_input
             ["AAAAAA000000000000000001"; "123456789012345678901234";
              "AAAAAA000000000000000002"]%string)))).
    vm_compute. reflexivity.
Defined.

(** C5. In the rows returned by [group_and_analyze], a row of a group of two
    or more members whose [Prefix_Bytes] is positive has a
    [Total_Payload_Bytes] strictly below 12 bytes per member. *)
Theorem C5_compression_saves_bytes (epcs : list string) (rows : list row) (r : row) :
  group_and_analyze epcs = Ok rows ->
  r ∈ rows ->
  2 <= Suffix_Count r ->
  0 < Prefix_Bytes r ->
  Total_Payload_Bytes r < 12 * Suffix_Count r.
Proof.
  intros Hrows Hr Hcount _.
  destruct (group_and_analyze_row_inv _ _ _ Hrows Hr) as (i & group & Hg & _ & Hrow).
  pose proof (form_groups_shape epcs) as Hshape.
  rewrite Forall_lookup in Hshape.
  destruct (Hshape _ _ Hg) as (base & members & -> & Hpass).
  destruct (decide (length (base :: members) = 1%nat)) as [Hlen|Hlen].
  { rewrite analyze_group_single in Hrow by done. injection Hrow as <-.
    simpl in Hcount. lia. }
  apply analyze_group_multi in Hrow as (shortest & Hmin & Hrow); [|done].
  cbv zeta in Hrow. destruct Hrow as (_ & _ & _ & Hc & Ht).
  rewrite Ht, Hc. rewrite Hc in Hcount.
  apply compression_saves; [|done].
  apply min_by_len_elem in Hmin.
  pose proof (group_members_long base members shortest Hpass ltac:(lia) Hmin).
  unfold min_prefix_length. lia.
Qed.

Lemma C5_witness :
  let r := {| Group_ID := 1; Prefix := "AAAAAA0000000000000000"; Prefix_Bytes := 11;
              Suffix_Bytes := 1; Suffix_Count := 2; Total_Payload_Bytes := 15;
              EPCs_SF7_51B := 38; EPCs_SF12_11B := 0;
              Compression_pct := PyFloat (Finite (75 * 2 ^ 1073)) |} in
  Total_Payload_Bytes r < 12 * Suffix_Count r.
Proof.
  intros r.
  apply (C5_compression_saves_bytes
           ["AAAAAA000000000000000001"; "AAAAAAB00000000000000002"]%string [r] r).
  - vm_compute. reflexivity.
  - apply list_elem_of_here.
  - simpl. lia.
  - simpl. lia.
Defined.

(** C8. The row of every group of one member carries the fixed values:
    empty prefix, 0 prefix bytes, 12 suffix bytes, a suffix count of 1, 14
    payload bytes, 3 EPCs at SF7, 0 at SF12 and a compression of 0. *)
Theorem C8_singleton_rows_are_fixed (epcs : list string) (rows : list row)
    (i : nat) (group : list string) :
  group_and_analyze epcs = Ok rows ->
  form_groups epcs !! i = Some group ->
  length group = 1%nat ->
  rows !! i =
  Some {| Group_ID := 1 + Z.of_nat i; Prefix := ""; Prefix_Bytes := 0;
          Suffix_Bytes := 12; Suffix_Count := 1; Total_Payload_Bytes := 14;
          EPCs_SF7_51B := 3; EPCs_SF12_11B := 0; Compression_pct := PyInt 0 |}.
Proof.
  intros Hrows Hg Hlen.
  destruct (group_and_analyze_rows _ _ Hrows) as [_ Hat].
  destruct (Hat i group Hg) as (r & Hr & Hrow).
  rewrite analyze_group_single in Hrow by done.
  injection Hrow as <-. exact Hr.
Qed.

Lemma three_epcs_row :
  exists compression,
    group_and_analyze ["AAAAAA000000000000000001"; "AAAAAA000000000000000002";
                       "AAAAAA000000000000000003"]%string =
    Ok [{| Group_ID := 1; Prefix := "AAAAAA00000000000000000"; Prefix_Bytes := 11;
           Suffix_Bytes := 0; Suffix_Count := 3; Total_Payload_Bytes := 13;
           EPCs_SF7_51B := 0; EPCs_SF12_11B := 0; Compression_pct := compression |}].
Proof. eexists. vm_compute. reflexivity. Qed.

(** C1, as the design document states it, fails: the row of the three EPCs
    does not report 3 prefix bytes. *)
Lemma C1_counterexample :
  ~ exists r,
      group_and_analyze ["AAAAAA000000000000000001"; "AAAAAA000000000000000002";
                         "AAAAAA000000000000000003"]%string = Ok [r]
      /\ Prefix_Bytes r = 3 /\ Suffix_Bytes r = 9 /\ Total_Payload_Bytes r = 32.
Proof.
  destruct three_epcs_row as (compression & Hrow).
  intros (r & Hr & Hp & _). rewrite Hrow in Hr. injection Hr as <-.
  cbn [Prefix_Bytes] in Hp. discriminate Hp.
Qed.

(** C1 (amended). The three EPCs AAAAAA000000000000000001, ...02 and ...03
    agree on 23 positions, so they form one group, billed with a 23-character
    prefix: 11 prefix bytes, 0 suffix bytes and 2 + 11 + 3 * 0 = 13 payload
    bytes, which is less than 36. *)
Theorem C1_three_epcs_one_group :
  let epcs := ["AAAAAA000000000000000001"; "AAAAAA000000000000000002";
               "AAAAAA000000000000000003"]%string in
  form_groups epcs = [epcs]
  /\ exists r,
      group_and_analyze epcs = Ok [r]
      /\ Prefix r = "AAAAAA00000000000000000"%string
      /\ Prefix_Bytes r = 11 /\ Suffix_Bytes r = 0 /\ Suffix_Count r = 3
      /\ Total_Payload_Bytes r = 2 + 11 + 3 * 0
      /\ Total_Payload_Bytes r < 36.
Proof.
  intros epcs. split; [vm_compute; reflexivity|].
  destruct three_epcs_row as (compression & Hrow).
  eexists. split; [exact Hrow|]. cbn. repeat split; lia.
Qed.

Lemma C2_witness :
  let epcs := ["AAAAAA000000000000000001"; "BBBBBB111111111111111111";
               "AAAAAA000000000000000002"]%string in
  form_groups epcs = Design.greedy_groups epcs
  /\ group_and_analyze epcs =
     for_each (fun '(gid, group) => analyze_group gid group)
              (enumerate 1 (Design.greedy_groups epcs)).
Proof.
  intros epcs. apply (C2_grouping_is_the_greedy_pass epcs).
  repeat constructor.
Defined.

Lemma C8_witness :
  exists rows : list row,
    rows !! 1%nat =
    Some {| Group_ID := 2; Prefix := ""; Prefix_Bytes := 0;
            Suffix_Bytes := 12; Suffix_Count := 1; Total_Payload_Bytes := 14;
            EPCs_SF7_51B := 3; EPCs_SF12_11B := 0; Compression_pct := PyInt 0 |}.
Proof.
  eexists.
  apply (C8_singleton_rows_are_fixed
           ["AAAAAA000000000000000001"; "123456789012345678901234"]%string _ 1
           ["123456789012345678901234"]%string).
  - vm_compute. reflexivity.
  - vm_compute. reflexivity.
  - reflexivity.
Defined.

End Statistics.

(** * Properties of the packet codec *)

Section Codec.

Lemma hex_character_check (c : ascii) :
  implb (char_in c "0123456789ABCDEFabcdef")
        (match hex_value c with
         | Some h => (h <? 16)%N && negb (is_space c)
                     && Ascii.eqb (upper_char (hex_digit h)) (upper_char c)
         | None => false
         end) = true.
Proof. destruct c as [[] [] [] [] [] [] [] []]; vm_compute; reflexivity. Qed.

Lemma hex_character_facts (c : ascii) :
  char_in c "0123456789ABCDEFabcdef" = true ->
  exists h, hex_value c = Some h /\ (h < 16)%N /\ is_space c = false
            /\ upper_char (hex_digit h) = upper_char c.
Proof.
  intros Hc. pose proof (hex_character_check c) as Hchk. rewrite Hc in Hchk.
  simpl in Hchk. destruct (hex_value c) as [h|]; [|done].
  apply andb_prop in Hchk as [[Hlt Hsp]%andb_prop Hup]. exists h.
  split; [done|]. split; [by apply N.ltb_lt|].
  split; [by apply negb_true_iff|by apply Ascii.eqb_eq].
Qed.

Lemma upper_char_check (c : ascii) :
  implb (char_in c "0123456789ABCDEF") (Ascii.eqb (upper_char c) c) = true.
Proof. destruct c as [[] [] [] [] [] [] [] []]; vm_compute; reflexivity. Qed.

Lemma upper_char_fixed (c : ascii) :
  char_in c "0123456789ABCDEF" = true -> upper_char c = c.
Proof.
  intros Hc. pose proof (upper_char_check c) as Hchk. rewrite Hc in Hchk.
  by apply Ascii.eqb_eq.
Qed.

Lemma byte_of_nibbles (hi lo : N) :
  (hi < 16)%N -> (lo < 16)%N ->
  exists b, Byte.of_N (16 * hi + lo) = Some b
            /\ (Byte.to_N b / 16 = hi)%N /\ (Byte.to_N b mod 16 = lo)%N.
Proof.
  intros Hhi Hlo.
  destruct (Byte.of_N (16 * hi + lo)) as [b|] eqn:Hb.
  - exists b. split; [done|]. apply Byte.to_of_N in Hb. rewrite Hb. split.
    + symmetry. apply (N.div_unique _ _ _ lo); lia.
    + symmetry. apply (N.mod_unique _ _ hi); lia.
  - apply Byte.of_N_None_iff in Hb. lia.
Qed.

(** [bytes.fromhex] on an even number of hexadecimal digits. *)
Lemma fromhex_chars_digits (k : nat) :
  forall s : list ascii,
    length s = (2 * k)%nat ->
    forallb (fun c => char_in c "0123456789ABCDEFabcdef") s = true ->
    exists bs, fromhex_chars s = Ok bs /\ length bs = k
               /\ upper (hex bs) = upper (string_of_list_ascii s).
Proof.
  induction k as [|k IH]; intros s Hlen Hhex.
  - destruct s; [|done]. by exists [].
  - destruct s as [|c [|d s]]; [done|simpl in Hlen; lia|].
    cbn [forallb] in Hhex. apply andb_prop in Hhex as [Hc Hhex].
    apply andb_prop in Hhex as [Hd Hhex].
    destruct (hex_character_facts c Hc) as (hi & Hhi & Hhi16 & Hsp & Hcu).
    destruct (hex_character_facts d Hd) as (lo & Hlo & Hlo16 & _ & Hdu).
    destruct (byte_of_nibbles hi lo Hhi16 Hlo16) as (b & Hb & Hbhi & Hblo).
    destruct (IH s ltac:(simpl in Hlen; lia) Hhex) as (bs & Hbs & Hbslen & Hup).
    exists (b :: bs). cbn [fromhex_chars]. rewrite Hsp, Hhi, Hlo, Hb, Hbs. simpl.
    split; [done|]. split; [by rewrite Hbslen|].
    by rewrite Hbhi, Hblo, Hcu, Hdu, Hup.
Qed.

Lemma length_list_ascii_of_string (s : string) :
  length (list_ascii_of_string s) = String.length s.
Proof. induction s as [|c s IH]; simpl; [done|by rewrite IH]. Qed.

Lemma fromhex_valid_epc (epc : string) :
  valid_epc epc = true ->
  exists bs, fromhex epc = Ok bs /\ length bs = 12%nat
             /\ upper (hex bs) = upper epc.
Proof.
  unfold valid_epc. intros [Hlen Hhex]%andb_prop.
  apply Nat.eqb_eq in Hlen.
  destruct (fromhex_chars_digits 12 (list_ascii_of_string epc)) as (bs & ? & ? & Hup).
  - by rewrite length_list_ascii_of_string, Hlen.
  - done.
  - exists bs. rewrite string_of_list_ascii_of_string in Hup. done.
Qed.

Lemma upper_uppercase_epc (epc : string) :
  forallb (fun c => char_in c "0123456789ABCDEF") (list_ascii_of_string epc) = true ->
  upper epc = epc.
Proof.
  induction epc as [|c epc IH]; simpl; [done|].
  intros [Hc Hrest]%andb_prop. by rewrite (upper_char_fixed c Hc), IH.
Qed.

Lemma for_each_fromhex (epcs : list string) :
  Forall (fun epc => valid_epc epc = true) epcs ->
  exists chunks, for_each fromhex epcs = Ok chunks
                 /\ Forall (fun chunk => length chunk = 12%nat) chunks
                 /\ (fun chunk => upper (hex chunk)) <$> chunks = upper <$> epcs.
Proof.
  induction 1 as [|epc epcs Hepc _ (chunks & Hchunks & Hlen & Hup)].
  - by exists [].
  - destruct (fromhex_valid_epc epc Hepc) as (bs & Hbs & Hbslen & Hbsup).
    exists (bs :: chunks). cbn [for_each]. rewrite Hbs, Hchunks. cbn [bind].
    split; [done|]. split; [by constructor|].
    rewrite !fmap_cons. by rewrite Hbsup, Hup.
Qed.

Lemma byte_of_Z_ok (z : Z) :
  0 <= z < 256 -> exists b, byte_of_Z z = Ok b /\ Z_of_byte b = z.
Proof.
  intros Hz. unfold byte_of_Z, Z_of_byte.
  destruct (Z.leb_spec 0 z); [|lia]. destruct (Z.ltb_spec z 256); [|lia]. simpl.
  destruct (Byte.of_N (Z.to_N z)) as [b|] eqn:Hb.
  - exists b. split; [done|]. apply Byte.to_of_N in Hb. rewrite Hb. lia.
  - apply Byte.of_N_None_iff in Hb. lia.
Qed.

Lemma Z_of_byte_range (b : byte) : 0 <= Z_of_byte b < 256.
Proof. unfold Z_of_byte. pose proof (Byte.to_N_bounded b). lia. Qed.

Lemma halves_reassemble (t : Z) :
  0 <= t < 65536 ->
  Z.lor (Z.shiftl (Z.shiftr t 8) 8) (Z.land t 255) = t.
Proof.
  intros Ht. apply Z.bits_inj'. intros i Hi.
  rewrite Z.lor_spec, Z.land_spec, Z.shiftl_spec by done.
  change 255 with (Z.ones 8).
  destruct (Z.lt_ge_cases i 8) as [Hlt|Hge].
  - rewrite Z.testbit_neg_r by lia. rewrite Z.ones_spec_low by lia.
    by rewrite andb_true_r.
  - rewrite Z.shiftr_spec by lia. rewrite Z.ones_spec_high by lia.
    rewrite andb_false_r, orb_false_r. f_equal. lia.
Qed.

(** The header is always produced: the three masks keep [struct.pack] in
    range. *)
Lemma create_packet_header_ok (now packet_id epc_count : Z) :
  exists b0 b1 b2 b3,
    create_packet_header now packet_id epc_count = Ok [b0; b1; b2; b3]
    /\ unpack_BBH [b0; b1; b2; b3] =
       Ok (packet_id mod 256, epc_count mod 256, now mod 65536).
Proof.
  unfold create_packet_header, pack_BBH.
  change 255 with (Z.ones 8). change 65535 with (Z.ones 16).
  rewrite !Z.land_ones by lia. change (2 ^ 8) with 256. change (2 ^ 16) with 65536.
  pose proof (Z.mod_pos_bound now 65536 ltac:(lia)) as Ht.
  pose proof (Z.mod_pos_bound packet_id 256 ltac:(lia)) as Hp.
  pose proof (Z.mod_pos_bound epc_count 256 ltac:(lia)) as Hc.
  set (t := now mod 65536) in *.
  destruct (Z.leb_spec 0 t); [|lia]. destruct (Z.ltb_spec t 65536); [|lia]. simpl.
  destruct (byte_of_Z_ok _ Hp) as (b0 & Hb0 & Hv0).
  destruct (byte_of_Z_ok _ Hc) as (b1 & Hb1 & Hv1).
  assert (Hhi : 0 <= Z.shiftr t 8 < 256).
  { rewrite Z.shiftr_div_pow2 by lia. change (2 ^ 8) with 256.
    split; [apply Z.div_pos; lia|apply Z.div_lt_upper_bound; lia]. }
  assert (Hlo : 0 <= t mod 256 < 256) by (apply Z.mod_pos_bound; lia).
  destruct (byte_of_Z_ok _ Hhi) as (b2 & Hb2 & Hv2).
  destruct (byte_of_Z_ok _ Hlo) as (b3 & Hb3 & Hv3).
  exists b0, b1, b2, b3. rewrite Hb0, Hb1, Hb2, Hb3. simpl. split; [done|].
  rewrite Hv0, Hv1, Hv2, Hv3. do 2 f_equal.
  change 256 with (2 ^ 8) at 1. rewrite <- Z.land_ones by lia.
  change (Z.ones 8) with 255. by apply halves_reassemble.
Qed.

Lemma concat_chunks_drop (chunks : list (list byte)) :
  Forall (fun chunk => length chunk = 12%nat) chunks ->
  forall k, drop (12 * k) (concat chunks) = concat (drop k chunks).
Proof.
  induction 1 as [|chunk chunks Hchunk _ IH]; intros k.
  - cbn [concat]. by rewrite !drop_nil.
  - destruct k as [|k]; [done|].
    replace (12 * S k)%nat with (length chunk + 12 * k)%nat by lia.
    cbn [concat drop]. by rewrite drop_app_add, IH.
Qed.

Lemma concat_chunks_length (chunks : list (list byte)) :
  Forall (fun chunk => length chunk = 12%nat) chunks ->
  length (concat chunks) = (12 * length chunks)%nat.
Proof.
  induction 1 as [|chunk chunks Hchunk _ IH]; [done|].
  cbn [concat length]. rewrite length_app, IH, Hchunk. lia.
Qed.

(** The [for] loop of [decode_payload] on whole 12-byte bodies. *)
Lemma decode_loop_chunks (self : calculator) (chunks : list (list byte)) :
  self.(epc_size_bytes) = 12 ->
  Forall (fun chunk => length chunk = 12%nat) chunks ->
  forall m k acc,
    (k + m <= length chunks)%nat ->
    decode_loop self (concat chunks) (map Z.of_nat (seq k m)) acc =
    acc ++ ((fun chunk => upper (hex chunk)) <$> take m (drop k chunks)).
Proof.
  intros Hsize Hchunks. induction m as [|m IH]; intros k acc Hkm.
  - cbn [seq map decode_loop]. by rewrite take_0, fmap_nil, app_nil_r.
  - cbn [seq map decode_loop]. rewrite Hsize.
    rewrite (concat_chunks_length _ Hchunks).
    destruct (Z.ltb_spec (Z.of_nat (12 * length chunks)) (Z.of_nat k * 12 + 12)); [lia|].
    rewrite IH by lia.
    destruct (drop k chunks) as [|chunk rest] eqn:Hdrop.
    { apply (f_equal length) in Hdrop. rewrite length_drop in Hdrop. simpl in Hdrop. lia. }
    assert (Hrest : drop (S k) chunks = rest).
    { replace (S k) with (k + 1)%nat by lia.
      by rewrite <- drop_drop, Hdrop. }
    assert (Hchunk : length chunk = 12%nat).
    { rewrite Forall_forall in Hchunks. apply Hchunks.
      apply (list_elem_of_lookup_2 _ k). rewrite <- (Nat.add_0_r k).
      by rewrite <- lookup_drop, Hdrop. }
    unfold slice.
    replace (Z.to_nat (Z.of_nat k * 12 + 12 - Z.of_nat k * 12)) with 12%nat by lia.
    replace (Z.to_nat (Z.of_nat k * 12)) with (12 * k)%nat by lia.
    rewrite (concat_chunks_drop _ Hchunks), Hdrop. cbn [concat].
    rewrite take_app_length' by done.
    rewrite Hrest. cbn [take]. rewrite fmap_cons.
    by rewrite <- app_assoc.
Qed.

(** Encoding then decoding: the round trip of a list of valid EPCs that
    fits the packet. *)
Lemma roundtrip (sf bw cr : Z) (payload_size : option Z) (now packet_id : Z)
    (epcs : list string) :
  let self := init sf bw cr payload_size in
  Forall (fun epc => valid_epc epc = true) epcs ->
  Z.of_nat (length epcs) <= self.(max_epcs_per_packet) ->
  exists payload,
    create_lorawan_payload self now epcs packet_id = Ok payload
    /\ length payload = (4 + 12 * length epcs)%nat
    /\ (Z.of_nat (length epcs) <= 255 ->
        decode_payload self payload =
        Ok {| EPCLoRaWANCalculator.packet_id := packet_id mod 256;
              epc_count := Z.of_nat (length epcs);
              timestamp := now mod 65536;
              EPCLoRaWANCalculator.epcs := upper <$> epcs |}).
Proof.
  intros self Hvalid Hfit. unfold create_lorawan_payload.
  destruct (Z.ltb_spec (max_epcs_per_packet self) (Z.of_nat (length epcs))); [lia|].
  destruct (create_packet_header_ok now packet_id (Z.of_nat (length epcs)))
    as (b0 & b1 & b2 & b3 & Hheader & Hunpack).
  destruct (for_each_fromhex epcs Hvalid) as (chunks & Hchunks & Hlen & Hup).
  assert (Hn : length chunks = length epcs).
  { apply (f_equal length) in Hup. by rewrite !length_fmap in Hup. }
  rewrite Hheader, Hchunks. cbn [bind].
  exists ([b0; b1; b2; b3] ++ concat chunks). split; [done|]. split.
  { rewrite length_app, (concat_chunks_length _ Hlen), Hn. done. }
  intros Hsmall. unfold decode_payload.
  rewrite length_app, (concat_chunks_length _ Hlen).
  change (header_size self) with 4.
  destruct (Z.ltb_spec (Z.of_nat (length [b0; b1; b2; b3] + 12 * length chunks)) 4);
    [simpl in *; lia|].
  change (take 4 ([b0; b1; b2; b3] ++ concat chunks)) with [b0; b1; b2; b3].
  change (drop 4 ([b0; b1; b2; b3] ++ concat chunks)) with (concat chunks).
  rewrite Hunpack. cbn [bind].
  rewrite (Z.mod_small (Z.of_nat (length epcs)) 256) by lia.
  unfold range. rewrite Nat2Z.id.
  rewrite (decode_loop_chunks self chunks eq_refl Hlen) by lia.
  rewrite drop_0, <- Hn, firstn_all. simpl. by rewrite Hup.
Qed.

(** The payload size looked up from the spreading factor leaves room for
    at least three EPCs. *)
Lemma automatic_payload_size (sf : Z) :
  _calculate_max_payload_size sf ∈ [230; 123; 59; 51].
Proof.
  unfold _calculate_max_payload_size, sf_limits. cbn [list_to_map foldr uncurry].
  repeat (rewrite lookup_insert; case_decide; [set_solver|]).
  rewrite lookup_empty. set_solver.
Qed.

Lemma automatic_capacity (sf bw cr : Z) :
  3 <= (init sf bw cr None).(max_epcs_per_packet).
Proof.
  cbn [init max_epcs_per_packet].
  pose proof (automatic_payload_size sf) as Hin.
  repeat (apply elem_of_cons in Hin as [->|Hin]; [by vm_compute|]).
  by apply elem_of_nil in Hin.
Qed.

(** C4, as the design document states it, fails on a lower-case EPC: the
    decoder returns it in upper case, not unchanged. *)
Lemma C4_counterexample :
  valid_epc "aaaaaa000000000000000001" = true
  /\ exists payload d,
      create_lorawan_payload (init 12 125 1 None) 0 ["aaaaaa000000000000000001"%string] 0
      = Ok payload
      /\ decode_payload (init 12 125 1 None) payload = Ok d
      /\ d.(epcs) = ["AAAAAA000000000000000001"%string]
      /\ d.(epcs) <> ["aaaaaa000000000000000001"%string].
Proof.
  split; [by vm_compute|]. eexists. eexists.
  split; [vm_compute; reflexivity|]. split; [vm_compute; reflexivity|].
  split; [reflexivity|discriminate].
Qed.

(** C4 (amended). For every calculator, every clock reading and all valid
    EPCs (24 hexadecimal digits of either case): when the packet has room for
    one EPC, decoding the encoding of [[epc]] with packet id 0 returns the EPC
    in upper case, hence unchanged when it is in upper case already; when it
    has room for three, decoding the encoding of three EPCs with packet id 5
    returns an EPC count of 3, the packet id 5 and the three EPCs in upper
    case, in their order.  The payload size looked up from any spreading
    factor has room for three. *)
Theorem C4_round_trip_in_upper_case (sf bw cr : Z) (payload_size : option Z)
    (now : Z) (e1 e2 e3 : string) :
  valid_epc e1 = true -> valid_epc e2 = true -> valid_epc e3 = true ->
  let self := init sf bw cr payload_size in
  (1 <= self.(max_epcs_per_packet) ->
   exists payload d,
     create_lorawan_payload self now [e1] 0 = Ok payload
     /\ decode_payload self payload = Ok d
     /\ d.(epcs) = [upper e1]
     /\ (forallb (fun c => char_in c "0123456789ABCDEF") (list_ascii_of_string e1) = true ->
         d.(epcs) = [e1]))
  /\ (3 <= self.(max_epcs_per_packet) ->
      exists payload d,
        create_lorawan_payload self now [e1; e2; e3] 5 = Ok payload
        /\ decode_payload self payload = Ok d
        /\ d.(epc_count) = 3
        /\ d.(packet_id) = 5
        /\ d.(epcs) = [upper e1; upper e2; upper e3])
  /\ (payload_size = None -> 3 <= self.(max_epcs_per_packet)).
Proof.
  intros H1 H2 H3 self. split; [|split].
  - intros Hcap.
    destruct (roundtrip sf bw cr payload_size now 0 [e1]) as (payload & Hp & _ & Hd).
    { by repeat constructor. }
    { simpl length. fold self. lia. }
    specialize (Hd ltac:(simpl; lia)).
    eexists payload, _. split; [exact Hp|]. split; [exact Hd|]. split; [done|].
    intros Hup. cbn [epcs fmap list_fmap]. by rewrite (upper_uppercase_epc e1 Hup).
  - intros Hcap.
    destruct (roundtrip sf bw cr payload_size now 5 [e1; e2; e3])
      as (payload & Hp & _ & Hd).
    { by repeat constructor. }
    { simpl length. fold self. lia. }
    specialize (Hd ltac:(simpl; lia)).
    eexists payload, _. split; [exact Hp|]. split; [exact Hd|]. done.
  - intros ->. apply automatic_capacity.
Qed.

Lemma C4_witness :
  exists payload d,
    create_lorawan_payload (init 7 125 1 None) 1700000000
      ["3034257BF7194E4000001A85"; "e280689400005013f1a2b3c4"; "000000000000000000000000"]%string 5
    = Ok payload
    /\ decode_payload (init 7 125 1 None) payload = Ok d
    /\ d.(epc_count) = 3
    /\ d.(packet_id) = 5
    /\ d.(epcs) = [upper "3034257BF7194E4000001A85"; upper "e280689400005013f1a2b3c4";
                   upper "000000000000000000000000"].
Proof.
  apply (proj1 (proj2 (C4_round_trip_in_upper_case 7 125 1 None 1700000000
           "3034257BF7194E4000001A85" "e280689400005013f1a2b3c4"
           "000000000000000000000000" eq_refl eq_refl eq_refl))).
  vm_compute. discriminate.
Defined.

(** C9. [create_lorawan_payload] raises its "Trop d'EPCs" ValueError (the
    CapacityExceeded of the design document) whenever it is given more EPCs
    than [max_epcs_per_packet]; given at most that many, all valid, it
    returns 4 + 12 * len(epcs) bytes. *)
Theorem C9_capacity_check_and_length (sf bw cr : Z) (payload_size : option Z)
    (now packet_id : Z) (epcs : list string) :
  let self := init sf bw cr payload_size in
  (self.(max_epcs_per_packet) < Z.of_nat (length epcs) ->
   create_lorawan_payload self now epcs packet_id =
   Raise (ValueError (TropDEPCs self.(max_epcs_per_packet))))
  /\ (Z.of_nat (length epcs) <= self.(max_epcs_per_packet) ->
      Forall (fun epc => valid_epc epc = true) epcs ->
      exists payload,
        create_lorawan_payload self now epcs packet_id = Ok payload
        /\ length payload = (4 + 12 * length epcs)%nat).
Proof.
  intros self. split.
  - intros Hmany. unfold create_lorawan_payload.
    by destruct (Z.ltb_spec (max_epcs_per_packet self) (Z.of_nat (length epcs))); [|lia].
  - intros Hfit Hvalid.
    destruct (roundtrip sf bw cr payload_size now packet_id epcs Hvalid Hfit)
      as (payload & Hp & Hlen & _).
    by exists payload.
Qed.

Lemma C9_witness :
  create_lorawan_payload (init 12 125 1 None) 0
    ["000000000000000000000001"; "000000000000000000000002";
     "000000000000000000000003"; "000000000000000000000004"]%string 0
  = Raise (ValueError (TropDEPCs 3))
  /\ exists payload,
      create_lorawan_payload (init 12 125 1 None) 0
        ["000000000000000000000001"; "00000000000000000000000a"]%string 0 = Ok payload
      /\ length payload = 28%nat.
Proof.
  split.
  - apply (proj1 (C9_capacity_check_and_length 12 125 1 None 0 0
             ["000000000000000000000001"; "000000000000000000000002";
              "000000000000000000000003"; "000000000000000000000004"]%string)).
    vm_compute. reflexivity.
  - apply (proj2 (C9_capacity_check_and_length 12 125 1 None 0 0
             ["000000000000000000000001"; "00000000000000000000000a"]%string)).
    + vm_compute. discriminate.
    + repeat constructor.
Defined.

End Codec.


(** * Properties of the airtime formula *)

Section Airtime.

#[local] Opaque one_unit overflow_threshold.

Lemma symbol_duration (s b : Z) :
  7 <= s <= 12 -> 1 <= b <= 500 ->
  exists ts tp,
    num_truediv (pow2 s) (PyInt (b * 1000)) = Ok (Finite ts)
    /\ 2 ^ 1062 <= ts <= 2 ^ 1086
    /\ fmul (Finite (49 * 2 ^ 1072)) (Finite ts) = Finite tp
    /\ 2 ^ 1065 <= tp <= 2 ^ 1090.
Proof.
  intros Hs Hb. unfold pow2. destruct (Z.leb_spec 0 s); [|lia].
  cbn [num_truediv]. unfold int_truediv.
  destruct (Z.eqb_spec (b * 1000) 0); [lia|].
  rewrite Z.sgn_pos, Z.abs_eq, Z.mul_1_l by lia.
  assert (H2s : 128 <= 2 ^ s <= 4096).
  { split; [change 128 with (2 ^ 7)|change 4096 with (2 ^ 12)]; apply Z.pow_le_mono_r; lia. }
  pose proof (pow2_pos 1062 ltac:(lia)) as Hp.
  destruct (rnd_range (2 ^ s * one_unit) (b * 1000) 1062 1086) as (ts & Hts & Hr);
    [lia|lia|lia| |].
  { rewrite one_unit_eq.
    replace (2 ^ 1074) with (2 ^ 1062 * 4096) by (vm_compute; reflexivity).
    replace (2 ^ 1086) with (2 ^ 1062 * 16777216) by (vm_compute; reflexivity).
    set (t := 2 ^ 1062) in *. nia. }
  cbn [fmul].
  destruct (rnd_range (49 * 2 ^ 1072 * ts) one_unit 1065 1090) as (tp & Htp & Hr');
    [apply one_unit_pos|lia|lia| |].
  { rewrite one_unit_eq.
    replace (2 ^ 1074) with (2 ^ 1062 * 4096) by (vm_compute; reflexivity).
    replace (2 ^ 1072) with (2 ^ 1062 * 1024) by (vm_compute; reflexivity).
    replace (2 ^ 1065) with (2 ^ 1062 * 8) by (vm_compute; reflexivity).
    replace (2 ^ 1090) with (2 ^ 1062 * 268435456) by (vm_compute; reflexivity).
    replace (2 ^ 1086) with (2 ^ 1062 * 16777216) in Hr by (vm_compute; reflexivity).
    set (t := 2 ^ 1062) in *. nia. }
  exists ts, tp. rewrite Hts. done.
Qed.

Lemma airtime_frame (s b c : Z) (ps : option Z) (p : Z) (r : airtime) :
  documented_radio s b c ->
  calculate_airtime_parameters (init s b c ps) p = Ok r ->
  exists ts tp q,
    num_truediv (pow2 s) (PyInt (b * 1000)) = Ok (Finite ts)
    /\ 2 ^ 1062 <= ts <= 2 ^ 1086
    /\ fmul (Finite (49 * 2 ^ 1072)) (Finite ts) = Finite tp
    /\ 2 ^ 1065 <= tp <= 2 ^ 1090
    /\ int_truediv (ceil_term_numerator s p) (4 * (s - 2)) = Ok q
    /\ r.(T_frame_ms) = PyFloat (frame_ms ts tp (c + 4) q).
Proof.
  intros (Hs & Hb & Hc) Hr.
  destruct (symbol_duration s b Hs ltac:(lia)) as (ts & tp & Hts & Hrange & Htp & Htprange).
  exists ts, tp.
  unfold calculate_airtime_parameters in Hr.
  cbn [init sf bw cr max_payload_size header_size epc_size_bytes] in Hr.
  apply bind_Ok in Hr as (T_sym & HT_sym & Hr).
  rewrite Hts in HT_sym. injection HT_sym as <-.
  apply bind_Ok in Hr as (pre & Hpre & Hr).
  assert (Hpre' : num_add (PyInt 8) (PyFloat lit_4_25) = Ok (PyFloat (Finite (49 * 2 ^ 1072))))
    by (vm_compute; reflexivity).
  rewrite Hpre' in Hpre. injection Hpre as <-.
  apply bind_Ok in Hr as (T_pream & HT_pream & Hr).
  cbn [num_mul to_float bind] in HT_pream. rewrite Htp in HT_pream.
  injection HT_pream as <-.
  apply bind_Ok in Hr as (q & Hq & Hr).
  exists q. split; [exact Hts|]. split; [exact Hrange|]. split; [exact Htp|].
  split; [exact Htprange|].
  split; [exact Hq|].
  apply bind_Ok in Hr as (scaled & Hscaled & Hr).
  apply bind_Ok in Hr as (N_payload & HN & Hr).
  apply bind_Ok in Hr as (T_payload & HT_payload & Hr).
  apply bind_Ok in Hr as (T_frame & HT_frame & Hr).
  apply bind_Ok in Hr as (per_frame & _ & Hr).
  apply bind_Ok in Hr as (frames & _ & Hr).
  apply bind_Ok in Hr as (T_sym_ms & _ & Hr).
  apply bind_Ok in Hr as (T_pream_ms & _ & Hr).
  apply bind_Ok in Hr as (T_payload_ms & _ & Hr).
  apply bind_Ok in Hr as (T_frame_ms & HT_frame_ms & Hr).
  injection Hr as <-. cbn [EPCLoRaWANCalculator.T_frame_ms].
  unfold max2 in Hscaled.
  change (num_lt (PyFloat q) (PyInt 0)) with (flt q (Finite 0)) in Hscaled.
  unfold frame_ms.
  destruct (flt q (Finite 0)).
  - injection Hscaled as <-. injection HN as <-.
    rewrite (num_mul_int_float 8) in HT_payload by lia. injection HT_payload as <-.
    injection HT_frame as <-.
    rewrite (num_mul_float_int _ 1000) in HT_frame_ms by lia.
    injection HT_frame_ms as <-. reflexivity.
  - rewrite (num_mul_float_int q (c + 4)) in Hscaled by lia. injection Hscaled as <-.
    rewrite (num_add_int_float 8) in HN by lia. injection HN as <-.
    injection HT_payload as <-. injection HT_frame as <-.
    rewrite (num_mul_float_int _ 1000) in HT_frame_ms by lia.
    injection HT_frame_ms as <-. reflexivity.
Qed.

Lemma frame_ms_mono (ts tp k : Z) (q q' : float) :
  0 < ts -> 0 < k -> fle q q' = true ->
  fle (frame_ms ts tp k q) (frame_ms ts tp k q') = true.
Proof.
  intros Hts Hk Hq. pose proof one_unit_pos as HU. unfold frame_ms.
  apply fmul_mono; [lia|]. apply fadd_mono. apply fmul_mono; [exact Hts|].
  destruct (fle_not_nan q q' Hq) as [Hq1 Hq2].
  pose proof (flt_zero_spec q' Hq2) as Hs'.
  pose proof (flt_zero_mono q q' Hq) as Hm.
  destruct (flt q' (Finite 0)) eqn:E'.
  - rewrite (Hm eq_refl). vm_compute. reflexivity.
  - destruct (flt q (Finite 0)) eqn:E.
    + rewrite <- fadd_eight_zero at 1. apply fadd_mono.
      rewrite <- (fmul_zero_l (k * one_unit)). apply fmul_mono; [nia|exact Hs'].
    + apply fadd_mono, fmul_mono; [nia|exact Hq].
Qed.

Lemma ceil_term_numerator_mono (s p1 p2 : Z) :
  p1 <= p2 -> ceil_term_numerator s p1 <= ceil_term_numerator s p2.
Proof. unfold ceil_term_numerator. lia. Qed.

Lemma frame_duration_monotone (s b c : Z) (ps : option Z) (p1 p2 : Z) (r1 r2 : airtime) :
  documented_radio s b c -> p1 <= p2 ->
  calculate_airtime_parameters (init s b c ps) p1 = Ok r1 ->
  calculate_airtime_parameters (init s b c ps) p2 = Ok r2 ->
  num_le r1.(T_frame_ms) r2.(T_frame_ms) = true.
Proof.
  intros Hradio Hp H1 H2.
  destruct (airtime_frame s b c ps p1 r1 Hradio H1) as (ts & tp & q1 & Hts & Hrange & Htp & _ & Hq1 & ->).
  destruct (airtime_frame s b c ps p2 r2 Hradio H2) as (ts' & tp' & q2 & Hts' & _ & Htp' & _ & Hq2 & ->).
  rewrite Hts in Hts'. injection Hts' as <-.
  rewrite Htp in Htp'. injection Htp' as <-.
  destruct Hradio as (Hs & _ & Hc).
  pose proof (pow2_pos 1062 ltac:(lia)).
  cbn [num_le]. apply frame_ms_mono; [lia|lia|].
  apply (int_truediv_mono (ceil_term_numerator s p1) (ceil_term_numerator s p2)
           (4 * (s - 2))); [lia| |done|done].
  by apply ceil_term_numerator_mono.
Qed.

Lemma automatic_payload_size_range (s : Z) : 51 <= _calculate_max_payload_size s <= 230.
Proof.
  pose proof (automatic_payload_size s) as Hin.
  repeat (apply elem_of_cons in Hin as [->|Hin]; [lia|]).
  by apply elem_of_nil in Hin.
Qed.

(** Every call with a documented radio and a payload size of at most 2^64
    in magnitude returns. *)
Lemma airtime_returns (s b c : Z) (ps : option Z) (p : Z) :
  documented_radio s b c ->
  match ps with Some size => Z.abs size <= 2 ^ 64 | None => True end ->
  Z.abs p <= 2 ^ 64 ->
  exists r, calculate_airtime_parameters (init s b c ps) p = Ok r.
Proof.
  intros (Hs & Hb & Hc) Hps Hp.
  destruct (symbol_duration s b Hs ltac:(lia)) as (ts & tp & Hts & Hrange & Htp).
  destruct (int_truediv_finite (ceil_term_numerator s p) (4 * (s - 2)) 65)
    as (q & Hq & _); [lia|lia|unfold ceil_term_numerator; destruct (11 <=? s); lia|].
  assert (Hmps : Z.abs ((init s b c ps).(max_payload_size) - 4) <= 2 ^ 65 * Z.abs 12).
  { cbn [init max_payload_size]. destruct ps as [size|]; [lia|].
    pose proof (automatic_payload_size_range s). lia. }
  destruct (int_truediv_finite _ 12 65 ltac:(lia) ltac:(lia) Hmps) as (per & Hper & _).
  unfold calculate_airtime_parameters.
  change (header_size (init s b c ps)) with 4.
  change (epc_size_bytes (init s b c ps)) with 12.
  change (sf (init s b c ps)) with s. change (bw (init s b c ps)) with b.
  change (cr (init s b c ps)) with c.
  fold (ceil_term_numerator s p).
  rewrite Hts. cbn [bind].
  eapply bind_returns; [vm_compute; reflexivity|].
  eapply bind_returns; [reflexivity|].
  eapply bind_returns; [exact Hq|].
  unfold max2. destruct (num_lt (PyFloat (Finite q)) (PyInt 0)).
  - eapply bind_returns; [reflexivity|].
    eapply bind_returns; [reflexivity|].
    eapply bind_returns; [apply (num_mul_int_float (8 + 0 * (c + 4))); lia|].
    eapply bind_returns; [reflexivity|].
    eapply bind_returns; [exact Hper|].
    eapply bind_returns; [reflexivity|].
    eapply bind_returns; [apply num_mul_float_int; lia|].
    eapply bind_returns; [apply num_mul_float_int; lia|].
    eapply bind_returns; [apply num_mul_float_int; lia|].
    eapply bind_returns; [apply num_mul_float_int; lia|].
    eexists. reflexivity.
  - eapply bind_returns; [apply num_mul_float_int; lia|].
    eapply bind_returns; [apply num_add_int_float; lia|].
    eapply bind_returns; [reflexivity|].
    eapply bind_returns; [reflexivity|].
    eapply bind_returns; [exact Hper|].
    eapply bind_returns; [reflexivity|].
    eapply bind_returns; [apply num_mul_float_int; lia|].
    eapply bind_returns; [apply num_mul_float_int; lia|].
    eapply bind_returns; [apply num_mul_float_int; lia|].
    eapply bind_returns; [apply num_mul_float_int; lia|].
    eexists. reflexivity.
Qed.

(** C7. For a radio with documented arguments, the frame duration
    ['T_frame_ms'] returned by [calculate_airtime_parameters] does not
    decrease when the payload size grows: whenever the calls on [p1 <= p2]
    both return, the first duration is at most the second; and the calls do
    return for all payload sizes of magnitude at most 2^64. *)
Theorem C7_frame_duration_is_monotone (sf bw cr : Z) (payload_size : option Z)
    (p1 p2 : Z) :
  documented_radio sf bw cr ->
  p1 <= p2 ->
  let self := init sf bw cr payload_size in
  (forall r1 r2,
      calculate_airtime_parameters self p1 = Ok r1 ->
      calculate_airtime_parameters self p2 = Ok r2 ->
      num_le r1.(T_frame_ms) r2.(T_frame_ms) = true)
  /\ (match payload_size with Some size => Z.abs size <= 2 ^ 64 | None => True end ->
      Z.abs p1 <= 2 ^ 64 -> Z.abs p2 <= 2 ^ 64 ->
      exists r1 r2,
        calculate_airtime_parameters self p1 = Ok r1
        /\ calculate_airtime_parameters self p2 = Ok r2).
Proof.
  intros Hradio Hp self. split.
  - intros r1 r2 H1 H2.
    exact (frame_duration_monotone sf bw cr payload_size p1 p2 r1 r2 Hradio Hp H1 H2).
  - intros Hsize Hp1 Hp2.
    destruct (airtime_returns sf bw cr payload_size p1 Hradio Hsize Hp1) as (r1 & H1).
    destruct (airtime_returns sf bw cr payload_size p2 Hradio Hsize Hp2) as (r2 & H2).
    by exists r1, r2.
Qed.

Lemma C7_witness :
  exists r1 r2,
    calculate_airtime_parameters (init 12 125 1 None) 16 = Ok r1
    /\ calculate_airtime_parameters (init 12 125 1 None) 51 = Ok r2
    /\ num_le r1.(T_frame_ms) r2.(T_frame_ms) = true.
Proof.
  assert (Hradio : documented_radio 12 125 1) by (unfold documented_radio; lia).
  destruct (proj2 (C7_frame_duration_is_monotone 12 125 1 None 16 51 Hradio ltac:(lia))
                  I ltac:(lia) ltac:(lia)) as (r1 & r2 & H1 & H2).
  exists r1, r2. split; [exact H1|]. split; [exact H2|].
  exact (proj1 (C7_frame_duration_is_monotone 12 125 1 None 16 51 Hradio ltac:(lia))
               r1 r2 H1 H2).
Defined.

End Airtime.

(** * Properties of the transmission planner *)

Section Planner.

#[local] Opaque one_unit overflow_threshold.

(** The payload sizes the planner is verified for: the one looked up from
    the spreading factor, or a given one of 16 bytes (room for one EPC) to
    2^32 bytes. *)
Lemma capacity_range (s b c : Z) (ps : option Z) :
  match ps with Some size => 16 <= size <= 2 ^ 32 | None => True end ->
  16 <= (init s b c ps).(max_payload_size) <= 2 ^ 32
  /\ 1 <= (init s b c ps).(max_epcs_per_packet) <= 2 ^ 32.
Proof.
  intros Hps. cbn [init max_payload_size max_epcs_per_packet].
  assert (Hr : 16 <= match ps with
                     | Some size => size
                     | None => _calculate_max_payload_size s
                     end <= 2 ^ 32).
  { destruct ps as [size|]; [exact Hps|].
    pose proof (automatic_payload_size_range s). lia. }
  split; [exact Hr|].
  split; [apply Z.div_le_lower_bound; lia|apply Z.div_le_upper_bound; lia].
Qed.

Lemma ceil_div_range (a m : Z) :
  0 <= a -> 1 <= m -> 0 <= (a + m - 1) / m <= a /\ (1 <= a -> 1 <= (a + m - 1) / m).
Proof.
  intros Ha Hm. repeat split.
  - apply Z.div_pos; lia.
  - apply Z.lt_succ_r, Z.div_lt_upper_bound; nia.
  - intros. apply Z.div_le_lower_bound; lia.
Qed.

(** The frame duration at the configured maximum payload size: at least
    1 ms and at most 2^63 ms. *)
Lemma frame_at_max_payload (s b c : Z) (ps : option Z) :
  documented_radio s b c ->
  match ps with Some size => 16 <= size <= 2 ^ 32 | None => True end ->
  exists params tf,
    calculate_airtime_parameters (init s b c ps) (init s b c ps).(max_payload_size)
    = Ok params
    /\ params.(T_frame_ms) = PyFloat (Finite tf)
    /\ 2 ^ 1074 <= tf <= 2 ^ 1137.
Proof.
  intros Hradio Hps. pose proof Hradio as (Hs & Hb & Hc).
  pose proof (capacity_range s b c ps Hps) as [Hmps _].
  set (mps := (init s b c ps).(max_payload_size)) in *.
  assert (Hps' : match ps with Some size => Z.abs size <= 2 ^ 64 | None => True end)
    by (destruct ps; [lia|exact I]).
  destruct (airtime_returns s b c ps mps Hradio Hps' ltac:(lia)) as (params & Hparams).
  exists params.
  destruct (airtime_frame s b c ps mps params Hradio Hparams)
    as (ts & tp & q & Hts & Htsr & Htp & Htpr & Hq & ->).
  (* the quotient of line 80 *)
  assert (Hx : 1 <= ceil_term_numerator s mps <= 2 ^ 36)
    by (unfold ceil_term_numerator; destruct (11 <=? s); lia).
  assert (Hqv : exists qv, q = Finite qv /\ 0 <= qv <= 2 ^ 1110).
  { unfold int_truediv in Hq. destruct (Z.eqb_spec (4 * (s - 2)) 0); [lia|].
    rewrite Z.sgn_pos, Z.abs_eq, Z.mul_1_l in Hq by lia.
    destruct (rnd_range0 (ceil_term_numerator s mps * one_unit) (4 * (s - 2)) 1110)
      as (qv & Hqv & Hr); [lia|lia| |].
    { rewrite one_unit_eq.
      replace (2 ^ 1110) with (2 ^ 1074 * 2 ^ 36) by (vm_compute; reflexivity).
      pose proof (pow2_pos 1074 ltac:(lia)). set (u := 2 ^ 1074) in *. nia. }
    rewrite Hqv in Hq. injection Hq as <-. by exists qv. }
  destruct Hqv as (qv & -> & Hqv).
  unfold frame_ms. cbn [flt]. destruct (Z.ltb_spec qv 0); [lia|].
  assert (HK : 0 <= (c + 4) * one_unit <= 2 ^ 1077).
  { rewrite one_unit_eq.
    replace (2 ^ 1077) with (2 ^ 1074 * 8) by (vm_compute; reflexivity).
    pose proof (pow2_pos 1074 ltac:(lia)). set (u := 2 ^ 1074) in *. nia. }
  destruct (fmul_range0 qv ((c + 4) * one_unit) 1110 1077) as (x1 & -> & Hx1);
    [lia|lia|lia|lia|lia|lia|].
  replace (1110 + 1077 - 1074) with 1113 in Hx1 by lia.
  assert (H8 : 2 ^ 1077 <= 8 * one_unit <= 2 ^ 1113).
  { rewrite one_unit_eq. split; [apply Z.eq_le_incl; vm_compute; reflexivity|].
    apply Z.leb_le. vm_compute. reflexivity. }
  destruct (fadd_range (8 * one_unit) x1 1077 1113) as (x2 & -> & Hx2); [lia|lia|lia|lia|].
  replace (1113 + 1) with 1114 in Hx2 by lia.
  destruct (fmul_range x2 ts 1077 1114 1062 1086) as (x3 & -> & Hx3);
    [lia|lia|lia|lia|lia|lia|].
  replace (1077 + 1062 - 1074) with 1065 in Hx3 by lia.
  replace (1114 + 1086 - 1074) with 1126 in Hx3 by lia.
  pose proof (pow2_le 1090 1126 ltac:(lia)). pose proof (pow2_pos 1065 ltac:(lia)).
  destruct (fadd_range tp x3 1065 1126) as (x4 & -> & Hx4); [lia|lia|lia|lia|].
  replace (1126 + 1) with 1127 in Hx4 by lia.
  assert (H1000 : 2 ^ 1083 <= 1000 * one_unit <= 2 ^ 1084).
  { rewrite one_unit_eq. split; apply Z.leb_le; vm_compute; reflexivity. }
  destruct (fmul_range x4 (1000 * one_unit) 1065 1127 1083 1084) as (x5 & -> & Hx5);
    [lia|lia|lia|lia|lia|lia|].
  replace (1065 + 1083 - 1074) with 1074 in Hx5 by lia.
  replace (1127 + 1084 - 1074) with 1137 in Hx5 by lia.
  exists x5. split; [exact Hparams|]. split; [reflexivity|exact Hx5].
Qed.

(** The planner up to the batch duration, for a batch below 2^53 EPCs. *)
Lemma plan_unfold (s b c : Z) (ps : option Z) (total : Z) :
  documented_radio s b c ->
  match ps with Some size => 16 <= size <= 2 ^ 32 | None => True end ->
  0 <= total < 2 ^ 53 ->
  let self := init s b c ps in
  let N := (total + self.(max_epcs_per_packet) - 1) / self.(max_epcs_per_packet) in
  exists frames params tf,
    num_truediv (PyInt total) (PyInt self.(max_epcs_per_packet)) = Ok frames
    /\ math_ceil frames = Ok N
    /\ calculate_airtime_parameters self self.(max_payload_size) = Ok params
    /\ params.(T_frame_ms) = PyFloat (Finite tf)
    /\ 2 ^ 1074 <= tf <= 2 ^ 1137
    /\ calculate_transmission_plan self total =
       (let T_batch := PyFloat (fmul (Finite (N * one_unit)) (Finite tf)) in
        let* lots := num_truediv (PyInt 864000) T_batch in
        let* lots_per_day := math_floor lots in
        let* seconds := num_truediv T_batch (PyInt 1000) in
        Ok {| total_epcs := total;
              frames_needed := N;
              epcs_per_frame := self.(max_epcs_per_packet);
              frame_duration_ms := PyFloat (Finite tf);
              batch_duration_ms := T_batch;
              batch_duration_s := seconds;
              max_batches_per_day := lots_per_day;
              max_epcs_per_day := lots_per_day * total;
              parameters := params |}).
Proof.
  intros Hradio Hps Htotal self N.
  pose proof (capacity_range s b c ps Hps) as [_ Hm]. fold self in Hm.
  destruct (frame_at_max_payload s b c ps Hradio Hps)
    as (params & tf & Hparams & Htf & Hrange).
  fold self in Hparams.
  destruct (int_truediv_ceil total (max_epcs_per_packet self)) as (frames & Hframes & Hceil);
    [lia|lia|].
  destruct (int_truediv_ceil 700 (max_epcs_per_packet self)) as (f700 & Hf700 & Hc700);
    [lia|lia|].
  pose proof (ceil_div_range total (max_epcs_per_packet self) ltac:(lia) ltac:(lia)) as [HN _].
  pose proof (ceil_div_range 700 (max_epcs_per_packet self) ltac:(lia) ltac:(lia)) as [HN7 _].
  fold N in Hceil, HN.
  exists frames, params, tf.
  split; [exact Hframes|]. split; [exact Hceil|]. split; [exact Hparams|].
  split; [exact Htf|]. split; [exact Hrange|].
  unfold calculate_transmission_plan.
  change (num_truediv (PyInt total) (PyInt (max_epcs_per_packet self)))
    with (int_truediv total (max_epcs_per_packet self)).
  change (num_truediv (PyInt 700) (PyInt (max_epcs_per_packet self)))
    with (int_truediv 700 (max_epcs_per_packet self)).
  rewrite (bind_eq _ _ _ Hframes), (bind_eq _ _ _ Hceil), (bind_eq _ _ _ Hparams).
  rewrite (bind_eq _ _ _ Hf700), (bind_eq _ _ _ Hc700).
  rewrite Htf.
  rewrite (bind_eq _ _ _ (num_mul_int_float
             ((700 + max_epcs_per_packet self - 1) / max_epcs_per_packet self)
             (Finite tf) ltac:(lia))).
  rewrite (bind_eq _ _ _ Hparams). cbv zeta. rewrite Htf.
  rewrite (bind_eq _ _ _ (num_mul_int_float N (Finite tf) ltac:(lia))).
  reflexivity.
Qed.

(** The planner on a batch of 1 to 2^53 - 1 EPCs. *)
Lemma plan_returns (s b c : Z) (ps : option Z) (total : Z) :
  documented_radio s b c ->
  match ps with Some size => 16 <= size <= 2 ^ 32 | None => True end ->
  1 <= total < 2 ^ 53 ->
  let self := init s b c ps in
  let N := (total + self.(max_epcs_per_packet) - 1) / self.(max_epcs_per_packet) in
  exists params tf tb lots seconds,
    calculate_airtime_parameters self self.(max_payload_size) = Ok params
    /\ params.(T_frame_ms) = PyFloat (Finite tf)
    /\ fmul (Finite (N * one_unit)) (Finite tf) = Finite tb
    /\ num_truediv (PyInt 864000) (PyFloat (Finite tb)) = Ok (Finite lots)
    /\ calculate_transmission_plan self total =
       Ok {| total_epcs := total;
             frames_needed := N;
             epcs_per_frame := self.(max_epcs_per_packet);
             frame_duration_ms := PyFloat (Finite tf);
             batch_duration_ms := PyFloat (Finite tb);
             batch_duration_s := seconds;
             max_batches_per_day := lots / one_unit;
             max_epcs_per_day := lots / one_unit * total;
             parameters := params |}.
Proof.
  intros Hradio Hps Htotal self N.
  destruct (plan_unfold s b c ps total Hradio Hps ltac:(lia))
    as (frames & params & tf & _ & _ & Hparams & Htf & Hrange & Hplan).
  fold self in Hparams, Hplan. fold N in Hplan. cbv zeta in Hplan.
  pose proof (capacity_range s b c ps Hps) as [_ Hm]. fold self in Hm.
  pose proof (ceil_div_range total (max_epcs_per_packet self) ltac:(lia) ltac:(lia))
    as [HN HN1]. fold N in HN, HN1. specialize (HN1 ltac:(lia)).
  assert (HNU : 2 ^ 1074 <= N * one_unit <= 2 ^ 1127).
  { rewrite one_unit_eq.
    replace (2 ^ 1127) with (2 ^ 53 * 2 ^ 1074) by (vm_compute; reflexivity).
    pose proof (pow2_pos 1074 ltac:(lia)). set (u := 2 ^ 1074) in *. nia. }
  destruct (fmul_range (N * one_unit) tf 1074 1127 1074 1137) as (tb & Htb & Htbr);
    [lia|lia|lia|lia|lia|lia|].
  replace (1074 + 1074 - 1074) with 1074 in Htbr by lia.
  replace (1127 + 1137 - 1074) with 1190 in Htbr by lia.
  pose proof (pow2_pos 1074 ltac:(lia)) as Hu.
  assert (Hlots : exists lots, num_truediv (PyInt 864000) (PyFloat (Finite tb)) = Ok (Finite lots)).
  { cbn [num_truediv to_float]. rewrite (of_int_exact 864000) by lia. cbn [bind].
    rewrite fdiv_pos by lia.
    destruct (rnd_range0 (864000 * one_unit * one_unit) tb 1094) as (lots & -> & _);
      [lia|lia| |by exists lots].
    rewrite one_unit_eq.
    replace (2 ^ 1094) with (1048576 * 2 ^ 1074) by (vm_compute; reflexivity).
    set (u := 2 ^ 1074) in *. nia. }
  destruct Hlots as (lots & Hlots).
  assert (Hsec : exists seconds, num_truediv (PyFloat (Finite tb)) (PyInt 1000) = Ok seconds).
  { cbn [num_truediv to_float bind]. rewrite (of_int_exact 1000) by lia. cbn [bind].
    rewrite fdiv_pos by (pose proof one_unit_pos; lia). eexists; reflexivity. }
  destruct Hsec as (seconds & Hsec).
  exists params, tf, tb, lots, seconds.
  split; [exact Hparams|]. split; [exact Htf|]. split; [exact Htb|]. split; [exact Hlots|].
  rewrite Hplan, Htb, (bind_eq _ _ _ Hlots). cbn [math_floor bind].
  rewrite (bind_eq _ _ _ Hsec). reflexivity.
Qed.

(** The planner on an empty batch. *)
Lemma plan_zero (s b c : Z) (ps : option Z) :
  documented_radio s b c ->
  match ps with Some size => 16 <= size <= 2 ^ 32 | None => True end ->
  let self := init s b c ps in
  exists frames params,
    num_truediv (PyInt 0) (PyInt self.(max_epcs_per_packet)) = Ok frames
    /\ math_ceil frames = Ok 0
    /\ calculate_airtime_parameters self self.(max_payload_size) = Ok params
    /\ num_mul (PyInt 0) params.(T_frame_ms) = Ok (PyFloat (Finite 0))
    /\ num_truediv (PyInt 864000) (PyFloat (Finite 0)) = Raise ZeroDivisionError
    /\ calculate_transmission_plan self 0 = Raise ZeroDivisionError.
Proof.
  intros Hradio Hps self.
  destruct (plan_unfold s b c ps 0 Hradio Hps ltac:(lia))
    as (frames & params & tf & Hframes & Hceil & Hparams & Htf & Hrange & Hplan).
  fold self in Hframes, Hceil, Hparams, Hplan. cbv zeta in Hplan.
  pose proof (capacity_range s b c ps Hps) as [_ Hm]. fold self in Hm.
  assert (HN : (0 + max_epcs_per_packet self - 1) / max_epcs_per_packet self = 0)
    by (apply Z.div_small; lia).
  rewrite HN in Hceil, Hplan.
  assert (Hcap : num_truediv (PyInt 864000) (PyFloat (Finite 0)) = Raise ZeroDivisionError).
  { cbn [num_truediv to_float]. rewrite (of_int_exact 864000) by lia. reflexivity. }
  exists frames, params.
  split; [exact Hframes|]. split; [exact Hceil|]. split; [exact Hparams|].
  split; [|split; [exact Hcap|]].
  - rewrite Htf, (num_mul_int_float 0) by lia.
    change (0 * one_unit) with 0. by rewrite fmul_zero_l.
  - rewrite Hplan. change (0 * one_unit) with 0. rewrite fmul_zero_l.
    by rewrite Hcap.
Qed.

(** C6, as the design document states it, fails on a batch too large for
    the float division of line 108: for 3 * 2^52 + 1 EPCs at SF12 (3 EPCs per
    frame) the planner reports 2^52 frames, one short of the ceiling. *)
Lemma C6_counterexample :
  exists p,
    calculate_transmission_plan (init 12 125 1 None) 13510798882111489 = Ok p
    /\ (init 12 125 1 None).(max_epcs_per_packet) = 3
    /\ p.(frames_needed) = 4503599627370496
    /\ ~ (3 * (p.(frames_needed) - 1) < 13510798882111489 <= 3 * p.(frames_needed)).
Proof.
  eexists. split; [vm_compute; reflexivity|]. split; [vm_compute; reflexivity|].
  split; [reflexivity|]. cbn [frames_needed]. lia.
Qed.

(** For about 2^1025 EPCs and more the float division of line 108 does not
    return at all. *)
Lemma plan_overflow :
  calculate_transmission_plan (init 12 125 1 None) (2 ^ 1030) = Raise OverflowError.
Proof. vm_compute. reflexivity. Qed.

(** C6 (amended). For every radio with documented arguments, with the
    payload size looked up from the spreading factor or given between 16 and
    2^32 bytes, and for every batch of 1 to 2^53 - 1 EPCs,
    [calculate_transmission_plan] returns a plan in which [frames_needed] is
    the ceiling of total_epcs / max_epcs_per_packet; [frame_duration_ms] is
    the ['T_frame_ms'] of [calculate_airtime_parameters] at the configured
    [max_payload_size], whatever the batch; [batch_duration_ms] is the float
    product frames_needed * frame_duration_ms; [max_batches_per_day] is the
    floor of the float quotient 864000 / batch_duration_ms; and
    [max_epcs_per_day] is max_batches_per_day * total_epcs. *)
Theorem C6_transmission_plan (sf bw cr : Z) (payload_size : option Z) (total : Z) :
  documented_radio sf bw cr ->
  match payload_size with Some size => 16 <= size <= 2 ^ 32 | None => True end ->
  1 <= total < 2 ^ 53 ->
  let self := init sf bw cr payload_size in
  exists params p,
    calculate_airtime_parameters self self.(max_payload_size) = Ok params
    /\ calculate_transmission_plan self total = Ok p
    /\ self.(max_epcs_per_packet) * (p.(frames_needed) - 1) < total
       <= self.(max_epcs_per_packet) * p.(frames_needed)
    /\ p.(frame_duration_ms) = params.(T_frame_ms)
    /\ num_mul (PyInt p.(frames_needed)) p.(frame_duration_ms) = Ok p.(batch_duration_ms)
    /\ (exists lots,
          num_truediv (PyInt 864000) p.(batch_duration_ms) = Ok lots
          /\ math_floor lots = Ok p.(max_batches_per_day))
    /\ p.(max_epcs_per_day) = p.(max_batches_per_day) * total.
Proof.
  intros Hradio Hps Htotal self.
  destruct (plan_returns sf bw cr payload_size total Hradio Hps Htotal)
    as (params & tf & tb & lots & seconds & Hparams & Htf & Htb & Hlots & Hplan).
  fold self in Hparams, Hplan, Htb.
  pose proof (capacity_range sf bw cr payload_size Hps) as [_ Hm]. fold self in Hm.
  pose proof (ceil_div_range total (max_epcs_per_packet self) ltac:(lia) ltac:(lia))
    as [HN _].
  eexists params, _. split; [exact Hparams|]. split; [exact Hplan|].
  cbn [frames_needed frame_duration_ms batch_duration_ms max_batches_per_day
       max_epcs_per_day].
  set (m := max_epcs_per_packet self) in *.
  split.
  { pose proof (Z.div_mod (total + m - 1) m ltac:(lia)) as Hdm.
    pose proof (Z.mod_pos_bound (total + m - 1) m ltac:(lia)) as Hmod.
    set (N := (total + m - 1) / m) in *. lia. }
  split; [by rewrite Htf|]. split.
  { rewrite num_mul_int_float by lia. by rewrite Htb. }
  split; [|reflexivity].
  exists (Finite lots). split; [exact Hlots|reflexivity].
Qed.

Lemma C6_witness :
  exists params p,
    calculate_airtime_parameters (init 12 125 1 None) 51 = Ok params
    /\ calculate_transmission_plan (init 12 125 1 None) 7 = Ok p
    /\ 3 * (p.(frames_needed) - 1) < 7 <= 3 * p.(frames_needed)
    /\ p.(frame_duration_ms) = params.(T_frame_ms)
    /\ num_mul (PyInt p.(frames_needed)) p.(frame_duration_ms) = Ok p.(batch_duration_ms)
    /\ (exists lots,
          num_truediv (PyInt 864000) p.(batch_duration_ms) = Ok lots
          /\ math_floor lots = Ok p.(max_batches_per_day))
    /\ p.(max_epcs_per_day) = p.(max_batches_per_day) * 7.
Proof.
  apply (C6_transmission_plan 12 125 1 None 7).
  - unfold documented_radio. lia.
  - exact I.
  - lia.
Defined.




End Planner.


(** * Invariants of the grouping pass *)

Section GroupingInvariants.

Lemma filter_all {A : Type} (P : A -> Prop) `{!forall x, Decision (P x)} (l : list A) :
  Forall P l -> filter P l = l.
Proof.
  induction 1 as [|x l Hx _ IH]; [done|].
  by rewrite filter_cons_True, IH.
Qed.

Lemma filter_none {A : Type} (P : A -> Prop) `{!forall x, Decision (P x)} (l : list A) :
  Forall (fun x => ~ P x) l -> filter P l = [].
Proof.
  induction 1 as [|x l Hx _ IH]; [done|].
  by rewrite filter_cons_False.
Qed.

Lemma form_groups_elem (epcs group : list string) (e : string) :
  group ∈ form_groups epcs -> e ∈ group -> e ∈ epcs.
Proof.
  intros Hg He. rewrite <- (form_groups_concat epcs).
  apply list_elem_of_In, in_concat. exists group.
  split; by apply list_elem_of_In.
Qed.

(** X1. The grouping keeps the input order: every group lists its members
    in the order they have in the input, and so do the bases of the
    successive groups. *)
Theorem groups_keep_the_input_order (epcs : list string) :
  Forall (fun group => group `sublist_of` epcs) (form_groups epcs)
  /\ omap head (form_groups epcs) `sublist_of` epcs.
Proof.
  apply (form_groups_ind
           (fun pool groups => Forall (fun group => group `sublist_of` pool) groups
                               /\ omap head groups `sublist_of` pool)); [done|].
  intros base rest [IHg IHb].
  pose proof (sublist_filter (fun c => ~ passes base c) rest) as Hrest.
  split.
  - constructor.
    + apply sublist_skip, sublist_filter.
    + eapply Forall_impl; [exact IHg|]. intros group Hgroup. cbn beta in Hgroup.
      apply sublist_cons. by etrans.
  - cbn [omap list_omap head]. apply sublist_skip. by etrans.
Qed.

(** No EPC of a later group passes the count test against the base of an
    earlier group. *)
Lemma later_members_fail (epcs : list string) :
  forall (j : nat) (group : list string) (m : string) (i : nat)
         (earlier : string) (others : list string),
    form_groups epcs !! j = Some group -> m ∈ group ->
    (i < j)%nat -> form_groups epcs !! i = Some (earlier :: others) ->
    common_len earlier m < min_prefix_length.
Proof.
  apply (form_groups_ind
           (fun pool groups =>
              forall j group m i earlier others,
                groups !! j = Some group -> m ∈ group ->
                (i < j)%nat -> groups !! i = Some (earlier :: others) ->
                common_len earlier m < min_prefix_length)).
  { intros j group m i earlier others Hj. done. }
  intros b rest IH j group m i earlier others Hj Hm Hij Hi.
  destruct j as [|j]; [lia|]. cbn [lookup list_lookup] in Hj.
  destruct i as [|i].
  - injection Hi as <- _.
    assert (Hin : m ∈ filter (fun c => ~ passes b c) rest).
    { eapply form_groups_elem; [|exact Hm]. by eapply list_elem_of_lookup_2. }
    apply list_elem_of_filter in Hin as [Hfail _]. unfold passes in Hfail. lia.
  - cbn [lookup list_lookup] in Hi.
    by eapply (IH j group m i earlier others Hj Hm); [lia|].
Qed.

(** X2. An EPC sits in the group of the first base it shares at least 6
    positions with: each member of a group other than its base passes the
    count test against that base, and no EPC of a later group passes it
    against the base of an earlier group. *)
Theorem members_join_the_first_base_they_match (epcs : list string)
    (j : nat) (base : string) (members : list string) (m : string) :
  form_groups epcs !! j = Some (base :: members) ->
  m ∈ base :: members ->
  (m ∈ members -> min_prefix_length <= common_len base m)
  /\ forall i earlier others,
       (i < j)%nat -> form_groups epcs !! i = Some (earlier :: others) ->
       common_len earlier m < min_prefix_length.
Proof.
  intros Hj Hm. split.
  - intros Hin. pose proof (form_groups_shape epcs) as Hshape.
    rewrite Forall_lookup in Hshape.
    destruct (Hshape _ _ Hj) as (b & ms & [= <- <-] & Hpass).
    rewrite Forall_forall in Hpass. by apply Hpass.
  - intros i earlier others Hij Hi.
    exact (later_members_fail epcs j _ m i earlier others Hj Hm Hij Hi).
Qed.

(** X3. Grouping is stable: the groups laid end to end, grouped again, give
    the same groups. *)
Theorem regrouping_the_groups_changes_nothing (epcs : list string) :
  form_groups (concat (form_groups epcs)) = form_groups epcs.
Proof.
  apply (form_groups_ind (fun pool groups => form_groups (concat groups) = groups)).
  { apply form_groups_nil. }
  intros base rest IH.
  set (R := filter (fun c => ~ passes base c) rest) in *.
  assert (Hfail : Forall (fun c => ~ passes base c) (concat (form_groups R))).
  { rewrite (form_groups_concat R). apply Forall_forall.
    intros c Hc. by apply list_elem_of_filter in Hc as [? _]. }
  cbn [concat]. rewrite <- app_comm_cons, form_groups_cons, !filter_app.
  rewrite (filter_all (passes base) (filter (passes base) rest)).
  2:{ apply Forall_forall. intros c Hc. by apply list_elem_of_filter in Hc as [? _]. }
  rewrite (filter_none (passes base) (concat (form_groups R))) by done.
  rewrite (filter_none (fun c => ~ passes base c) (filter (passes base) rest)).
  2:{ apply Forall_forall. intros c Hc. apply list_elem_of_filter in Hc as [? _]. tauto. }
  rewrite (filter_all (fun c => ~ passes base c) (concat (form_groups R))) by done.
  by rewrite app_nil_r, app_nil_l, IH.
Qed.

Lemma common_len_refl (s : string) : common_len s s = Z.of_nat (String.length s).
Proof.
  induction s as [|c s IH]; [done|].
  cbn [common_len String.length]. rewrite Ascii.eqb_refl, IH. lia.
Qed.

(** X4. Duplicates are grouped together: an EPC of at least 6 characters
    that is in one group is in no other group, however many times it occurs
    in the input. *)
Theorem duplicates_share_a_group (epcs : list string) (i j : nat)
    (first second : list string) (epc : string) :
  (6 <= String.length epc)%nat ->
  form_groups epcs !! i = Some first ->
  epc ∈ first ->
  j <> i ->
  form_groups epcs !! j = Some second ->
  epc ∉ second.
Proof.
  intros Hlong Hi Hfirst Hij Hj Hsecond.
  assert (Hearlier : forall i j first second,
             form_groups epcs !! i = Some first -> form_groups epcs !! j = Some second ->
             epc ∈ first -> epc ∈ second -> ~ (i < j)%nat).
  { clear i j first second Hi Hj Hfirst Hsecond Hij.
    intros i j first second Hi Hj Hfirst Hsecond Hij.
    pose proof (form_groups_shape epcs) as Hshape.
    rewrite Forall_lookup in Hshape.
    destruct (Hshape _ _ Hi) as (base & members & -> & Hpass).
    pose proof (later_members_fail epcs j second epc i base members Hj Hsecond Hij Hi)
      as Hfail.
    apply elem_of_cons in Hfirst as [->|Hmember].
    - rewrite common_len_refl in Hfail. unfold min_prefix_length in Hfail. lia.
    - rewrite Forall_forall in Hpass. specialize (Hpass _ Hmember).
      unfold passes in Hpass. lia. }
  pose proof (Hearlier i j first second Hi Hj Hfirst Hsecond).
  pose proof (Hearlier j i second first Hj Hi Hsecond Hfirst).
  lia.
Qed.

End GroupingInvariants.


(** * The rows of the report *)

Section Rows.

#[local] Opaque one_unit overflow_threshold.

(** Every field of the row of a group of two or more members. *)
Lemma analyze_group_fields gid group r :
  length group <> 1%nat ->
  analyze_group gid group = Ok r ->
  exists shortest ratio percent,
    min_by_len group = Ok shortest /\
    let prefix_len :=
      Z.min (Z.of_nat (String.length shortest))
            (Z.max min_prefix_length (unanimous_columns group)) in
    let n := Z.of_nat (length group) in
    Group_ID r = gid /\
    Prefix r = substring 0 (Z.to_nat prefix_len) (List.hd ""%string group) /\
    Prefix_Bytes r = prefix_len / 2 /\
    Suffix_Bytes r = (24 - prefix_len) / 2 /\
    Suffix_Count r = n /\
    Total_Payload_Bytes r = 2 + prefix_len / 2 + n * ((24 - prefix_len) / 2) /\
    EPCs_SF7_51B r =
      (if 0 <? (24 - prefix_len) / 2
       then Z.max 0 ((51 - (2 + prefix_len / 2)) / ((24 - prefix_len) / 2)) else 0) /\
    EPCs_SF12_11B r =
      (if 0 <? (24 - prefix_len) / 2
       then Z.max 0 ((11 - (2 + prefix_len / 2)) / ((24 - prefix_len) / 2)) else 0) /\
    int_truediv (n * 12 - (2 + prefix_len / 2 + n * ((24 - prefix_len) / 2))) (n * 12)
      = Ok ratio /\
    num_mul (PyFloat ratio) (PyInt 100) = Ok percent /\
    round1_num percent = Ok (Compression_pct r).
Proof.
  intros Hlen. unfold analyze_group.
  destruct (Nat.eqb_spec (length group) 1) as [|_]; [done|].
  intros (shortest & Hmin & H)%bind_Ok. exists shortest.
  apply bind_Ok in H as (ratio & Hratio & H).
  apply bind_Ok in H as (percent & Hpercent & H).
  apply bind_Ok in H as (compression & Hround & [= <-]).
  exists ratio, percent. split; [exact Hmin|]. cbv zeta.
  cbn [Group_ID Prefix Prefix_Bytes Suffix_Bytes Suffix_Count Total_Payload_Bytes
       EPCs_SF7_51B EPCs_SF12_11B Compression_pct].
  repeat (split; [reflexivity|]).
  split; [exact Hratio|]. split; [exact Hpercent|exact Hround].
Qed.

(** The billed prefix of a group of two or more members has at least 6
    characters. *)
Lemma billed_prefix_long (epcs : list string) (i : nat) (group : list string)
    (shortest : string) :
  form_groups epcs !! i = Some group ->
  length group <> 1%nat ->
  min_by_len group = Ok shortest ->
  6 <= Z.min (Z.of_nat (String.length shortest))
             (Z.max min_prefix_length (unanimous_columns group)).
Proof.
  intros Hg Hlen Hmin.
  pose proof (form_groups_shape epcs) as Hshape.
  rewrite Forall_lookup in Hshape.
  destruct (Hshape _ _ Hg) as (base & members & -> & Hpass).
  apply min_by_len_elem in Hmin.
  assert (Hn : (2 <= length (base :: members))%nat).
  { destruct members; [done|simpl; lia]. }
  pose proof (group_members_long base members shortest Hpass Hn Hmin).
  unfold min_prefix_length. lia.
Qed.

Lemma halves_of_24 (p : Z) :
  11 <= p / 2 + (24 - p) / 2 <= 12.
Proof.
  pose proof (Z.div_mod p 2 ltac:(lia)). pose proof (Z.mod_pos_bound p 2 ltac:(lia)).
  pose proof (Z.div_mod (24 - p) 2 ltac:(lia)).
  pose proof (Z.mod_pos_bound (24 - p) 2 ltac:(lia)). lia.
Qed.

(** X5. The two capacity columns.  ['EPCs_SF12_11B'] is 0 in every row: an
    11-byte payload never has room for the overhead and one suffix.  In the
    row of a group of two or more members ['EPCs_SF7_51B'] is the largest
    number of suffixes that fit in 51 bytes beside the overhead of
    2 + Prefix_Bytes, and 0 when the suffixes are empty. *)
Theorem capacity_columns (epcs : list string) (rows : list row) (r : row) :
  group_and_analyze epcs = Ok rows ->
  r ∈ rows ->
  EPCs_SF12_11B r = 0
  /\ (2 <= Suffix_Count r ->
      0 <= EPCs_SF7_51B r
      /\ (0 < Suffix_Bytes r ->
          2 + Prefix_Bytes r + EPCs_SF7_51B r * Suffix_Bytes r <= 51
          /\ 51 < 2 + Prefix_Bytes r + (EPCs_SF7_51B r + 1) * Suffix_Bytes r)
      /\ (Suffix_Bytes r <= 0 -> EPCs_SF7_51B r = 0)).
Proof.
  intros Hrows Hr.
  destruct (group_and_analyze_row_inv _ _ _ Hrows Hr) as (i & group & Hg & _ & Hrow).
  destruct (decide (length group = 1%nat)) as [Hlen|Hlen].
  { rewrite analyze_group_single in Hrow by done. injection Hrow as <-.
    cbn [EPCs_SF12_11B Suffix_Count]. split; [reflexivity|lia]. }
  destruct (analyze_group_fields _ _ _ Hlen Hrow)
    as (shortest & ratio & percent & Hmin & H).
  cbv zeta in H.
  destruct H as (_ & _ & Hpb & Hsb & _ & _ & H7 & H12 & _).
  pose proof (billed_prefix_long epcs i group shortest Hg Hlen Hmin) as Hp.
  set (p := Z.min _ _) in *.
  pose proof (halves_of_24 p) as Hhalves.
  assert (3 <= p / 2) by (apply Z.div_le_lower_bound; lia).
  rewrite <- Hpb, <- Hsb in H7, H12, Hhalves.
  set (pb := Prefix_Bytes r) in *. set (sb := Suffix_Bytes r) in *.
  split.
  - rewrite H12. destruct (Z.ltb_spec 0 sb) as [Hpos|]; [|reflexivity].
    assert ((11 - (2 + pb)) / sb < 1) by (apply Z.div_lt_upper_bound; lia).
    lia.
  - intros _. rewrite H7. destruct (Z.ltb_spec 0 sb) as [Hpos|Hneg].
    + assert (Hq : 0 <= (51 - (2 + pb)) / sb) by (apply Z.div_pos; lia).
      rewrite Z.max_r by lia.
      pose proof (Z.div_mod (51 - (2 + pb)) sb ltac:(lia)) as Hdm.
      pose proof (Z.mod_pos_bound (51 - (2 + pb)) sb Hpos) as Hmod.
      set (q := (51 - (2 + pb)) / sb) in *.
      split; [lia|]. split; [|lia]. intros _. split; nia.
    + split; [lia|]. split; [lia|]. reflexivity.
Qed.

Lemma length_substring_0 (n : nat) :
  forall s : string, (n <= String.length s)%nat ->
    String.length (substring 0 n s) = n
    /\ exists tail, s = (substring 0 n s ++ tail)%string.
Proof.
  induction n as [|n IH]; intros s Hn.
  - destruct s; simpl; (split; [reflexivity|by eexists]).
  - destruct s as [|c s]; [simpl in Hn; lia|].
    simpl in Hn. destruct (IH s ltac:(lia)) as [Hlen [tail Htail]].
    cbn [substring String.length]. split; [by rewrite Hlen|].
    exists tail. change (String c s = String c (substring 0 n s ++ tail)%string).
    f_equal. exact Htail.
Qed.

(** X6. The row of a group of two or more 24-character EPCs: the reported
    prefix is the first n characters of the group's base for some n from 6
    to 24; it is billed n // 2 bytes (3 to 12) and each suffix (24 - n) // 2
    bytes (0 to 9), so a prefix and a suffix cover 12 bytes when n is even
    and only 11 when n is odd; the payload is 2 bytes of overhead, the prefix
    and one suffix per member. *)
Theorem multi_member_row_shape (epcs : list string) (rows : list row)
    (i : nat) (base : string) (members : list string) :
  Forall (fun epc => String.length epc = 24%nat) epcs ->
  group_and_analyze epcs = Ok rows ->
  form_groups epcs !! i = Some (base :: members) ->
  members <> [] ->
  exists r n tail,
    rows !! i = Some r
    /\ 6 <= n <= 24
    /\ String.length (Prefix r) = Z.to_nat n
    /\ base = (Prefix r ++ tail)%string
    /\ Prefix_Bytes r = n / 2 /\ 3 <= Prefix_Bytes r <= 12
    /\ Suffix_Bytes r = (24 - n) / 2 /\ 0 <= Suffix_Bytes r <= 9
    /\ Prefix_Bytes r + Suffix_Bytes r = (if Z.even n then 12 else 11)
    /\ Suffix_Count r = Z.of_nat (length (base :: members))
    /\ Total_Payload_Bytes r = 2 + Prefix_Bytes r + Suffix_Count r * Suffix_Bytes r.
Proof.
  intros Hlen24 Hrows Hg Hmembers.
  destruct (group_and_analyze_rows _ _ Hrows) as [_ Hat].
  destruct (Hat i _ Hg) as (r & Hr & Hrow).
  assert (Hlen : length (base :: members) <> 1%nat).
  { destruct members; [done|simpl; lia]. }
  destruct (analyze_group_fields _ _ _ Hlen Hrow)
    as (shortest & ratio & percent & Hmin & H).
  cbv zeta in H.
  destruct H as (_ & Hprefix & Hpb & Hsb & Hcount & Htotal & _).
  pose proof (billed_prefix_long epcs i _ shortest Hg Hlen Hmin) as Hp.
  assert (Hin : forall e, e ∈ base :: members -> String.length e = 24%nat).
  { intros e He. rewrite Forall_forall in Hlen24. apply Hlen24.
    eapply form_groups_elem; [|exact He]. by eapply list_elem_of_lookup_2. }
  pose proof (Hin _ (min_by_len_elem _ _ Hmin)) as Hshort.
  rewrite Hshort in *.
  set (n := Z.min (Z.of_nat 24) _) in *.
  assert (Hn : 6 <= n <= 24) by (unfold n; lia).
  cbn [List.hd] in Hprefix.
  destruct (length_substring_0 (Z.to_nat n) base) as [Hplen [tail Htail]].
  { rewrite (Hin base) by apply list_elem_of_here. lia. }
  exists r, n, tail. rewrite Hprefix.
  split; [exact Hr|]. split; [exact Hn|]. split; [exact Hplen|].
  split; [exact Htail|].
  assert (Hpb' : 3 <= n / 2 <= 12)
    by (split; [apply Z.div_le_lower_bound|apply Z.div_le_upper_bound]; lia).
  assert (Hsb' : 0 <= (24 - n) / 2 <= 9)
    by (split; [apply Z.div_pos|apply Z.div_le_upper_bound]; lia).
  rewrite Hpb, Hsb, Hcount, Htotal.
  split; [reflexivity|]. split; [exact Hpb'|]. split; [reflexivity|].
  split; [exact Hsb'|]. split; [|split; reflexivity].
  clear Hpb Hsb Htotal Hplen Htail Hprefix Hshort Hp. clearbody n.
  pose proof (Z.div_mod n 2 ltac:(lia)). pose proof (Z.mod_pos_bound n 2 ltac:(lia)).
  pose proof (Z.div_mod (24 - n) 2 ltac:(lia)).
  pose proof (Z.mod_pos_bound (24 - n) 2 ltac:(lia)).
  destruct (Z.even n) eqn:Heven.
  - apply Z.even_spec in Heven as [k Hk]. lia.
  - assert (Hodd : Z.odd n = true) by (by rewrite <- Z.negb_even, Heven).
    apply Z.odd_spec in Hodd as [k Hk]. lia.
Qed.

(** X7. The rows follow the groups: there is one row per group, at most
    one per EPC and none only for an empty input, and the row at position
    i carries the ['Group_ID'] i + 1 and the size of the group at position
    i as its ['Suffix_Count']. *)
Theorem rows_follow_the_groups (epcs : list string) (rows : list row) :
  group_and_analyze epcs = Ok rows ->
  length rows = length (form_groups epcs)
  /\ (length rows <= length epcs)%nat
  /\ (rows = [] <-> epcs = [])
  /\ forall i r, rows !! i = Some r ->
       Group_ID r = 1 + Z.of_nat i
       /\ exists group, form_groups epcs !! i = Some group
                        /\ Suffix_Count r = Z.of_nat (length group).
Proof.
  intros Hrows.
  destruct (group_and_analyze_rows _ _ Hrows) as [Hlen Hat].
  pose proof (form_groups_shape epcs) as Hshape.
  assert (Hle : (length (form_groups epcs) <= length epcs)%nat).
  { rewrite <- (Permutation_length (form_groups_concat epcs)).
    clear -Hshape. induction Hshape as [|g gs (base & members & -> & _) _ IH]; [done|].
    cbn [concat]. rewrite length_app. simpl. lia. }
  split; [exact Hlen|]. split; [lia|]. split.
  - split.
    + intros ->. destruct epcs as [|e epcs]; [done|].
      rewrite form_groups_cons in Hlen. done.
    + intros ->. rewrite form_groups_nil in Hlen. by destruct rows.
  - intros i r Hi.
    assert (Hlt : (i < length (form_groups epcs))%nat).
    { rewrite <- Hlen. by eapply lookup_lt_Some. }
    apply lookup_lt_is_Some_2 in Hlt as [group Hg].
    destruct (Hat i group Hg) as (r' & Hr' & Hrow).
    rewrite Hi in Hr'. injection Hr' as <-.
    rewrite Forall_lookup in Hshape.
    destruct (Hshape _ _ Hg) as (base & members & -> & _).
    split; [|exists (base :: members); split; [done|by eapply analyze_group_count]].
    destruct (decide (length (base :: members) = 1%nat)) as [H1|H1].
    + rewrite analyze_group_single in Hrow by done. by injection Hrow as <-.
    + by apply analyze_group_multi in Hrow as (? & _ & ? & _).
Qed.

End Rows.


(** * The compression percentage *)

Section Compression.

#[local] Opaque one_unit overflow_threshold.

Lemma round1_Ok (n : Z) (c : float) :
  round1 (Finite n) = Ok c -> c = rnd (rhe (10 * n) one_unit * one_unit) 10.
Proof.
  unfold round1. destruct (rnd _ _) as [g|s|] eqn:E; congruence.
Qed.

Lemma round1_mono (x y cx cy : float) :
  fle x y = true -> round1 x = Ok cx -> round1 y = Ok cy -> fle cx cy = true.
Proof.
  intros Hle Hx Hy.
  destruct x as [a|s|], y as [b|t|]; try discriminate Hle.
  - apply round1_Ok in Hx as ->. apply round1_Ok in Hy as ->.
    cbn [fle] in Hle. apply Z.leb_le in Hle.
    apply rnd_mono; [lia|lia|].
    pose proof one_unit_pos as HU.
    assert (rhe (10 * a) one_unit <= rhe (10 * b) one_unit) by (apply rhe_mono; nia).
    nia.
  - injection Hy as <-. apply round1_Ok in Hx as ->.
    destruct t; [discriminate Hle|]. apply fle_pos_inf, rnd_not_nan.
  - injection Hx as <-. apply round1_Ok in Hy as ->.
    destruct s; [|discriminate Hle]. apply fle_neg_inf, rnd_not_nan.
  - injection Hx as <-. injection Hy as <-. exact Hle.
Qed.

Lemma least_compression :
  round1 (fmul (rnd one_unit 24) (Finite (100 * one_unit))) = Ok (rnd (42 * one_unit) 10).
Proof. vm_compute. reflexivity. Qed.

Lemma greatest_compression :
  round1 (fmul (rnd one_unit 1) (Finite (100 * one_unit))) = Ok (Finite (100 * one_unit)).
Proof. vm_compute. reflexivity. Qed.

Lemma saved_share (p n : Z) :
  6 <= p <= 24 -> 2 <= n ->
  let saved := n * 12 - (2 + p / 2 + n * ((24 - p) / 2)) in
  n * 12 <= 24 * saved /\ saved <= n * 12.
Proof.
  intros Hp Hn saved. subst saved.
  pose proof (halves_of_24 p) as Hh.
  assert (3 <= p / 2) by (apply Z.div_le_lower_bound; lia).
  assert (0 <= (24 - p) / 2) by (apply Z.div_pos; lia).
  set (pb := p / 2) in *. set (sb := (24 - p) / 2) in *.
  assert (n * sb <= n * (12 - pb)) by (apply Z.mul_le_mono_nonneg_l; lia).
  assert (0 <= n * sb) by (apply Z.mul_nonneg_nonneg; lia).
  assert (0 <= (n - 2) * (pb - 3)) by (apply Z.mul_nonneg_nonneg; lia).
  nia.
Qed.

(** X8. The ['Compression_%'] of the row of a group of two or more
    24-character EPCs is a float from 4.2 to 100.0: at least one byte in 24
    is saved. *)
Theorem compression_percentage_range (epcs : list string) (rows : list row) (r : row) :
  Forall (fun epc => String.length epc = 24%nat) epcs ->
  group_and_analyze epcs = Ok rows ->
  r ∈ rows ->
  2 <= Suffix_Count r ->
  exists c,
    Compression_pct r = PyFloat c
    /\ fle (rnd (42 * one_unit) 10) c = true
    /\ fle c (Finite (100 * one_unit)) = true.
Proof.
  intros Hlen24 Hrows Hr Hcount.
  destruct (group_and_analyze_row_inv _ _ _ Hrows Hr) as (i & group & Hg & _ & Hrow).
  destruct (decide (length group = 1%nat)) as [Hlen|Hlen].
  { rewrite analyze_group_single in Hrow by done. injection Hrow as <-.
    cbn [Suffix_Count] in Hcount. lia. }
  destruct (analyze_group_fields _ _ _ Hlen Hrow)
    as (shortest & ratio & percent & Hmin & H).
  cbv zeta in H.
  destruct H as (_ & _ & _ & _ & Hn & _ & _ & _ & Hratio & Hpercent & Hround).
  pose proof (billed_prefix_long epcs i group shortest Hg Hlen Hmin) as Hp.
  assert (Hshort : String.length shortest = 24%nat).
  { rewrite Forall_forall in Hlen24. apply Hlen24.
    eapply form_groups_elem; [by eapply list_elem_of_lookup_2|].
    by apply min_by_len_elem. }
  rewrite Hshort in *.
  set (p := Z.min (Z.of_nat 24) _) in *.
  assert (Hp' : 6 <= p <= 24) by (unfold p; lia). clearbody p.
  rewrite Hn in Hcount. set (n := Z.of_nat (length group)) in *. clearbody n.
  destruct (saved_share p n Hp' Hcount) as [Hlo Hhi].
  set (saved := n * 12 - (2 + p / 2 + n * ((24 - p) / 2))) in *. clearbody saved.
  pose proof one_unit_pos as HU.
  unfold int_truediv in Hratio.
  destruct (Z.eqb_spec (n * 12) 0) as [|_]; [lia|].
  rewrite Z.sgn_pos, Z.abs_eq, Z.mul_1_l in Hratio by lia.
  assert (Hr0 : fle (rnd one_unit 24) ratio = true
                /\ fle ratio (rnd one_unit 1) = true).
  { assert (ratio = rnd (saved * one_unit) (n * 12)) as ->
      by (destruct (rnd (saved * one_unit) (n * 12)); congruence).
    split; apply rnd_mono; nia. }
  destruct Hr0 as [Hr0 Hr1].
  rewrite num_mul_float_int in Hpercent by lia. injection Hpercent as <-.
  cbn [round1_num] in Hround.
  apply bind_Ok in Hround as (c & Hc & [= Hcomp]).
  exists c. split; [by rewrite <- Hcomp|]. split.
  - eapply round1_mono; [|exact least_compression|exact Hc].
    apply fmul_mono; [lia|exact Hr0].
  - eapply round1_mono; [|exact Hc|exact greatest_compression].
    apply fmul_mono; [lia|exact Hr1].
Qed.

End Compression.


(** * Properties of the loader *)

Section Loader.

(** [strip] and [lower] on the cases Python documents: tabs, spaces and
    line ends go from both ends and stay inside; only capitals change. *)
Example strip_agrees :
  strip (String "009" " Ab c " ++ String "013" (String "010" "")) = "Ab c"%string
  /\ strip "   " = ""%string
  /\ lower ".TxT" = ".txt"%string.
Proof. repeat split; vm_compute; reflexivity. Qed.

Lemma upper_hex_check (c : ascii) :
  implb (char_in c "0123456789ABCDEFabcdef")
        (char_in (upper_char c) "0123456789ABCDEF"
         && char_in (upper_char c) "0123456789ABCDEFabcdef"
         && negb (isspace c)) = true.
Proof. destruct c as [[] [] [] [] [] [] [] []]; vm_compute; reflexivity. Qed.

Lemma length_upper (s : string) : String.length (upper s) = String.length s.
Proof. induction s as [|c s IH]; simpl; [done|by rewrite IH]. Qed.

Lemma upper_valid_epc (epc : string) :
  valid_epc epc = true -> valid_epc (upper epc) = true /\ upper (upper epc) = upper epc.
Proof.
  unfold valid_epc. rewrite !andb_true_iff, length_upper.
  intros [Hlen Hall]. split.
  - split; [exact Hlen|]. clear Hlen.
    induction epc as [|c epc IH]; [done|].
    cbn [list_ascii_of_string forallb upper] in *.
    apply andb_true_iff in Hall as [Hc Hall].
    pose proof (upper_hex_check c) as Hcheck. rewrite Hc in Hcheck.
    cbn [implb] in Hcheck. rewrite !andb_true_iff in Hcheck.
    destruct Hcheck as [[_ Hup] _]. rewrite Hup. cbn [andb]. by apply IH.
  - apply upper_uppercase_epc. clear Hlen.
    induction epc as [|c epc IH]; [done|].
    cbn [list_ascii_of_string forallb upper] in *.
    apply andb_true_iff in Hall as [Hc Hall].
    pose proof (upper_hex_check c) as Hcheck. rewrite Hc in Hcheck.
    cbn [implb] in Hcheck. rewrite !andb_true_iff in Hcheck.
    destruct Hcheck as [[Hup _] _]. rewrite Hup. cbn [andb]. by apply IH.
Qed.

Lemma valid_epc_nonblank (epc : string) :
  valid_epc epc = true -> String.eqb epc "" = false.
Proof. by destruct epc. Qed.

Lemma load_lines_spec (entries : list (Z * string)) :
  forall epcs,
    load_lines entries epcs =
    (omap skipped_line entries,
     epcs ++ (upper <$> filter (fun epc => valid_epc epc = true)
                               ((fun entry => strip entry.2) <$> entries))).
Proof.
  induction entries as [|[line_num line] entries IH]; intros epcs.
  { cbn. by rewrite app_nil_r. }
  cbn [load_lines omap list_omap fmap list_fmap]. unfold skipped_line at 1. cbn [fst snd].
  destruct (valid_epc (strip line)) eqn:Hvalid.
  - rewrite (valid_epc_nonblank _ Hvalid). cbn [negb andb].
    rewrite IH, filter_cons_True by done. rewrite fmap_cons.
    by rewrite <- app_assoc.
  - rewrite andb_false_r, andb_true_r, filter_cons_False by (by rewrite Hvalid).
    destruct (negb (String.eqb (strip line) "")); by rewrite IH.
Qed.

Lemma load_rows_spec (entries : list (Z * string)) :
  forall epcs,
    load_rows entries epcs =
    (omap skipped_row entries,
     epcs ++ (upper <$> filter (fun epc => valid_epc epc = true)
                               ((fun entry => strip entry.2) <$> entries))).
Proof.
  induction entries as [|[idx cell] entries IH]; intros epcs.
  { cbn. by rewrite app_nil_r. }
  cbn [load_rows omap list_omap fmap list_fmap]. unfold skipped_row at 1. cbn [fst snd].
  destruct (valid_epc (strip cell)) eqn:Hvalid.
  - rewrite IH, filter_cons_True by done. rewrite fmap_cons.
    by rewrite <- app_assoc.
  - rewrite filter_cons_False by (by rewrite Hvalid). by rewrite IH.
Qed.

Lemma enumerate_snd {A : Type} (f : A -> string) (l : list A) :
  forall start, (fun entry : Z * A => f entry.2) <$> enumerate start l = f <$> l.
Proof.
  induction l as [|a l IH]; intros start; [done|].
  cbn [enumerate fmap list_fmap]. f_equal. apply IH.
Qed.

(** The outcomes of the dispatch on the suffix. *)
Lemma load_epcs_cases (path : file) :
  load_epcs path =
  if negb path.(file_exists) then ([], Raises FileNotFoundError)
  else if reads_text path || reads_sheet path then
    match (if reads_text path then Some path.(file_lines) else path.(sheet_column)) with
    | None => ([], Raises IndexError)
    | Some entries =>
        let out := omap (if reads_text path then skipped_line else skipped_row)
                        (enumerate 1 entries) in
        match upper <$> filter (fun epc => valid_epc epc = true) (strip <$> entries) with
        | [] => (out, Raises NoValidEPCs)
        | epcs => (out ++ [LoadedFrom (Z.of_nat (length epcs)) path.(file_name)],
                   Returns epcs)
        end
    end
  else ([], Raises UnsupportedFileFormat).
Proof.
  unfold load_epcs, finish_load, reads_sheet, reads_text. cbv zeta.
  destruct (negb (file_exists path)); [done|].
  destruct (String.eqb (lower (file_suffix path)) ".txt"
            || String.eqb (lower (file_suffix path)) ".csv").
  - cbn [orb]. rewrite load_lines_spec, app_nil_l, enumerate_snd.
    by destruct (upper <$> _).
  - cbn [orb]. destruct (String.eqb (lower (file_suffix path)) ".xlsx"); [|done].
    destruct (sheet_column path) as [column|]; [|done].
    rewrite load_rows_spec, app_nil_l, enumerate_snd.
    by destruct (upper <$> _).
Qed.

Lemma load_epcs_Returns (path : file) (out : list printed) (epcs : list string) :
  load_epcs path = (out, Returns epcs) ->
  path.(file_exists) = true
  /\ reads_text path || reads_sheet path = true
  /\ epcs = upper <$> filter (fun epc => valid_epc epc = true) (strip <$> entries_of path)
  /\ epcs <> []
  /\ out = omap (if reads_text path then skipped_line else skipped_row)
                (enumerate 1 (entries_of path))
           ++ [LoadedFrom (Z.of_nat (length epcs)) path.(file_name)]
  /\ (reads_text path = false -> path.(sheet_column) = Some (entries_of path)).
Proof.
  rewrite load_epcs_cases. unfold entries_of.
  destruct (file_exists path); [|discriminate]. cbn [negb].
  destruct (reads_text path || reads_sheet path); [|discriminate].
  destruct (reads_text path).
  - cbv zeta. destruct (upper <$> _) as [|e es] eqn:E; [discriminate|].
    intros [= <- <-]. done.
  - destruct (sheet_column path) as [column|]; [|discriminate]. cbn [default].
    cbv zeta. destruct (upper <$> _) as [|e es] eqn:E; [discriminate|].
    intros [= <- <-]. done.
Qed.

(** X9. What [load_epcs] returns is the list of the valid entries of the
    file (the lines of a text file, the first column of a sheet), each
    stripped of surrounding whitespace and put in upper case, in the order of
    the file; the list is never empty, and each EPC in it passes the
    validity test and is in upper case. *)
Theorem load_epcs_returns_the_valid_entries (path : file) (out : list printed)
    (epcs : list string) :
  load_epcs path = (out, Returns epcs) ->
  epcs = upper <$> filter (fun epc => valid_epc epc = true) (strip <$> entries_of path)
  /\ epcs <> []
  /\ Forall (fun epc => valid_epc epc = true /\ upper epc = epc) epcs.
Proof.
  intros (_ & _ & Hepcs & Hne & _)%load_epcs_Returns.
  split; [exact Hepcs|]. split; [exact Hne|].
  rewrite Hepcs. apply Forall_fmap, Forall_forall.
  intros epc [Hvalid _]%list_elem_of_filter. by apply upper_valid_epc.
Qed.

(** X10. The errors of [load_epcs], for a file that can be opened and read
    when it exists: FileNotFoundError exactly when the path does not exist;
    the "Unsupported file format" ValueError exactly when it exists and its
    suffix, in lower case, is none of .txt, .csv and .xlsx; IndexError
    exactly when it exists, its suffix in lower case is .xlsx and the frame
    read from it has no column; the "No valid EPCs" ValueError exactly when
    the lines of the text file, or the first column of the sheet, are read
    and no entry is valid once stripped. *)
Theorem load_epcs_errors (path : file) :
  ((load_epcs path).2 = Raises FileNotFoundError <-> path.(file_exists) = false)
  /\ ((load_epcs path).2 = Raises UnsupportedFileFormat <->
      path.(file_exists) = true /\ reads_text path = false /\ reads_sheet path = false)
  /\ ((load_epcs path).2 = Raises IndexError <->
      path.(file_exists) = true /\ reads_text path = false /\ reads_sheet path = true
      /\ path.(sheet_column) = None)
  /\ ((load_epcs path).2 = Raises NoValidEPCs <->
      path.(file_exists) = true
      /\ (reads_text path = true
          \/ (reads_sheet path = true /\ path.(sheet_column) <> None))
      /\ Forall (fun entry => valid_epc (strip entry) = false) (entries_of path)).
Proof.
  rewrite load_epcs_cases.
  assert (Hnone : forall entries,
             upper <$> filter (fun epc => valid_epc epc = true) (strip <$> entries) = []
             <-> Forall (fun entry => valid_epc (strip entry) = false) entries).
  { induction entries as [|entry entries IH]; [done|].
    rewrite fmap_cons. destruct (valid_epc (strip entry)) eqn:Hvalid.
    - rewrite filter_cons_True by done. rewrite fmap_cons.
      split; [discriminate|]. intros [Hentry _]%Forall_cons. congruence.
    - rewrite filter_cons_False by (by rewrite Hvalid).
      rewrite IH. split; [by constructor|by intros [_ ?]%Forall_cons]. }
  unfold entries_of.
  destruct (file_exists path); cbn [negb snd].
  2:{ split; [done|]. repeat split; try discriminate; intros [? _]; discriminate. }
  split; [split; [|discriminate]|].
  { destruct (reads_text path || reads_sheet path); [|discriminate].
    destruct (if reads_text path then _ else _) as [entries|]; [|discriminate].
    cbv zeta. by destruct (upper <$> _). }
  destruct (reads_text path) eqn:Htext; cbn [orb].
  - cbv zeta. specialize (Hnone (file_lines path)).
    destruct (upper <$> _) as [|e es] eqn:E; cbn [snd].
    + split; [split; [discriminate|intros (_ & ? & _); discriminate]|].
      split; [split; [discriminate|intros (_ & ? & _); discriminate]|].
      split; [intros _|done]. split; [done|]. split; [by left|]. by apply Hnone.
    + split; [split; [discriminate|intros (_ & ? & _); discriminate]|].
      split; [split; [discriminate|intros (_ & ? & _); discriminate]|].
      split; [discriminate|]. intros (_ & _ & H). apply Hnone in H. discriminate H.
  - destruct (reads_sheet path) eqn:Hsheet.
    2:{ split; [done|]. split; [split; [discriminate|intros (_ & _ & ? & _); discriminate]|].
        split; [discriminate|]. intros (_ & [?|[? _]] & _); discriminate. }
    destruct (sheet_column path) as [column|]; cbn [default].
    2:{ split; [split; [discriminate|intros (_ & _ & ?); discriminate]|].
        split; [done|]. split; [discriminate|].
        intros (_ & [?|[_ ?]] & _); [discriminate|done]. }
    cbv zeta. specialize (Hnone column).
    destruct (upper <$> _) as [|e es] eqn:E; cbn [snd].
    + split; [split; [discriminate|intros (_ & _ & ?); discriminate]|].
      split; [split; [discriminate|intros (_ & _ & _ & ?); discriminate]|].
      split; [intros _|done]. split; [done|]. split; [by right|]. by apply Hnone.
    + split; [split; [discriminate|intros (_ & _ & ?); discriminate]|].
      split; [split; [discriminate|intros (_ & _ & _ & ?); discriminate]|].
      split; [discriminate|]. intros (_ & _ & H). apply Hnone in H. discriminate H.
Qed.

Lemma skipped_and_loaded_lines (lines : list string) :
  forall start,
    (length (filter (fun epc => valid_epc epc = true) (strip <$> lines))
     + length (omap skipped_line (enumerate start lines))
     = length (filter (fun line => strip line <> ""%string) lines))%nat.
Proof.
  induction lines as [|line lines IH]; intros start; [done|].
  cbn [enumerate omap list_omap fmap list_fmap]. unfold skipped_line at 1. cbn [fst snd].
  specialize (IH (start + 1)).
  destruct (valid_epc (strip line)) eqn:Hvalid.
  - pose proof (valid_epc_nonblank _ Hvalid) as Hne.
    rewrite Hne. cbn [negb andb].
    rewrite filter_cons_True by done.
    rewrite (filter_cons_True (fun line => strip line <> ""%string))
      by (intros Heq; by rewrite Heq in Hne).
    cbn [length]. lia.
  - rewrite filter_cons_False by (by rewrite Hvalid). rewrite andb_true_r.
    destruct (String.eqb_spec (strip line) "") as [Heq|Hneq]; cbn [negb].
    + rewrite (filter_cons_False (fun line => strip line <> ""%string)) by tauto. lia.
    + rewrite (filter_cons_True (fun line => strip line <> ""%string)) by done.
      cbn [length]. lia.
Qed.

Lemma skipped_and_loaded_rows (cells : list string) :
  forall start,
    (length (filter (fun epc => valid_epc epc = true) (strip <$> cells))
     + length (omap skipped_row (enumerate start cells))
     = length cells)%nat.
Proof.
  induction cells as [|cell cells IH]; intros start; [done|].
  cbn [enumerate omap list_omap fmap list_fmap]. unfold skipped_row at 1. cbn [fst snd].
  specialize (IH (start + 1)).
  destruct (valid_epc (strip cell)) eqn:Hvalid.
  - rewrite filter_cons_True by done. cbn [length]. lia.
  - rewrite filter_cons_False by (by rewrite Hvalid). cbn [length]. lia.
Qed.

Lemma elem_of_enumerate {A : Type} (l : list A) (k : Z) (a : A) :
  (k, a) ∈ enumerate 1 l <-> 1 <= k /\ l !! Z.to_nat (k - 1) = Some a.
Proof.
  split.
  - intros (i & Hi)%list_elem_of_lookup_1. rewrite enumerate_lookup in Hi.
    destruct (l !! i) as [a'|] eqn:Ha; [|done]. injection Hi as <- <-.
    split; [lia|]. by replace (Z.to_nat (1 + Z.of_nat i - 1)) with i by lia.
  - intros [Hk Ha]. apply (list_elem_of_lookup_2 _ (Z.to_nat (k - 1))).
    rewrite enumerate_lookup, Ha. cbn. f_equal. f_equal. lia.
Qed.

(** X11. [load_epcs] accounts for every entry.  When it returns, its last
    message is the count of the EPCs it returns, and before it comes one
    message per skipped entry, carrying the entry's 1-based position and its
    stripped text: in a text file the skipped entries are the lines that are
    neither blank nor valid, so that the returned and the skipped make up the
    non-blank lines; in a sheet they are all the cells that are not valid,
    blank ones included. *)
Theorem load_epcs_reports_every_skipped_entry (path : file) (out : list printed)
    (epcs : list string) :
  load_epcs path = (out, Returns epcs) ->
  exists skipped,
    out = skipped ++ [LoadedFrom (Z.of_nat (length epcs)) path.(file_name)]
    /\ (reads_text path = true ->
        (length epcs + length skipped
         = length (filter (fun line => strip line <> ""%string) path.(file_lines)))%nat
        /\ forall message,
             message ∈ skipped <->
             exists k line,
               1 <= k /\ path.(file_lines) !! Z.to_nat (k - 1) = Some line
               /\ strip line <> ""%string /\ valid_epc (strip line) = false
               /\ message = SkippingLine k (strip line))
    /\ (reads_text path = false ->
        exists column,
          path.(sheet_column) = Some column
          /\ (length epcs + length skipped = length column)%nat
          /\ forall message,
               message ∈ skipped <->
               exists k cell,
                 1 <= k /\ column !! Z.to_nat (k - 1) = Some cell
                 /\ valid_epc (strip cell) = false
                 /\ message = SkippingRow k (strip cell)).
Proof.
  intros (_ & _ & Hepcs & _ & Hout & Hcolumn)%load_epcs_Returns.
  eexists. split; [exact Hout|].
  split; intros Htext;
    [|exists (entries_of path); split; [by apply Hcolumn|]; clear Hcolumn];
    unfold entries_of in *; rewrite Htext in *; (split; [rewrite Hepcs, length_fmap|]).
  - apply skipped_and_loaded_lines.
  - intros message. rewrite list_elem_of_omap. split.
    + intros ([k line] & Hin & Hmsg). apply elem_of_enumerate in Hin as [Hk Hline].
      unfold skipped_line in Hmsg. cbn [fst snd] in Hmsg.
      destruct (String.eqb_spec (strip line) "") as [|Hne]; [done|].
      destruct (valid_epc (strip line)) eqn:Hvalid; [done|].
      injection Hmsg as <-. by exists k, line.
    + intros (k & line & Hk & Hline & Hne & Hvalid & ->).
      exists (k, line). split; [by apply elem_of_enumerate|].
      unfold skipped_line. cbn [fst snd]. rewrite Hvalid.
      by destruct (String.eqb_spec (strip line) "").
  - apply skipped_and_loaded_rows.
  - intros message. rewrite list_elem_of_omap. split.
    + intros ([k cell] & Hin & Hmsg). apply elem_of_enumerate in Hin as [Hk Hcell].
      unfold skipped_row in Hmsg. cbn [fst snd] in Hmsg.
      destruct (valid_epc (strip cell)) eqn:Hvalid; [done|].
      injection Hmsg as <-. by exists k, cell.
    + intros (k & cell & Hk & Hcell & Hvalid & ->).
      exists (k, cell). split; [by apply elem_of_enumerate|].
      unfold skipped_row. cbn [fst snd]. by rewrite Hvalid.
Qed.

Lemma valid_epc_length (epc : string) :
  valid_epc epc = true -> String.length epc = 24%nat.
Proof. unfold valid_epc. intros [Hlen _]%andb_true_iff. by apply Nat.eqb_eq. Qed.

Lemma suffix_counts_sum (epcs : list string) (rows : list row) :
  group_and_analyze epcs = Ok rows ->
  foldr Z.add 0 (Suffix_Count <$> rows) = Z.of_nat (length epcs).
Proof.
  intros Hrows.
  rewrite <- (Permutation_length (form_groups_concat epcs)).
  pose proof (form_groups_shape epcs) as Hshape.
  unfold group_and_analyze in Hrows. apply for_each_Ok in Hrows.
  revert Hrows Hshape. generalize 1. revert rows.
  induction (form_groups epcs) as [|g gs IH]; intros rows start Hrows Hshape.
  - apply Forall2_nil_inv_l in Hrows as ->. done.
  - cbn [enumerate] in Hrows.
    apply Forall2_cons_inv_l in Hrows as (r & rows' & Hr & Hrows & ->).
    apply Forall_cons in Hshape as [(base & members & -> & _) Hshape].
    apply analyze_group_count in Hr; [|done].
    rewrite fmap_cons. cbn [foldr concat].
    rewrite (IH rows' (start + 1) Hrows Hshape), Hr, length_app. lia.
Qed.

(** X12. Loading and analysing compose: on the list that [load_epcs]
    returns, [group_and_analyze] always returns its rows, the groups are
    those of the greedy pass of the design document, and the
    ['Suffix_Count']s of the rows add up to the number of loaded EPCs. *)
Theorem loaded_epcs_are_always_analyzed (path : file) (out : list printed)
    (epcs : list string) :
  load_epcs path = (out, Returns epcs) ->
  form_groups epcs = Design.greedy_groups epcs
  /\ exists rows,
      group_and_analyze epcs = Ok rows
      /\ foldr Z.add 0 (Suffix_Count <$> rows) = Z.of_nat (length epcs).
Proof.
  intros (_ & _ & Hepcs & _ & _)%load_epcs_Returns.
  assert (Hlen : Forall (fun epc => String.length epc = 24%nat) epcs).
  { rewrite Hepcs. apply Forall_fmap, Forall_forall.
    intros epc [Hvalid _]%list_elem_of_filter. cbn.
    rewrite length_upper. by apply valid_epc_length. }
  split; [by apply form_groups_greedy|].
  destruct (group_and_analyze_returns epcs Hlen) as (rows & Hrows).
  exists rows. split; [exact Hrows|]. by apply suffix_counts_sum.
Qed.

Lemma lstrip_epc (epc : string) :
  valid_epc epc = true -> forall tail, lstrip (epc ++ tail) = (epc ++ tail)%string.
Proof.
  intros Hvalid tail. destruct epc as [|c epc]; [done|].
  unfold valid_epc in Hvalid. apply andb_true_iff in Hvalid as [_ Hall].
  cbn [list_ascii_of_string forallb] in Hall. apply andb_true_iff in Hall as [Hc _].
  pose proof (upper_hex_check c) as Hcheck. rewrite Hc in Hcheck.
  cbn [implb] in Hcheck. rewrite !andb_true_iff in Hcheck.
  destruct Hcheck as [_ Hspace%negb_true_iff].
  change (String c epc ++ tail)%string with (String c (epc ++ tail)%string).
  cbn [lstrip]. by rewrite Hspace.
Qed.

Lemma rstrip_newline (s : string) :
  forallb (fun c => char_in c "0123456789ABCDEFabcdef") (list_ascii_of_string s) = true ->
  rstrip (s ++ String "010" "") = s.
Proof.
  induction s as [|c s IH]; [done|].
  cbn [list_ascii_of_string forallb]. intros [Hc Hall]%andb_true_iff.
  change (String c s ++ String "010" "")%string
    with (String c (s ++ String "010" "")%string).
  cbn [rstrip]. rewrite (IH Hall).
  pose proof (upper_hex_check c) as Hcheck. rewrite Hc in Hcheck.
  cbn [implb] in Hcheck. rewrite !andb_true_iff in Hcheck.
  destruct Hcheck as [_ Hspace%negb_true_iff].
  destruct s; [by rewrite Hspace|done].
Qed.

Lemma strip_epc_line (epc : string) :
  valid_epc epc = true -> strip (epc ++ String "010" "") = epc.
Proof.
  intros Hvalid. unfold strip. rewrite (lstrip_epc epc Hvalid).
  apply rstrip_newline. unfold valid_epc in Hvalid.
  by apply andb_true_iff in Hvalid as [_ ?].
Qed.

(** X13. Loading is a normalisation: a text file that holds the EPCs
    [load_epcs] returned, one per line, loads to the same list, with nothing
    skipped. *)
Theorem reloading_the_loaded_epcs (path : file) (out : list printed)
    (epcs : list string) (name : string) :
  load_epcs path = (out, Returns epcs) ->
  load_epcs {| file_exists := true; file_suffix := ".txt"; file_name := name;
               file_lines := (fun epc => epc ++ String "010" "")%string <$> epcs;
               sheet_column := None |}
  = ([LoadedFrom (Z.of_nat (length epcs)) name], Returns epcs).
Proof.
  intros (_ & _ & Hepcs & Hne & _)%load_epcs_Returns.
  assert (Hvalid : Forall (fun epc => valid_epc epc = true /\ upper epc = epc) epcs).
  { rewrite Hepcs. apply Forall_fmap, Forall_forall.
    intros epc [Hv _]%list_elem_of_filter. by apply upper_valid_epc. }
  clear Hepcs. rewrite load_epcs_cases. cbn [file_exists negb].
  change (reads_text _) with true. cbn [orb]. cbv zeta. cbn [file_lines file_name].
  assert (Hstrip : strip <$> ((fun epc => epc ++ String "010" "")%string <$> epcs) = epcs).
  { clear Hne. induction Hvalid as [|epc epcs [Hv _] _ IH]; [done|].
    rewrite !fmap_cons, IH. f_equal. by apply strip_epc_line. }
  assert (Hskip : forall start,
             omap skipped_line
                  (enumerate start ((fun epc => epc ++ String "010" "")%string <$> epcs))
             = []).
  { clear Hne Hstrip. induction Hvalid as [|epc epcs [Hv _] _ IH]; intros start; [done|].
    rewrite fmap_cons. cbn [enumerate omap list_omap]. rewrite IH.
    unfold skipped_line. cbn [fst snd]. rewrite (strip_epc_line epc Hv), Hv.
    by rewrite andb_false_r. }
  rewrite Hstrip, Hskip, (filter_all _ epcs)
    by (eapply Forall_impl; [exact Hvalid|]; by intros epc [? _]).
  assert (Hupper : upper <$> epcs = epcs).
  { clear Hne Hstrip Hskip. induction Hvalid as [|epc epcs [_ Hu] _ IH]; [done|].
    by rewrite fmap_cons, IH, Hu. }
  rewrite Hupper. by destruct epcs.
Qed.

End Loader.


(** * Properties of the packet codec *)

Section PacketCodec.

Lemma hex_digits_check (b : byte) :
  let n := Byte.to_N b in
  let c1 := upper_char (hex_digit (n / 16)) in
  let c2 := upper_char (hex_digit (n mod 16)) in
  char_in (hex_digit (n / 16)) "0123456789ABCDEFabcdef"
  && char_in (hex_digit (n mod 16)) "0123456789ABCDEFabcdef"
  && negb (is_space c1)
  && match hex_value c1, hex_value c2 with
     | Some hi, Some lo =>
         match Byte.of_N (16 * hi + lo) with
         | Some b' => Byte.eqb b b'
         | None => false
         end
     | _, _ => false
     end = true.
Proof. destruct b; vm_compute; reflexivity. Qed.

Lemma length_hex (bs : list byte) : String.length (hex bs) = (2 * length bs)%nat.
Proof. induction bs as [|b bs IH]; [done|]. cbn [hex String.length length]. lia. Qed.

(** Twelve bytes print as a valid EPC. *)
Lemma hex_valid_epc (bs : list byte) :
  length bs = 12%nat -> valid_epc (hex bs) = true.
Proof.
  intros Hlen. unfold valid_epc. rewrite length_hex, Hlen. cbn [Nat.mul Nat.add Nat.eqb andb].
  clear Hlen. induction bs as [|b bs IH]; [done|].
  cbn [hex list_ascii_of_string forallb].
  pose proof (hex_digits_check b) as Hcheck. cbv zeta in Hcheck.
  rewrite !andb_true_iff in Hcheck. destruct Hcheck as [[[H1 H2] _] _].
  by rewrite H1, H2, IH.
Qed.

(** [bytes.fromhex] undoes [bytes.hex], also after [str.upper]. *)
Lemma fromhex_upper_hex (bs : list byte) : fromhex (upper (hex bs)) = Ok bs.
Proof.
  unfold fromhex. induction bs as [|b bs IH]; [done|].
  cbn [hex upper list_ascii_of_string fromhex_chars].
  pose proof (hex_digits_check b) as Hcheck. cbv zeta in Hcheck.
  rewrite !andb_true_iff in Hcheck. destruct Hcheck as [[_ Hspace%negb_true_iff] Hbyte].
  rewrite Hspace.
  destruct (hex_value (upper_char (hex_digit (Byte.to_N b / 16)))) as [hi|]; [|done].
  destruct (hex_value (upper_char (hex_digit (Byte.to_N b mod 16)))) as [lo|]; [|done].
  destruct (Byte.of_N (16 * hi + lo)) as [b'|]; [|done].
  apply Byte.byte_dec_bl in Hbyte as <-. by rewrite IH.
Qed.

(** The [for] loop of [decode_payload] on any bytes: it stops at the
    announced count or at the last whole 12-byte body, whichever comes
    first. *)
Lemma decode_loop_any (self : calculator) (data : list byte) :
  self.(epc_size_bytes) = 12 ->
  forall m k acc,
    decode_loop self data (map Z.of_nat (seq k m)) acc =
    acc ++ ((fun i => upper (hex (take 12 (drop (12 * i) data))))
              <$> seq k (m `min` (length data / 12 - k))).
Proof.
  intros Hsize. induction m as [|m IH]; intros k acc.
  { cbn [seq map decode_loop Nat.min fmap list_fmap]. by rewrite app_nil_r. }
  cbn [seq map decode_loop]. rewrite Hsize.
  destruct (Z.ltb_spec (Z.of_nat (length data)) (Z.of_nat k * 12 + 12)) as [Hshort|Hlong].
  - assert (Hdiv : (length data / 12 < S k)%nat)
      by (apply Nat.Div0.div_lt_upper_bound; lia).
    replace (length data / 12 - k)%nat with 0%nat by lia.
    rewrite Nat.min_0_r. cbn [seq fmap list_fmap]. by rewrite app_nil_r.
  - assert (Hdiv : (S k <= length data / 12)%nat)
      by (apply Nat.div_le_lower_bound; lia).
    rewrite IH.
    replace (S m `min` (length data / 12 - k))%nat
      with (S (m `min` (length data / 12 - S k)))%nat by lia.
    cbn [seq fmap list_fmap]. rewrite <- app_assoc. cbn [app].
    unfold slice.
    replace (Z.to_nat (Z.of_nat k * 12 + 12 - Z.of_nat k * 12)) with 12%nat by lia.
    by replace (Z.to_nat (Z.of_nat k * 12)) with (12 * k)%nat by lia.
Qed.

Lemma lor_bytes (hi lo : Z) :
  0 <= lo < 256 -> Z.lor (Z.shiftl hi 8) lo = hi * 256 + lo.
Proof.
  intros Hlo. rewrite Z.shiftl_mul_pow2 by lia. change (2 ^ 8) with 256.
  symmetry. apply Z.add_nocarry_lor.
  rewrite <- (Z.mod_small lo 256) by lia.
  change 256 with (2 ^ 8). rewrite <- Z.land_ones, <- Z.shiftl_mul_pow2 by lia.
  apply Z.bits_inj'. intros i Hi.
  rewrite !Z.land_spec, Z.bits_0.
  destruct (Z.lt_ge_cases i 8).
  - by rewrite Z.shiftl_spec_low.
  - rewrite Z.ones_spec_high by lia. by rewrite !andb_false_r.
Qed.

(** [decode_payload] on a header and any bytes after it. *)
Lemma decode_payload_bodies (sf bw cr : Z) (payload_size : option Z)
    (b0 b1 b2 b3 : byte) (data : list byte) :
  let self := init sf bw cr payload_size in
  decode_payload self (b0 :: b1 :: b2 :: b3 :: data) =
  Ok {| packet_id := Z_of_byte b0;
        epc_count := Z_of_byte b1;
        timestamp := Z_of_byte b2 * 256 + Z_of_byte b3;
        epcs := (fun i => upper (hex (take 12 (drop (12 * i) data))))
                  <$> seq 0 (Z.to_nat (Z_of_byte b1) `min` (length data / 12)) |}.
Proof.
  intros self. unfold decode_payload. change (header_size self) with 4.
  destruct (Z.ltb_spec (Z.of_nat (length (b0 :: b1 :: b2 :: b3 :: data))) 4) as [Hlt|_];
    [cbn [length] in Hlt; lia|].
  change (take 4 (b0 :: b1 :: b2 :: b3 :: data)) with [b0; b1; b2; b3].
  change (drop 4 (b0 :: b1 :: b2 :: b3 :: data)) with data.
  cbn [unpack_BBH bind].
  rewrite (lor_bytes _ _ (Z_of_byte_range b3)).
  unfold range. by rewrite (decode_loop_any self data eq_refl), app_nil_l, Nat.sub_0_r.
Qed.

(** X14. [decode_payload] on any bytes.  Fewer than 4 bytes raise the
    "Payload trop court" ValueError; otherwise the call returns: the packet
    id and the EPC count are the first two bytes, the timestamp the next two
    (big endian), and the EPCs are the whole 12-byte bodies that follow, up
    to the announced count, each printed as 24 upper-case hexadecimal digits
    (so each passes the validity test).  A short body is dropped silently and
    the announced count is returned as it came. *)
Theorem decode_payload_of_any_bytes (sf bw cr : Z) (payload_size : option Z)
    (payload : list byte) :
  let self := init sf bw cr payload_size in
  ((length payload < 4)%nat ->
   decode_payload self payload = Raise (ValueError PayloadTropCourt))
  /\ (forall b0 b1 b2 b3 data,
        payload = b0 :: b1 :: b2 :: b3 :: data ->
        exists d,
          decode_payload self payload = Ok d
          /\ d.(packet_id) = Z_of_byte b0
          /\ d.(epc_count) = Z_of_byte b1
          /\ d.(timestamp) = Z_of_byte b2 * 256 + Z_of_byte b3
          /\ length d.(epcs) = (Z.to_nat (Z_of_byte b1) `min` (length data / 12))%nat
          /\ (forall i epc, d.(epcs) !! i = Some epc ->
                epc = upper (hex (take 12 (drop (12 * i) data))))
          /\ Forall (fun epc => valid_epc epc = true /\ upper epc = epc) d.(epcs)).
Proof.
  intros self. split.
  - intros Hshort. unfold decode_payload. change (header_size self) with 4.
    by destruct (Z.ltb_spec (Z.of_nat (length payload)) 4); [|lia].
  - intros b0 b1 b2 b3 data ->. eexists. split; [apply decode_payload_bodies|].
    cbn [packet_id epc_count timestamp epcs].
    split; [reflexivity|]. split; [reflexivity|]. split; [reflexivity|].
    split; [by rewrite length_fmap, length_seq|].
    split.
    + intros i epc Hi. rewrite list_lookup_fmap in Hi.
      destruct (seq 0 _ !! i) as [j|] eqn:Hj; [|done].
      apply lookup_seq in Hj as [-> _]. by injection Hi as <-.
    + apply Forall_fmap, Forall_forall. intros i Hi%elem_of_seq. cbn.
      apply upper_valid_epc, hex_valid_epc.
      rewrite length_take, length_drop.
      assert (12 * (length data / 12) <= length data)%nat
        by (apply Nat.Div0.mul_div_le).
      lia.
Qed.

(** X15. The header wraps what it carries: for every packet id, clock
    reading and list of valid EPCs that fits the packet, decoding the payload
    returns the packet id modulo 256, the clock reading modulo 65536 and the
    number of EPCs modulo 256, and only that many of the EPCs (in upper
    case): all of them when there are at most 255, none of 256. *)
Theorem round_trip_wraps_the_header (sf bw cr : Z) (payload_size : option Z)
    (now id : Z) (sent : list string) :
  let self := init sf bw cr payload_size in
  Forall (fun epc => valid_epc epc = true) sent ->
  Z.of_nat (length sent) <= self.(max_epcs_per_packet) ->
  exists payload,
    create_lorawan_payload self now sent id = Ok payload
    /\ decode_payload self payload =
       Ok {| packet_id := id mod 256;
             epc_count := Z.of_nat (length sent) mod 256;
             timestamp := now mod 65536;
             epcs := upper <$> take (Z.to_nat (Z.of_nat (length sent) mod 256)) sent |}.
Proof.
  intros self Hvalid Hfit. unfold create_lorawan_payload.
  destruct (Z.ltb_spec (max_epcs_per_packet self) (Z.of_nat (length sent))); [lia|].
  destruct (create_packet_header_ok now id (Z.of_nat (length sent)))
    as (b0 & b1 & b2 & b3 & Hheader & Hunpack).
  destruct (for_each_fromhex sent Hvalid) as (chunks & Hchunks & Hlen & Hup).
  assert (Hn : length chunks = length sent).
  { apply (f_equal length) in Hup. by rewrite !length_fmap in Hup. }
  rewrite Hheader, Hchunks. cbn [bind].
  exists ([b0; b1; b2; b3] ++ concat chunks). split; [done|].
  unfold decode_payload.
  rewrite length_app, (concat_chunks_length _ Hlen).
  change (header_size self) with 4.
  destruct (Z.ltb_spec (Z.of_nat (length [b0; b1; b2; b3] + 12 * length chunks)) 4);
    [cbn [length] in *; lia|].
  change (take 4 ([b0; b1; b2; b3] ++ concat chunks)) with [b0; b1; b2; b3].
  change (drop 4 ([b0; b1; b2; b3] ++ concat chunks)) with (concat chunks).
  rewrite Hunpack. cbn [bind]. unfold range.
  pose proof (Z.mod_pos_bound (Z.of_nat (length sent)) 256 ltac:(lia)) as Hmod.
  pose proof (Z.mod_le (Z.of_nat (length sent)) 256 ltac:(lia) ltac:(lia)) as Hle.
  rewrite (decode_loop_chunks self chunks eq_refl Hlen) by lia.
  rewrite drop_0, app_nil_l, fmap_take, Hup, <- fmap_take. done.
Qed.

(** X16. A payload never exceeds the configured size: whenever
    [create_lorawan_payload] returns the payload of a list of valid EPCs, it
    has at most [max_payload_size] bytes. *)
Theorem payload_fits_the_configured_size (sf bw cr : Z) (payload_size : option Z)
    (now id : Z) (sent : list string) (payload : list byte) :
  let self := init sf bw cr payload_size in
  Forall (fun epc => valid_epc epc = true) sent ->
  create_lorawan_payload self now sent id = Ok payload ->
  Z.of_nat (length payload) <= self.(max_payload_size).
Proof.
  intros self Hvalid Hpayload.
  destruct (Z.le_gt_cases (Z.of_nat (length sent)) (max_epcs_per_packet self)) as [Hfit|Hmany].
  - destruct (roundtrip sf bw cr payload_size now id sent Hvalid Hfit)
      as (payload' & Hp & Hlen & _).
    fold self in Hp. rewrite Hp in Hpayload. injection Hpayload as <-.
    rewrite Hlen. cbn [self init max_epcs_per_packet max_payload_size] in *.
    set (size := match payload_size with
                 | Some p => p
                 | None => _calculate_max_payload_size sf
                 end) in *.
    pose proof (Z.mul_div_le (size - 4) 12 ltac:(lia)). lia.
  - unfold create_lorawan_payload in Hpayload.
    by destruct (Z.ltb_spec (max_epcs_per_packet self) (Z.of_nat (length sent))); [|lia].
Qed.

Lemma Ok_inj {A : Type} (a b : A) : Ok a = Ok b -> a = b.
Proof. by intros [= ->]. Qed.

Lemma byte_of_Z_of_byte (b : byte) : byte_of_Z (Z_of_byte b) = Ok b.
Proof.
  pose proof (Z_of_byte_range b) as Hb. unfold byte_of_Z.
  destruct (Z.leb_spec 0 (Z_of_byte b)); [|lia].
  destruct (Z.ltb_spec (Z_of_byte b) 256); [|lia]. cbn [andb].
  unfold Z_of_byte. by rewrite N2Z.id, Byte.of_to_N.
Qed.

(** X17. Decoding then encoding: a well-formed payload (a header whose
    count byte is the number of 12-byte bodies that follow, within the
    capacity of the packet) is rebuilt byte for byte by
    [create_lorawan_payload] from what [decode_payload] returned, at any
    clock reading that has the decoded timestamp as its low 16 bits. *)
Theorem decoding_then_encoding (sf bw cr : Z) (payload_size : option Z) (now : Z)
    (payload : list byte) (d : decoded) :
  let self := init sf bw cr payload_size in
  decode_payload self payload = Ok d ->
  Z.of_nat (length payload) = 4 + 12 * d.(epc_count) ->
  d.(epc_count) <= self.(max_epcs_per_packet) ->
  now mod 65536 = d.(timestamp) ->
  create_lorawan_payload self now d.(epcs) d.(packet_id) = Ok payload.
Proof.
  intros self Hd Hlen Hfit Hnow.
  destruct payload as [|b0 [|b1 [|b2 [|b3 data]]]];
    try (unfold decode_payload in Hd; cbn in Hd; discriminate Hd).
  pose proof (decode_payload_bodies sf bw cr payload_size b0 b1 b2 b3 data) as Hbodies.
  cbv zeta in Hbodies. fold self in Hbodies. rewrite Hbodies in Hd. clear Hbodies.
  apply Ok_inj in Hd as <-. cbn [packet_id epc_count timestamp epcs] in *.
  pose proof (Z_of_byte_range b0) as H0. pose proof (Z_of_byte_range b1) as H1.
  pose proof (Z_of_byte_range b2) as H2. pose proof (Z_of_byte_range b3) as H3.
  cbn [length] in Hlen.
  assert (Hdata : length data = (12 * Z.to_nat (Z_of_byte b1))%nat) by lia.
  set (n := Z.to_nat (Z_of_byte b1)) in *.
  assert (Hdiv : (length data / 12)%nat = n).
  { rewrite Hdata, Nat.mul_comm. by apply Nat.div_mul. }
  rewrite Hdiv, Nat.min_id.
  unfold create_lorawan_payload. rewrite length_fmap, length_seq.
  destruct (Z.ltb_spec (max_epcs_per_packet self) (Z.of_nat n)); [lia|].
  assert (Hheader : create_packet_header now (Z_of_byte b0) (Z.of_nat n)
                    = Ok [b0; b1; b2; b3]).
  { unfold create_packet_header, pack_BBH.
    change 255 with (Z.ones 8). change 65535 with (Z.ones 16).
    rewrite !Z.land_ones by lia. change (2 ^ 8) with 256. change (2 ^ 16) with 65536.
    rewrite Hnow, !Z.mod_small by lia.
    replace (Z.of_nat n) with (Z_of_byte b1) by lia.
    destruct (Z.leb_spec 0 (Z_of_byte b2 * 256 + Z_of_byte b3)); [|lia].
    destruct (Z.ltb_spec (Z_of_byte b2 * 256 + Z_of_byte b3) 65536); [|lia].
    cbn [andb]. rewrite !byte_of_Z_of_byte. cbn [bind].
    rewrite Z.shiftr_div_pow2 by lia. change (2 ^ 8) with 256.
    replace ((Z_of_byte b2 * 256 + Z_of_byte b3) / 256) with (Z_of_byte b2)
      by (apply (Z.div_unique _ _ _ (Z_of_byte b3)); lia).
    replace ((Z_of_byte b2 * 256 + Z_of_byte b3) mod 256) with (Z_of_byte b3)
      by (apply (Z.mod_unique _ _ (Z_of_byte b2)); lia).
    by rewrite !byte_of_Z_of_byte. }
  rewrite Hheader. cbn [bind].
  assert (Hbodies : forall m k,
             (12 * (k + m) <= length data)%nat ->
             exists chunks,
               for_each fromhex
                 ((fun i => upper (hex (take 12 (drop (12 * i) data)))) <$> seq k m)
               = Ok chunks
               /\ concat chunks = take (12 * m) (drop (12 * k) data)).
  { induction m as [|m IH]; intros k Hk.
    - exists []. by rewrite Nat.mul_0_r, take_0.
    - destruct (IH (S k) ltac:(lia)) as (chunks & Hchunks & Hconcat).
      exists (take 12 (drop (12 * k) data) :: chunks).
      cbn [seq fmap list_fmap for_each].
      rewrite fromhex_upper_hex, Hchunks. cbn [bind]. split; [done|].
      cbn [concat]. rewrite Hconcat.
      replace (12 * S k)%nat with (12 * k + 12)%nat by lia.
      rewrite <- drop_drop, take_take_drop. f_equal. lia. }
  destruct (Hbodies n 0%nat ltac:(lia)) as (chunks & -> & Hconcat).
  cbn [bind]. rewrite Hconcat, drop_0, <- Hdata, firstn_all. done.
Qed.

(** [bytes.fromhex] raises on a character that is neither a hexadecimal
    digit nor ASCII whitespace, wherever it stands. *)
Lemma fromhex_chars_rejects (bad : ascii) :
  hex_value bad = None -> is_space bad = false ->
  forall (n : nat) (s : list ascii),
    (length s <= n)%nat -> bad ∈ s ->
    fromhex_chars s = Raise (ValueError NonHexadecimal).
Proof.
  intros Hhex Hspace. induction n as [|n IH]; intros s Hn Hbad.
  { destruct s; [by apply elem_of_nil in Hbad|cbn [length] in Hn; lia]. }
  destruct s as [|c rest]; [by apply elem_of_nil in Hbad|].
  cbn [length] in Hn. cbn [fromhex_chars].
  destruct (is_space c) eqn:Hc.
  { apply IH; [lia|]. apply elem_of_cons in Hbad as [->|?]; [congruence|done]. }
  destruct (hex_value c) as [hi|] eqn:Hhi; [|done].
  destruct rest as [|d rest']; [done|].
  destruct (hex_value d) as [lo|] eqn:Hlo; [|done].
  destruct (Byte.of_N (16 * hi + lo)); [|done].
  rewrite (IH rest'); [done|cbn [length] in Hn; lia|].
  apply elem_of_cons in Hbad as [->|Hbad]; [congruence|].
  apply elem_of_cons in Hbad as [->|Hbad]; [congruence|done].
Qed.

Lemma fromhex_chars_raises (s : list ascii) (e : exn) :
  fromhex_chars s = Raise e -> e = ValueError NonHexadecimal.
Proof.
  remember (length s) as n eqn:Hn. revert s Hn.
  induction n as [n IH] using lt_wf_ind. intros s -> Hraise.
  destruct s as [|c rest]; [discriminate|].
  cbn [fromhex_chars] in Hraise.
  destruct (is_space c).
  { eapply (IH (length rest)); [cbn [length]; lia|reflexivity|exact Hraise]. }
  destruct (hex_value c) as [hi|]; [|congruence].
  destruct rest as [|d rest']; [congruence|].
  destruct (hex_value d) as [lo|]; [|congruence].
  destruct (Byte.of_N (16 * hi + lo)); [|congruence].
  destruct (fromhex_chars rest') as [bs|e'] eqn:Hrest; [discriminate|].
  cbn [bind] in Hraise. injection Hraise as <-.
  eapply (IH (length rest')); [cbn [length]; lia|reflexivity|exact Hrest].
Qed.

Lemma for_each_fromhex_rejects (sent : list string) (epc : string) (bad : ascii) :
  epc ∈ sent -> bad ∈ list_ascii_of_string epc ->
  hex_value bad = None -> is_space bad = false ->
  for_each fromhex sent = Raise (ValueError NonHexadecimal).
Proof.
  intros Hepc Hbad Hhex Hspace.
  induction sent as [|first sent IH]; [by apply elem_of_nil in Hepc|].
  cbn [for_each]. destruct (fromhex first) as [bs|e] eqn:Hfirst.
  - cbn [bind]. apply elem_of_cons in Hepc as [->|Hepc].
    + unfold fromhex in Hfirst.
      by rewrite (fromhex_chars_rejects bad Hhex Hspace _ _ (le_n _) Hbad) in Hfirst.
    + by rewrite (IH Hepc).
  - cbn [bind]. f_equal. by eapply fromhex_chars_raises.
Qed.

(** X18. [create_lorawan_payload] passes the error of [bytes.fromhex] on:
    a list that fits the packet and holds an EPC with a character that is
    neither a hexadecimal digit nor ASCII whitespace raises the ValueError
    of [bytes.fromhex], whatever the other EPCs are. *)
Theorem create_lorawan_payload_rejects_bad_characters (sf bw cr : Z)
    (payload_size : option Z) (now id : Z) (sent : list string)
    (epc : string) (bad : ascii) :
  let self := init sf bw cr payload_size in
  Z.of_nat (length sent) <= self.(max_epcs_per_packet) ->
  epc ∈ sent ->
  bad ∈ list_ascii_of_string epc ->
  hex_value bad = None -> is_space bad = false ->
  create_lorawan_payload self now sent id = Raise (ValueError NonHexadecimal).
Proof.
  intros self Hfit Hepc Hbad Hhex Hspace. unfold create_lorawan_payload.
  destruct (Z.ltb_spec (max_epcs_per_packet self) (Z.of_nat (length sent))); [lia|].
  destruct (create_packet_header_ok now id (Z.of_nat (length sent)))
    as (b0 & b1 & b2 & b3 & -> & _).
  cbn [bind].
  by rewrite (for_each_fromhex_rejects sent epc bad Hepc Hbad Hhex Hspace).
Qed.

End PacketCodec.


(** * Properties of the processing of a batch *)

Section Processing.

#[local] Opaque one_unit overflow_threshold.

(** [range_by] on the cases of [range(0, stop, step)]: list(range(0, 7, 3))
    is [0, 3, 6], list(range(0, 6, 3)) is [0, 3], and range(0, 0, 3) and
    range(0, 5, -2) are empty. *)
Example range_by_agrees :
  range_by 7 3 = [0; 3; 6] /\ range_by 6 3 = [0; 3]
  /\ range_by 0 3 = [] /\ range_by 5 (-2) = [] /\ range_by (-5) (-2) = [0; -2; -4].
Proof. repeat split; vm_compute; reflexivity. Qed.

Lemma hex_population_check (i : fin 16) :
  char_in (hex_population !!! i) "0123456789ABCDEF"
  && char_in (hex_population !!! i) "0123456789ABCDEFabcdef" = true.
Proof. repeat (inv_fin i; [vm_compute; reflexivity|]; intros i). inv_fin i. Qed.

Lemma length_string_of_list_ascii (l : list ascii) :
  String.length (string_of_list_ascii l) = length l.
Proof. induction l as [|c l IH]; [done|]. cbn [string_of_list_ascii String.length length]. lia. Qed.

Lemma random_choices_epc (picks : nat -> fin 16) (pos : nat) :
  let epc := string_of_list_ascii (random_choices hex_population 24 picks pos) in
  valid_epc epc = true /\ upper epc = epc.
Proof.
  intros epc.
  assert (Hall : forall set,
             (forall i, char_in (hex_population !!! i) set = true) ->
             forallb (fun c => char_in c set) (list_ascii_of_string epc) = true).
  { intros set Hset. unfold epc. rewrite list_ascii_of_string_of_list_ascii.
    unfold random_choices. induction (seq 0 24) as [|i l IH]; [done|].
    cbn [fmap list_fmap forallb]. by rewrite Hset, IH. }
  split.
  - unfold valid_epc. apply andb_true_iff. split.
    + unfold epc. rewrite length_string_of_list_ascii.
      unfold random_choices. by rewrite length_fmap, length_seq.
    + apply Hall. intros i. pose proof (hex_population_check i) as H.
      by apply andb_true_iff in H as [_ ?].
  - apply upper_uppercase_epc, Hall. intros i. pose proof (hex_population_check i) as H.
    by apply andb_true_iff in H as [? _].
Qed.

Lemma generate_loop_spec (picks : nat -> fin 16) (count : nat) :
  forall pos,
    length (generate_loop count picks pos) = count
    /\ Forall (fun epc => valid_epc epc = true /\ upper epc = epc)
              (generate_loop count picks pos).
Proof.
  induction count as [|count IH]; intros pos; [done|].
  destruct (IH (pos + 24)%nat) as [Hlen Hall]. cbn [generate_loop length].
  split; [by rewrite Hlen|]. constructor; [apply random_choices_epc|exact Hall].
Qed.

(** X19. [generate_random_epc(n)] returns n EPCs (none for a negative n),
    whatever the draws: each one passes the validity test of the loader and
    is in upper case. *)
Theorem generated_epcs_are_valid (picks : nat -> fin 16) (n : Z) :
  length (generate_random_epc picks n) = Z.to_nat n
  /\ Forall (fun epc => valid_epc epc = true /\ upper epc = epc)
            (generate_random_epc picks n).
Proof. apply generate_loop_spec. Qed.

Lemma for_each_related {A B : Type} (f : A -> pyresult B) (P : A -> B -> Prop)
    (l : list A) :
  Forall (fun a => exists b, f a = Ok b /\ P a b) l ->
  exists bs, for_each f l = Ok bs /\ Forall2 P l bs.
Proof.
  induction 1 as [|a l (b & Hb & HP) _ (bs & Hbs & HPs)]; [by exists []|].
  exists (b :: bs). cbn [for_each]. rewrite Hb, Hbs. split; [done|by constructor].
Qed.

Lemma for_each_images {A B C : Type} (h : B -> pyresult C) (F : A -> C)
    (l : list A) (bs : list B) :
  Forall2 (fun a b => h b = Ok (F a)) l bs -> for_each h bs = Ok (F <$> l).
Proof.
  induction 1 as [|a b l bs Hab _ IH]; [done|].
  cbn [for_each]. by rewrite Hab, IH.
Qed.

Lemma enumerate_map_seq {A : Type} (g : nat -> A) (count : nat) :
  forall start,
    enumerate (Z.of_nat start) (map g (seq start count))
    = (fun k => (Z.of_nat k, g k)) <$> seq start count.
Proof.
  induction count as [|count IH]; intros start; [done|].
  cbn [seq map enumerate fmap list_fmap]. f_equal.
  replace (Z.of_nat start + 1) with (Z.of_nat (S start)) by lia. apply IH.
Qed.

Lemma concat_packets {A : Type} (l : list A) (m : nat) (count : nat) :
  concat ((fun k => take m (drop (k * m) l)) <$> seq 0 count) = take (count * m) l.
Proof.
  induction count as [|count IH]; [done|].
  rewrite seq_S, fmap_app, concat_app, IH. cbn [fmap list_fmap concat Nat.add].
  rewrite app_nil_r, take_take_drop. f_equal. lia.
Qed.

(** The packets of the first loop: their number, and the packet at each
    start index. *)
Lemma packets_of (generated : list string) (m : Z) :
  1 <= m ->
  let count := Z.to_nat ((Z.of_nat (length generated) + m - 1) / m) in
  enumerate 0 (range_by (Z.of_nat (length generated)) m)
  = (fun k => (Z.of_nat k, Z.of_nat k * m)) <$> seq 0 count
  /\ concat ((fun k => slice (Z.of_nat k * m) (Z.of_nat k * m + m) generated)
               <$> seq 0 count) = generated.
Proof.
  intros Hm count. split.
  - unfold range_by. destruct (Z.ltb_spec 0 m); [|lia].
    apply (enumerate_map_seq (fun k => Z.of_nat k * m) count 0).
  - assert (Hslice : forall k : nat,
               slice (Z.of_nat k * m) (Z.of_nat k * m + m) generated
               = take (Z.to_nat m) (drop (k * Z.to_nat m) generated)).
    { intros k. unfold slice. f_equal; [f_equal; lia|]. f_equal. nia. }
    rewrite (list_fmap_ext _ (fun k => take (Z.to_nat m) (drop (k * Z.to_nat m) generated))
               (seq 0 count)) by (intros i k _; apply Hslice).
    rewrite concat_packets. apply take_ge.
    pose proof (Z.div_mod (Z.of_nat (length generated) + m - 1) m ltac:(lia)) as Hdm.
    pose proof (Z.mod_pos_bound (Z.of_nat (length generated) + m - 1) m ltac:(lia)) as Hmod.
    assert (0 <= (Z.of_nat (length generated) + m - 1) / m) by (apply Z.div_pos; lia).
    unfold count. nia.
Qed.

Lemma small_capacity (s b c : Z) (ps : option Z) :
  match ps with Some size => 16 <= size <= 3075 | None => True end ->
  1 <= (init s b c ps).(max_epcs_per_packet) <= 255
  /\ 4 + 12 * (init s b c ps).(max_epcs_per_packet) <= (init s b c ps).(max_payload_size)
  /\ (init s b c ps).(max_payload_size) <= 3075.
Proof.
  intros Hps. cbn [init max_epcs_per_packet max_payload_size].
  set (size := match ps with Some p => p | None => _calculate_max_payload_size s end).
  assert (Hsize : 16 <= size <= 3075).
  { unfold size. destruct ps as [p|]; [exact Hps|].
    pose proof (automatic_payload_size_range s). lia. }
  pose proof (Z.mul_div_le (size - 4) 12 ltac:(lia)).
  split; [|lia].
  split; [apply Z.div_le_lower_bound; lia|].
  assert ((size - 4) / 12 < 256) by (apply Z.div_lt_upper_bound; lia). lia.
Qed.

(** One iteration of the first loop, and the decoding of its payload. *)
Lemma build_payload_packet (s b c : Z) (ps : option Z) (clock : Z -> Z)
    (generated : list string) (k : nat) :
  documented_radio s b c ->
  match ps with Some size => 16 <= size <= 3075 | None => True end ->
  Forall (fun epc => valid_epc epc = true /\ upper epc = epc) generated ->
  let self := init s b c ps in
  let i := Z.of_nat k * self.(max_epcs_per_packet) in
  let packet := slice i (i + self.(max_epcs_per_packet)) generated in
  exists detail,
    build_payload self clock generated (Z.of_nat k, i) = Ok detail
    /\ Z.of_nat (length detail.(detail_payload)) <= self.(max_payload_size)
    /\ decode_payload self detail.(detail_payload) =
       Ok {| packet_id := Z.of_nat k mod 256;
             epc_count := Z.of_nat (length packet);
             timestamp := clock (Z.of_nat k) mod 65536;
             epcs := packet |}.
Proof.
  intros Hradio Hps Hgenerated self i packet.
  destruct (small_capacity s b c ps Hps) as (Hm & Hroom & Hsize). fold self in Hm, Hroom, Hsize.
  set (m := max_epcs_per_packet self) in *.
  assert (Hpacket : Forall (fun epc => valid_epc epc = true /\ upper epc = epc) packet).
  { unfold packet, slice. by apply Forall_take, Forall_drop. }
  assert (Hlen : Z.of_nat (length packet) <= m).
  { unfold packet, slice. rewrite length_take. lia. }
  destruct (roundtrip s b c ps (clock (Z.of_nat k)) (i / m) packet)
    as (payload & Hpayload & Hbytes & Hdecode).
  { eapply Forall_impl; [exact Hpacket|]. by intros epc [? _]. }
  { exact Hlen. }
  fold self in Hpayload, Hdecode. specialize (Hdecode ltac:(lia)).
  destruct (airtime_returns s b c ps (Z.of_nat (length payload)) Hradio) as (params & Hparams).
  { destruct ps as [size|]; [|exact I]. lia. }
  { lia. }
  fold self in Hparams.
  exists {| detail_payload := payload; detail_epcs := packet; detail_params := params |}.
  unfold build_payload. fold m. fold i. fold packet.
  rewrite Hpayload. cbn [bind]. rewrite Hparams. cbn [bind detail_payload].
  split; [reflexivity|]. split; [lia|].
  rewrite Hdecode. do 2 f_equal.
  - unfold i. by rewrite Z.div_mul by lia.
  - clear -Hpacket. induction Hpacket as [|epc l [_ Hupper] _ IH]; [done|].
    by rewrite fmap_cons, Hupper, IH.
Qed.

(** X20. [process_epcs] sends every EPC.  For a radio with documented
    arguments, a payload size looked up from the spreading factor or given
    between 16 and 3075 bytes (1 to 255 EPCs per packet) and a batch of 1
    to 2^53 - 1 EPCs, whatever the draws and the clock: the call returns;
    the number of payloads it builds is the [frames_needed] of its plan, the
    plan of [calculate_transmission_plan]; no payload exceeds
    [max_payload_size]; the decodings it shows, laid end to end, are the
    generated EPCs in their order; and the k-th payload (from 0) carries the
    packet id k modulo 256 and the low 16 bits of the clock read at its
    encoding. *)
Theorem process_epcs_sends_every_epc (sf bw cr : Z) (payload_size : option Z)
    (picks : nat -> fin 16) (clock : Z -> Z) (epc_count : Z) :
  documented_radio sf bw cr ->
  match payload_size with Some size => 16 <= size <= 3075 | None => True end ->
  1 <= epc_count < 2 ^ 53 ->
  let self := init sf bw cr payload_size in
  exists shown result,
    process_epcs self picks clock epc_count = Processed shown result
    /\ result.(processed_epcs) = generate_random_epc picks epc_count
    /\ Z.of_nat (length result.(processed_epcs)) = epc_count
    /\ calculate_transmission_plan self epc_count = Ok result.(transmission_plan)
    /\ Z.of_nat (length result.(payloads)) = result.(transmission_plan).(frames_needed)
    /\ Forall (fun payload => Z.of_nat (length payload) <= self.(max_payload_size))
              result.(payloads)
    /\ concat (epcs <$> shown) = result.(processed_epcs)
    /\ forall (k : nat) (d : decoded),
         shown !! k = Some d ->
         d.(packet_id) = Z.of_nat k mod 256
         /\ d.(timestamp) = clock (Z.of_nat k) mod 65536.
Proof.
  intros Hradio Hps Hcount self.
  destruct (generate_loop_spec picks (Z.to_nat epc_count) 0) as [Hlen Hvalid].
  fold (generate_random_epc picks epc_count) in Hlen, Hvalid.
  destruct (small_capacity sf bw cr payload_size Hps) as (Hm & _ & _). fold self in Hm.
  assert (Hps' : match payload_size with
                 | Some size => 16 <= size <= 2 ^ 32
                 | None => True
                 end).
  { destruct payload_size as [size|]; [|exact I]. lia. }
  destruct (plan_returns sf bw cr payload_size epc_count Hradio Hps' Hcount)
    as (params & tf & tb & lots & seconds & _ & _ & _ & _ & Hplan).
  fold self in Hplan.
  unfold process_epcs. rewrite Hplan.
  set (generated := generate_random_epc picks epc_count) in *.
  set (m := max_epcs_per_packet self) in *.
  destruct (Z.eqb_spec m 0) as [|_]; [lia|].
  destruct (packets_of generated m ltac:(lia)) as [Hentries Hconcat].
  set (count := Z.to_nat ((Z.of_nat (length generated) + m - 1) / m)) in *.
  rewrite Hentries.
  set (F := fun entry : Z * Z =>
              {| packet_id := entry.1 mod 256;
                 epc_count := Z.of_nat (length (slice entry.2 (entry.2 + m) generated));
                 timestamp := clock entry.1 mod 65536;
                 epcs := slice entry.2 (entry.2 + m) generated |}).
  destruct (for_each_related (build_payload self clock generated)
              (fun entry detail =>
                 Z.of_nat (length detail.(detail_payload)) <= self.(max_payload_size)
                 /\ decode_payload self detail.(detail_payload) = Ok (F entry))
              ((fun k => (Z.of_nat k, Z.of_nat k * m)) <$> seq 0 count))
    as (details & Hdetails & Hrel).
  { apply Forall_fmap, Forall_forall. intros k _. cbn.
    destruct (build_payload_packet sf bw cr payload_size clock generated k
                Hradio Hps Hvalid) as (detail & Hdetail & Hfits & Hdecode).
    by exists detail. }
  rewrite Hdetails.
  rewrite (for_each_images (fun detail => decode_payload self detail.(detail_payload)) F
             ((fun k => (Z.of_nat k, Z.of_nat k * m)) <$> seq 0 count) details).
  2:{ eapply Forall2_impl; [exact Hrel|]. by intros entry detail [_ ?]. }
  eexists _, _. split; [reflexivity|].
  cbn [processed_epcs payloads transmission_plan frames_needed].
  split; [reflexivity|]. split; [lia|]. split; [reflexivity|].
  split.
  { rewrite length_fmap, <- (Forall2_length _ _ _ Hrel), length_fmap, length_seq.
    unfold count. rewrite Z2Nat.id by (apply Z.div_pos; lia).
    by replace (Z.of_nat (length generated)) with epc_count by lia. }
  split.
  { apply Forall_fmap, Forall_forall. intros detail (j & Hj)%list_elem_of_lookup_1.
    destruct (Forall2_lookup_r _ _ _ _ _ Hrel Hj) as (entry & _ & Hfits & _). exact Hfits. }
  split.
  { rewrite <- !list_fmap_compose. exact Hconcat. }
  intros k d Hk. rewrite !list_lookup_fmap in Hk.
  destruct (seq 0 count !! k) as [k'|] eqn:Hseq; [|done].
  apply lookup_seq in Hseq as [-> _]. cbn in Hk. injection Hk as <-. done.
Qed.

End Processing.


(** * More on the airtime formula and the planner *)

Section AirtimeFields.

#[local] Opaque one_unit overflow_threshold.

(** The floor of the float quotient of two ints below 2^53 is their floor
    quotient. *)
Lemma int_truediv_floor (a b : Z) :
  0 <= a < 2 ^ 53 -> 0 < b < 2 ^ 53 ->
  exists q, int_truediv a b = Ok q /\ math_floor q = Ok (a / b).
Proof.
  intros Ha Hb. pose proof one_unit_pos as HU.
  assert (HU53 : 2 ^ 53 < one_unit) by (vm_compute; reflexivity).
  unfold int_truediv. destruct (Z.eqb_spec b 0); [lia|].
  rewrite Z.sgn_pos, Z.abs_eq, Z.mul_1_l by lia.
  set (k := a / b). set (s := a mod b).
  pose proof (Z.div_mod a b ltac:(lia)) as Hdm. fold k s in Hdm.
  pose proof (Z.mod_pos_bound a b ltac:(lia)) as Hs. fold s in Hs.
  assert (Hk : 0 <= k <= a)
    by (subst k; split; [apply Z.div_pos|apply Z.div_le_upper_bound]; nia).
  assert (Hsig : rnd_signed (a * one_unit) b = rnd_pos (a * one_unit) b).
  { unfold rnd_signed. destruct (Z.ltb_spec (a * one_unit) 0); [nia|done]. }
  assert (Hval : k * one_unit <= rnd_pos (a * one_unit) b < (k + 1) * one_unit).
  { split.
    - rewrite <- (rnd_pos_exact_units k b) by lia.
      apply rnd_pos_mono; [nia|lia|lia|].
      apply Z.mul_le_mono_nonneg_r; [lia|].
      replace (k * one_unit * b) with (b * k * one_unit) by ring.
      apply Z.mul_le_mono_nonneg_r; lia.
    - destruct (rnd_pos_error (a * one_unit) b ltac:(nia) ltac:(lia)) as [He1 He2].
      cbv zeta in He1, He2.
      set (e := Z.max (Z.log2 (a * one_unit / b) - 52) 0) in *.
      set (r := rnd_pos (a * one_unit) b) in *.
      assert (He3 : 2 ^ e * b < 2 * one_unit).
      { assert (a * one_unit / 2 ^ 52 < 2 * one_unit).
        { apply Z.div_lt_upper_bound; [lia|].
          change (2 ^ 53) with (2 ^ 52 * 2) in Ha. nia. }
        lia. }
      assert (2 * (r * b - a * one_unit) < 2 * one_unit) by lia.
      assert (Hau : a * one_unit = b * k * one_unit + s * one_unit)
        by (rewrite Hdm at 1; ring).
      assert ((s + 1) * one_unit <= b * one_unit)
        by (apply Z.mul_le_mono_nonneg_r; lia).
      apply (Z.mul_lt_mono_pos_r b); lia. }
  unfold rnd. rewrite Hsig.
  set (r := rnd_pos (a * one_unit) b) in *.
  assert (Hthr : 2 ^ 53 * one_unit < overflow_threshold) by (vm_compute; reflexivity).
  assert (Hrb : 0 <= r <= 2 ^ 53 * one_unit).
  { assert ((k + 1) * one_unit <= 2 ^ 53 * one_unit)
      by (apply Z.mul_le_mono_nonneg_r; lia).
    assert (0 <= k * one_unit) by (apply Z.mul_nonneg_nonneg; lia). lia. }
  destruct (Z.leb_spec overflow_threshold (Z.abs r)); [lia|].
  exists (Finite r). split; [done|]. cbn [math_floor]. f_equal.
  symmetry. apply (Z.div_unique _ _ _ (r - k * one_unit)); lia.
Qed.

(** The symbol count and the capacity that [calculate_airtime_parameters]
    reports. *)
Lemma airtime_fields (s b c : Z) (ps : option Z) (p : Z) (r : airtime) :
  documented_radio s b c ->
  calculate_airtime_parameters (init s b c ps) p = Ok r ->
  exists q per,
    int_truediv (ceil_term_numerator s p) (4 * (s - 2)) = Ok q
    /\ r.(N_payload) =
       (if flt q (Finite 0) then PyInt 8
        else PyFloat (fadd (Finite (8 * one_unit)) (fmul q (Finite ((c + 4) * one_unit)))))
    /\ int_truediv ((init s b c ps).(max_payload_size) - 4) 12 = Ok per
    /\ math_floor per = Ok r.(EPC_frame).
Proof.
  intros (Hs & Hb & Hc) Hr.
  unfold calculate_airtime_parameters in Hr.
  cbn [init sf bw cr max_payload_size header_size epc_size_bytes] in Hr.
  apply bind_Ok in Hr as (T_sym & _ & Hr).
  apply bind_Ok in Hr as (pre & _ & Hr).
  apply bind_Ok in Hr as (T_pream & _ & Hr).
  apply bind_Ok in Hr as (q & Hq & Hr).
  apply bind_Ok in Hr as (scaled & Hscaled & Hr).
  apply bind_Ok in Hr as (N & HN & Hr).
  apply bind_Ok in Hr as (T_payload & _ & Hr).
  apply bind_Ok in Hr as (T_frame & _ & Hr).
  apply bind_Ok in Hr as (per & Hper & Hr).
  apply bind_Ok in Hr as (frames & Hframes & Hr).
  apply bind_Ok in Hr as (T_sym_ms & _ & Hr).
  apply bind_Ok in Hr as (T_pream_ms & _ & Hr).
  apply bind_Ok in Hr as (T_payload_ms & _ & Hr).
  apply bind_Ok in Hr as (T_frame_ms & _ & Hr).
  apply Ok_inj in Hr as <-. cbn [EPCLoRaWANCalculator.N_payload EPC_frame].
  exists q, per. split; [exact Hq|]. split; [|split; [exact Hper|exact Hframes]].
  unfold max2 in Hscaled.
  change (num_lt (PyFloat q) (PyInt 0)) with (flt q (Finite 0)) in Hscaled.
  destruct (flt q (Finite 0)).
  - apply Ok_inj in Hscaled as <-. by apply Ok_inj in HN as <-.
  - rewrite (num_mul_float_int q (c + 4)) in Hscaled by lia.
    apply Ok_inj in Hscaled as <-.
    rewrite (num_add_int_float 8) in HN by lia. by apply Ok_inj in HN as <-.
Qed.

(** X21. The ['EPC_frame'] that [calculate_airtime_parameters] reports,
    the floor of a float quotient, is the [max_epcs_per_packet] that
    [__init__] computed by floor division, for every payload size looked up
    from the spreading factor or given between 4 and 2^32 bytes. *)
Theorem airtime_reports_the_capacity (sf bw cr : Z) (payload_size : option Z) (p : Z) :
  documented_radio sf bw cr ->
  match payload_size with Some size => 4 <= size <= 2 ^ 32 | None => True end ->
  Z.abs p <= 2 ^ 64 ->
  let self := init sf bw cr payload_size in
  exists r,
    calculate_airtime_parameters self p = Ok r
    /\ r.(EPC_frame) = self.(max_epcs_per_packet).
Proof.
  intros Hradio Hps Hp self.
  destruct (airtime_returns sf bw cr payload_size p Hradio) as (r & Hr); [|exact Hp|].
  { destruct payload_size as [size|]; [|exact I].
    assert (2 ^ 32 <= 2 ^ 64) by (vm_compute; discriminate). lia. }
  exists r. split; [exact Hr|].
  destruct (airtime_fields _ _ _ _ _ _ Hradio Hr) as (q & per & _ & _ & Hper & Hfloor).
  cbn [self init max_epcs_per_packet max_payload_size] in *.
  set (size := match payload_size with
               | Some p => p
               | None => _calculate_max_payload_size sf
               end) in *.
  assert (Hsize : 4 <= size <= 2 ^ 32).
  { unfold size. destruct payload_size as [size'|]; [exact Hps|].
    pose proof (automatic_payload_size_range sf).
    assert (230 <= 2 ^ 32) by (vm_compute; discriminate). lia. }
  assert (H53 : 2 ^ 32 < 2 ^ 53) by (vm_compute; reflexivity).
  destruct (int_truediv_floor (size - 4) 12 ltac:(lia) ltac:(lia)) as (per' & Hper' & Hfloor').
  rewrite Hper in Hper'. apply Ok_inj in Hper' as <-.
  rewrite Hfloor in Hfloor'. by apply Ok_inj in Hfloor'.
Qed.

Lemma int_truediv_not_nan (a b : Z) (q : float) :
  int_truediv a b = Ok q -> exists n, q = Finite n.
Proof.
  unfold int_truediv. destruct (b =? 0); [discriminate|].
  pose proof (rnd_not_nan (Z.sgn b * a * one_unit) (Z.abs b)) as Hnan.
  destruct (rnd _ _) as [n|neg|]; [|discriminate|done].
  intros [= <-]. by exists n.
Qed.

Lemma int_truediv_sign (a b : Z) (n : Z) :
  0 < b < 2 ^ 53 -> int_truediv a b = Ok (Finite n) ->
  (a < 0 -> n < 0) /\ (0 <= a -> 0 <= n).
Proof.
  intros Hb. unfold int_truediv. destruct (Z.eqb_spec b 0); [lia|].
  rewrite Z.sgn_pos, Z.abs_eq, Z.mul_1_l by lia.
  pose proof one_unit_pos as HU.
  intros Hq.
  assert (Hrnd : rnd (a * one_unit) b = Finite n)
    by (destruct (rnd (a * one_unit) b); congruence).
  clear Hq. split; intros Ha.
  - unfold rnd in Hrnd. destruct (_ <=? _); [discriminate|]. injection Hrnd as <-.
    unfold rnd_signed. destruct (Z.ltb_spec (a * one_unit) 0) as [_|]; [|nia].
    assert (1 <= rnd_pos (- (a * one_unit)) b); [|lia].
    assert (HU53 : 2 ^ 53 < one_unit) by (vm_compute; reflexivity).
    rewrite <- (rnd_pos_exact 1 0 b) at 1 by lia.
    apply rnd_pos_mono; [lia|lia|lia|].
    change (1 * 2 ^ 0 * b) with (1 * 1 * b).
    apply Z.mul_le_mono_nonneg_r; [lia|].
    assert (1 * one_unit <= (- a) * one_unit) by (apply Z.mul_le_mono_nonneg_r; lia).
    lia.
  - unfold rnd in Hrnd. destruct (_ <=? _); [discriminate|]. injection Hrnd as <-.
    apply rnd_signed_sign; [lia|]. apply Z.mul_nonneg_nonneg; lia.
Qed.

(** X22. The count of payload symbols has a floor of 8: ['N_payload'] is
    never below 8, and it is the int 8 whenever the dividend of line 80,
    8 * payload_bytes - 4 * sf + 44 - 20 * PL_H, is negative; all such
    payload sizes then cost the same frame duration. *)
Theorem payload_symbols_have_a_floor (sf bw cr : Z) (payload_size : option Z)
    (p : Z) (r : airtime) :
  documented_radio sf bw cr ->
  let self := init sf bw cr payload_size in
  calculate_airtime_parameters self p = Ok r ->
  num_le (PyInt 8) r.(N_payload) = true
  /\ (ceil_term_numerator sf p < 0 ->
      r.(N_payload) = PyInt 8
      /\ forall p' r',
           ceil_term_numerator sf p' < 0 ->
           calculate_airtime_parameters self p' = Ok r' ->
           r'.(T_frame_ms) = r.(T_frame_ms)).
Proof.
  intros Hradio self Hr. pose proof one_unit_pos as HU.
  destruct (airtime_fields _ _ _ _ _ _ Hradio Hr) as (q & per & Hq & HN & _).
  destruct (int_truediv_not_nan _ _ _ Hq) as (n & ->).
  pose proof Hradio as (Hs & _ & Hc).
  assert (Hdiv : 0 < 4 * (sf - 2) < 2 ^ 53)
    by (change (2 ^ 53) with 9007199254740992; lia).
  destruct (int_truediv_sign _ _ _ Hdiv Hq) as [Hneg Hpos].
  split.
  - rewrite HN. cbn [flt]. destruct (Z.ltb_spec n 0) as [|Hn]; [done|].
    cbn [num_le].
    rewrite <- fadd_eight_zero at 1. apply fadd_mono.
    rewrite <- (fmul_zero_l ((cr + 4) * one_unit)).
    apply fmul_mono; [nia|]. cbn [fle]. by apply Z.leb_le.
  - intros Hnum. specialize (Hneg Hnum). split.
    + rewrite HN. cbn [flt]. by destruct (Z.ltb_spec n 0); [|lia].
    + intros p' r' Hnum' Hr'.
      destruct (airtime_frame _ _ _ _ _ _ Hradio Hr)
        as (ts & tp & q1 & Hts & _ & Htp & _ & Hq1 & ->).
      destruct (airtime_frame _ _ _ _ _ _ Hradio Hr')
        as (ts' & tp' & q2 & Hts' & _ & Htp' & _ & Hq2 & ->).
      rewrite Hts in Hts'. injection Hts' as <-.
      rewrite Htp in Htp'. injection Htp' as <-.
      rewrite Hq in Hq1. apply Ok_inj in Hq1 as <-.
      destruct (int_truediv_not_nan _ _ _ Hq2) as (n' & ->).
      destruct (int_truediv_sign _ _ _ Hdiv Hq2) as [Hneg' _].
      specialize (Hneg' Hnum'). unfold frame_ms. cbn [flt].
      destruct (Z.ltb_spec n 0); [|lia]. by destruct (Z.ltb_spec n' 0); [|lia].
Qed.

Lemma fmul_mono_r (x : float) (a b : Z) :
  fle (Finite 0) x = true -> 0 < a <= b ->
  fle (fmul x (Finite a)) (fmul x (Finite b)) = true.
Proof.
  intros Hx Hab. pose proof one_unit_pos as HU.
  destruct x as [n|[]|]; try discriminate Hx.
  - cbn [fle] in Hx. apply Z.leb_le in Hx. cbn [fmul].
    apply rnd_mono; [lia|lia|].
    apply Z.mul_le_mono_nonneg_r; [lia|]. apply Z.mul_le_mono_nonneg_l; lia.
  - cbn [fmul]. destruct (Z.eqb_spec a 0); [lia|]. destruct (Z.eqb_spec b 0); [lia|].
    destruct (Z.ltb_spec a 0); [lia|]. by destruct (Z.ltb_spec b 0); [lia|].
Qed.

Lemma fadd_mono_l (a b : Z) (y : float) :
  a <= b -> y <> NaN -> fle (fadd (Finite a) y) (fadd (Finite b) y) = true.
Proof.
  intros Hab Hy. destruct y as [c|[]|]; [|done|done|done].
  cbn [fadd]. apply rnd_mono; lia.
Qed.

(** The frame duration grows with the symbol time, the preamble time and
    the coding rate. *)
Lemma frame_ms_mono_radio (ts ts' tp tp' k k' : Z) (q : float) :
  0 < ts <= ts' -> tp <= tp' -> 0 < k <= k' -> q <> NaN ->
  fle (frame_ms ts tp k q) (frame_ms ts' tp' k' q) = true.
Proof.
  intros Hts Htp Hk Hq. pose proof one_unit_pos as HU. unfold frame_ms.
  set (N := if flt q (Finite 0) then Finite (8 * one_unit)
            else fadd (Finite (8 * one_unit)) (fmul q (Finite (k * one_unit)))).
  set (N' := if flt q (Finite 0) then Finite (8 * one_unit)
             else fadd (Finite (8 * one_unit)) (fmul q (Finite (k' * one_unit)))).
  assert (HN : fle (Finite 0) N = true /\ fle N N' = true).
  { unfold N, N'. pose proof (flt_zero_spec q Hq) as Hsign.
    destruct (flt q (Finite 0)).
    - split; cbn [fle]; apply Z.leb_le; lia.
    - assert (H8 : fle (Finite 0) (Finite (8 * one_unit)) = true)
        by (cbn [fle]; apply Z.leb_le; lia).
      split.
      + eapply fle_trans; [exact H8|].
        rewrite <- fadd_eight_zero at 1. apply fadd_mono.
        rewrite <- (fmul_zero_l (k * one_unit)).
        apply fmul_mono; [nia|exact Hsign].
      + apply fadd_mono, fmul_mono_r; [exact Hsign|].
        split; [nia|]. apply Z.mul_le_mono_nonneg_r; lia. }
  destruct HN as [HN0 HNN].
  assert (HX : fle (fmul N (Finite ts)) (fmul N' (Finite ts')) = true).
  { eapply fle_trans; [apply fmul_mono; [lia|exact HNN]|].
    apply fmul_mono_r; [|lia]. by eapply fle_trans. }
  apply fmul_mono; [lia|].
  eapply fle_trans; [apply fadd_mono; exact HX|].
  apply fadd_mono_l; [exact Htp|]. by apply fle_not_nan in HX as [_ ?].
Qed.

(** X23. The frame duration against the radio: for the same spreading
    factor and payload size, a narrower bandwidth and a higher coding rate
    never give a shorter ['T_frame_ms']. *)
Theorem frame_duration_by_bandwidth_and_coding_rate (sf bw bw' cr cr' : Z)
    (payload_size : option Z) (p : Z) (r r' : airtime) :
  documented_radio sf bw cr ->
  documented_radio sf bw' cr' ->
  bw' <= bw -> cr <= cr' ->
  calculate_airtime_parameters (init sf bw cr payload_size) p = Ok r ->
  calculate_airtime_parameters (init sf bw' cr' payload_size) p = Ok r' ->
  num_le r.(T_frame_ms) r'.(T_frame_ms) = true.
Proof.
  intros Hradio Hradio' Hbw Hcr Hr Hr'. pose proof one_unit_pos as HU.
  destruct (airtime_frame _ _ _ _ _ _ Hradio Hr)
    as (ts & tp & q & Hts & Hrange & Htp & _ & Hq & ->).
  destruct (airtime_frame _ _ _ _ _ _ Hradio' Hr')
    as (ts' & tp' & q' & Hts' & Hrange' & Htp' & _ & Hq' & ->).
  rewrite Hq in Hq'. apply Ok_inj in Hq' as <-.
  destruct (int_truediv_not_nan _ _ _ Hq) as (n & ->).
  pose proof Hradio as (Hs & Hb & Hc). pose proof Hradio' as (_ & Hb' & Hc').
  pose proof (pow2_pos 1062 ltac:(lia)) as H1062.
  assert (Hsym : ts <= ts').
  { unfold pow2 in Hts, Hts'. destruct (Z.leb_spec 0 sf); [|lia].
    cbn [num_truediv] in Hts, Hts'. unfold int_truediv in Hts, Hts'.
    destruct (Z.eqb_spec (bw * 1000) 0); [lia|].
    destruct (Z.eqb_spec (bw' * 1000) 0); [lia|].
    rewrite Z.sgn_pos, Z.abs_eq, Z.mul_1_l in Hts, Hts' by lia.
    assert (H1 : rnd (2 ^ sf * one_unit) (bw * 1000) = Finite ts)
      by (destruct (rnd (2 ^ sf * one_unit) (bw * 1000)); congruence).
    assert (H2 : rnd (2 ^ sf * one_unit) (bw' * 1000) = Finite ts')
      by (destruct (rnd (2 ^ sf * one_unit) (bw' * 1000)); congruence).
    assert (Hle : fle (rnd (2 ^ sf * one_unit) (bw * 1000))
                      (rnd (2 ^ sf * one_unit) (bw' * 1000)) = true).
    { apply rnd_mono; [lia|lia|].
      apply Z.mul_le_mono_nonneg_l; [|lia].
      pose proof (pow2_pos sf ltac:(lia)). nia. }
    rewrite H1, H2 in Hle. cbn [fle] in Hle. by apply Z.leb_le. }
  assert (Hpre : tp <= tp').
  { cbn [fmul] in Htp, Htp'.
    assert (Hle : fle (rnd (49 * 2 ^ 1072 * ts) one_unit)
                      (rnd (49 * 2 ^ 1072 * ts') one_unit) = true).
    { apply rnd_mono; [lia|lia|].
      apply Z.mul_le_mono_nonneg_r; [lia|].
      apply Z.mul_le_mono_nonneg_l; [|lia].
      pose proof (pow2_pos 1072 ltac:(lia)). lia. }
    rewrite Htp, Htp' in Hle. cbn [fle] in Hle. by apply Z.leb_le. }
  cbn [num_le]. apply frame_ms_mono_radio; [lia|lia|lia|done].
Qed.

(** X24. The plan against the batch size: for a radio with documented
    arguments, a payload size looked up or given between 16 and 2^32 bytes,
    and two batches of 1 to 2^53 - 1 EPCs, the larger batch needs at least as
    many frames, lasts at least as long and can be sent at most as many times
    a day; [max_batches_per_day] is never negative and never above
    864000. *)
Theorem plan_by_batch_size (sf bw cr : Z) (payload_size : option Z)
    (total total' : Z) :
  documented_radio sf bw cr ->
  match payload_size with Some size => 16 <= size <= 2 ^ 32 | None => True end ->
  1 <= total <= total' -> total' < 2 ^ 53 ->
  let self := init sf bw cr payload_size in
  exists plan plan',
    calculate_transmission_plan self total = Ok plan
    /\ calculate_transmission_plan self total' = Ok plan'
    /\ plan.(frames_needed) <= plan'.(frames_needed)
    /\ num_le plan.(batch_duration_ms) plan'.(batch_duration_ms) = true
    /\ 0 <= plan'.(max_batches_per_day) <= plan.(max_batches_per_day)
    /\ plan.(max_batches_per_day) <= 864000.
Proof.
  intros Hradio Hps Htotal Htotal' self. pose proof one_unit_pos as HU.
  destruct (plan_returns sf bw cr payload_size total Hradio Hps ltac:(lia))
    as (params & tf & tb & lots & seconds & Hparams & Htf & Htb & Hlots & Hplan).
  destruct (plan_returns sf bw cr payload_size total' Hradio Hps ltac:(lia))
    as (params' & tf' & tb' & lots' & seconds' & Hparams' & Htf' & Htb' & Hlots' & Hplan').
  fold self in Hparams, Hparams', Hplan, Hplan', Htb, Htb'.
  rewrite Hparams in Hparams'. apply Ok_inj in Hparams' as <-.
  rewrite Htf in Htf'. injection Htf' as <-.
  destruct (frame_at_max_payload sf bw cr payload_size Hradio Hps)
    as (params0 & tf0 & Hparams0 & Htf0 & Hrange).
  fold self in Hparams0. rewrite Hparams in Hparams0. apply Ok_inj in Hparams0 as <-.
  rewrite Htf in Htf0. injection Htf0 as <-.
  destruct (capacity_range sf bw cr payload_size Hps) as [_ Hm]. fold self in Hm.
  set (m := max_epcs_per_packet self) in *.
  set (N := (total + m - 1) / m) in *. set (N' := (total' + m - 1) / m) in *.
  assert (HN : 1 <= N <= N').
  { split; [apply (ceil_div_range total m); lia|].
    apply Z.div_le_mono; lia. }
  eexists _, _. split; [exact Hplan|]. split; [exact Hplan'|].
  cbn [frames_needed batch_duration_ms max_batches_per_day num_le].
  split; [lia|].
  assert (H1074 : 2 ^ 1074 = one_unit) by (by rewrite one_unit_eq).
  assert (Hbatch : fle (Finite tb) (Finite tb') = true).
  { rewrite <- Htb, <- Htb'. apply fmul_mono; [lia|].
    cbn [fle]. apply Z.leb_le. apply Z.mul_le_mono_nonneg_r; lia. }
  split; [exact Hbatch|].
  cbn [fle] in Hbatch. apply Z.leb_le in Hbatch.
  assert (Hfloor : one_unit <= tb).
  { assert (Hle : fle (fmul (Finite (1 * one_unit)) (Finite one_unit))
                      (fmul (Finite (N * one_unit)) (Finite tf)) = true).
    { eapply fle_trans.
      - apply (fmul_mono (Finite (1 * one_unit)) (Finite (N * one_unit)) one_unit);
          [lia|]. cbn [fle]. apply Z.leb_le. apply Z.mul_le_mono_nonneg_r; lia.
      - apply fmul_mono_r; [|lia]. cbn [fle]. apply Z.leb_le. nia. }
    rewrite Htb in Hle.
    assert (Hone : fmul (Finite (1 * one_unit)) (Finite one_unit) = Finite one_unit)
      by (vm_compute; reflexivity).
    rewrite Hone in Hle. cbn [fle] in Hle. by apply Z.leb_le. }
  assert (Hquot : forall t l,
             0 < t ->
             num_truediv (PyInt 864000) (PyFloat (Finite t)) = Ok (Finite l) ->
             Finite l = rnd (864000 * one_unit * one_unit) t).
  { intros t l Ht Hl. cbn [num_truediv to_float] in Hl.
    rewrite of_int_exact in Hl by (vm_compute; split; congruence).
    cbn [bind] in Hl. rewrite fdiv_pos in Hl by exact Ht. by apply Ok_inj in Hl. }
  pose proof (Hquot tb lots ltac:(lia) Hlots) as Hl.
  pose proof (Hquot tb' lots' ltac:(lia) Hlots') as Hl'.
  assert (Hanti : lots' <= lots).
  { assert (Hle : fle (Finite lots') (Finite lots) = true).
    { rewrite Hl, Hl'. apply rnd_mono; [lia|lia|].
      apply Z.mul_le_mono_nonneg_l; [|lia].
      apply Z.mul_nonneg_nonneg; lia. }
    cbn [fle] in Hle. by apply Z.leb_le. }
  assert (Hpos : 0 <= lots').
  { symmetry in Hl'. unfold rnd in Hl'. destruct (_ <=? _); [discriminate|].
    injection Hl' as <-. apply rnd_signed_sign; [lia|].
    apply Z.mul_nonneg_nonneg; [apply Z.mul_nonneg_nonneg|]; lia. }
  assert (Hcap : lots <= 864000 * one_unit).
  { assert (Hle : fle (Finite lots) (rnd (864000 * one_unit * one_unit) one_unit) = true).
    { rewrite Hl. apply rnd_mono; [lia|lia|].
      apply Z.mul_le_mono_nonneg_l; [|lia].
      apply Z.mul_nonneg_nonneg; lia. }
    assert (Hexact : rnd (864000 * one_unit * one_unit) one_unit
                     = Finite (864000 * one_unit)) by (vm_compute; reflexivity).
    rewrite Hexact in Hle. cbn [fle] in Hle. by apply Z.leb_le. }
  split; [split|].
  - apply Z.div_pos; lia.
  - apply Z.div_le_mono; lia.
  - apply Z.div_le_upper_bound; lia.
Qed.

End AirtimeFields.


(** * Edge cases of the calculator *)

Section EdgeCases.

#[local] Opaque one_unit overflow_threshold.

(** X25. [process_epcs(0)] raises ZeroDivisionError, for every radio with
    documented arguments and a payload size looked up or given between 16
    and 2^32 bytes: no EPC is generated and no payload built, and the plan of
    the empty batch divides by its zero duration. *)
Theorem process_epcs_of_an_empty_batch (sf bw cr : Z) (payload_size : option Z)
    (picks : nat -> fin 16) (clock : Z -> Z) :
  documented_radio sf bw cr ->
  match payload_size with Some size => 16 <= size <= 2 ^ 32 | None => True end ->
  process_epcs (init sf bw cr payload_size) picks clock 0 = Raising ZeroDivisionError.
Proof.
  intros Hradio Hps.
  destruct (plan_zero sf bw cr payload_size Hradio Hps)
    as (frames & params & _ & _ & _ & _ & _ & Hplan).
  destruct (capacity_range sf bw cr payload_size Hps) as [_ Hm].
  unfold process_epcs. rewrite Hplan.
  set (m := max_epcs_per_packet (init sf bw cr payload_size)) in *.
  destruct (Z.eqb_spec m 0) as [|_]; [lia|].
  change (generate_random_epc picks 0) with (@nil string). cbn [length].
  unfold range_by. destruct (Z.ltb_spec 0 m); [|lia].
  rewrite Z.div_small by lia. reflexivity.
Qed.

(** X26. A payload size of 4 to 15 bytes leaves no room for an EPC:
    [max_epcs_per_packet] is 0; [create_lorawan_payload] refuses every
    non-empty list and encodes the empty list as a bare 4-byte header;
    [calculate_transmission_plan] raises ZeroDivisionError for every batch
    size, at its first division; and [process_epcs] fails on the step of 0
    of its [range], whatever the count. *)
Theorem no_room_for_an_epc (sf bw cr size : Z) :
  4 <= size <= 15 ->
  let self := init sf bw cr (Some size) in
  self.(max_epcs_per_packet) = 0
  /\ (forall now id sent,
        sent <> [] ->
        create_lorawan_payload self now sent id = Raise (ValueError (TropDEPCs 0)))
  /\ (forall now id,
        exists header,
          create_lorawan_payload self now [] id = Ok header /\ length header = 4%nat)
  /\ (forall total, calculate_transmission_plan self total = Raise ZeroDivisionError)
  /\ (forall picks clock count, process_epcs self picks clock count = RangeArgZero).
Proof.
  intros Hsize self.
  assert (Hm : max_epcs_per_packet self = 0).
  { cbn [self init max_epcs_per_packet]. apply Z.div_small. lia. }
  split; [exact Hm|]. split; [|split; [|split]].
  - intros now id sent Hsent. unfold create_lorawan_payload. rewrite Hm.
    destruct (Z.ltb_spec 0 (Z.of_nat (length sent))); [done|].
    destruct sent; [done|cbn [length] in *; lia].
  - intros now id.
    destruct (roundtrip sf bw cr (Some size) now id []) as (header & Hheader & Hlen & _).
    { constructor. }
    { fold self. rewrite Hm. cbn [length]. lia. }
    by exists header.
  - intros total. unfold calculate_transmission_plan. rewrite Hm. reflexivity.
  - intros picks clock count. unfold process_epcs. by rewrite Hm.
Qed.

End EdgeCases.


(** * Instances

    The properties above that have a hypothesis, each at a concrete input. *)

Section Instances.

#[local] Opaque one_unit overflow_threshold.

Lemma members_join_witness :
  common_len "AAAAAA000000000000000001" "BBBBBB111111111111111111" < min_prefix_length.
Proof.
  refine (proj2 (members_join_the_first_base_they_match
                   ["AAAAAA000000000000000001"; "BBBBBB111111111111111111";
                    "AAAAAA000000000000000002"]%string
                   1 "BBBBBB111111111111111111" [] "BBBBBB111111111111111111" _ _)
                0%nat "AAAAAA000000000000000001" ["AAAAAA000000000000000002"]%string _ _).
  - vm_compute. reflexivity.
  - apply list_elem_of_here.
  - lia.
  - vm_compute. reflexivity.
Defined.

Lemma capacity_columns_witness :
  let r := {| Group_ID := 1; Prefix := "AAAAAA0000000000000000"; Prefix_Bytes := 11;
              Suffix_Bytes := 1; Suffix_Count := 2; Total_Payload_Bytes := 15;
              EPCs_SF7_51B := 38; EPCs_SF12_11B := 0;
              Compression_pct := PyFloat (Finite (75 * 2 ^ 1073)) |} in
  EPCs_SF12_11B r = 0
  /\ 2 + Prefix_Bytes r + EPCs_SF7_51B r * Suffix_Bytes r <= 51
     < 2 + Prefix_Bytes r + (EPCs_SF7_51B r + 1) * Suffix_Bytes r.
Proof.
  intros r.
  destruct (capacity_columns
              ["AAAAAA000000000000000001"; "AAAAAAB00000000000000002"]%string [r] r)
    as [H12 H7].
  - vm_compute. reflexivity.
  - apply list_elem_of_here.
  - split; [exact H12|]. apply H7; cbn; lia.
Defined.

Lemma multi_member_row_shape_witness :
  exists rows r n,
    group_and_analyze ["AAAAAA000000000000000001"; "AAAAAAB00000000000000002"]%string
    = Ok rows
    /\ rows !! 0%nat = Some r /\ 6 <= n <= 24 /\ Prefix_Bytes r = n / 2.
Proof.
  assert (Hlen : Forall (fun epc => String.length epc = 24%nat)
                        ["AAAAAA000000000000000001"; "AAAAAAB00000000000000002"]%string)
    by (repeat constructor).
  destruct (group_and_analyze_returns _ Hlen) as (rows & Hrows).
  destruct (multi_member_row_shape _ rows 0 "AAAAAA000000000000000001"
              ["AAAAAAB00000000000000002"]%string Hlen Hrows)
    as (r & n & tail & Hr & Hn & _ & _ & Hpb & _).
  - vm_compute. reflexivity.
  - discriminate.
  - exists rows, r, n. split; [exact Hrows|]. split; [exact Hr|]. split; [exact Hn|exact Hpb].
Defined.

Lemma rows_follow_the_groups_witness :
  exists rows,
    group_and_analyze ["AAAAAA000000000000000001"; "123456789012345678901234"]%string
    = Ok rows
    /\ length rows = 2%nat.
Proof.
  assert (Hlen : Forall (fun epc => String.length epc = 24%nat)
                        ["AAAAAA000000000000000001"; "123456789012345678901234"]%string)
    by (repeat constructor).
  destruct (group_and_analyze_returns _ Hlen) as (rows & Hrows).
  exists rows. split; [exact Hrows|].
  rewrite (proj1 (rows_follow_the_groups _ rows Hrows)). vm_compute. reflexivity.
Defined.

Lemma compression_percentage_range_witness :
  let r := {| Group_ID := 1; Prefix := "AAAAAA0000000000000000"; Prefix_Bytes := 11;
              Suffix_Bytes := 1; Suffix_Count := 2; Total_Payload_Bytes := 15;
              EPCs_SF7_51B := 38; EPCs_SF12_11B := 0;
              Compression_pct := PyFloat (Finite (75 * 2 ^ 1073)) |} in
  exists c,
    Compression_pct r = PyFloat c
    /\ fle (rnd (42 * one_unit) 10) c = true
    /\ fle c (Finite (100 * one_unit)) = true.
Proof.
  intros r.
  apply (compression_percentage_range
           ["AAAAAA000000000000000001"; "AAAAAAB00000000000000002"]%string [r] r).
  - repeat constructor.
  - vm_compute. reflexivity.
  - apply list_elem_of_here.
  - cbn. lia.
Defined.

Lemma load_epcs_returns_the_valid_entries_witness :
  let returned := ["AAAAAA000000000000000001"; "AAAAAA000000000000000002"]%string in
  returned = upper <$> filter (fun epc => valid_epc epc = true)
                              (strip <$> entries_of example_file)
  /\ returned <> []
  /\ Forall (fun epc => valid_epc epc = true /\ upper epc = epc) returned.
Proof.
  intros returned.
  apply (load_epcs_returns_the_valid_entries example_file
           [SkippingLine 3 "oops"; LoadedFrom 2 "epcs.txt"] returned).
  vm_compute. reflexivity.
Defined.

Lemma load_epcs_errors_witness :
  (load_epcs {| file_exists := true; file_suffix := ".XLSX"; file_name := "empty.xlsx";
                file_lines := []; sheet_column := None |}).2
  = Raises IndexError.
Proof.
  apply (proj1 (proj2 (proj2 (load_epcs_errors _)))).
  repeat split; reflexivity.
Defined.

Lemma load_epcs_reports_every_skipped_entry_witness :
  exists skipped,
    [SkippingLine 3 "oops"; LoadedFrom 2 "epcs.txt"]
    = skipped ++ [LoadedFrom 2 "epcs.txt"]
    /\ (2 + length skipped
        = length (filter (fun line => strip line <> ""%string)
                         example_file.(file_lines)))%nat.
Proof.
  destruct (load_epcs_reports_every_skipped_entry example_file
              [SkippingLine 3 "oops"; LoadedFrom 2 "epcs.txt"]
              ["AAAAAA000000000000000001"; "AAAAAA000000000000000002"]%string)
    as (skipped & Hout & Htext & _).
  - vm_compute. reflexivity.
  - exists skipped. split; [exact Hout|]. apply Htext. vm_compute. reflexivity.
Defined.

Lemma loaded_epcs_are_always_analyzed_witness :
  exists rows,
    group_and_analyze ["AAAAAA000000000000000001"; "AAAAAA000000000000000002"]%string
    = Ok rows
    /\ foldr Z.add 0 (Suffix_Count <$> rows) = 2.
Proof.
  apply (loaded_epcs_are_always_analyzed example_file
           [SkippingLine 3 "oops"; LoadedFrom 2 "epcs.txt"]
           ["AAAAAA000000000000000001"; "AAAAAA000000000000000002"]%string).
  vm_compute. reflexivity.
Defined.

Lemma reloading_the_loaded_epcs_witness :
  load_epcs {| file_exists := true; file_suffix := ".txt"; file_name := "again.txt";
               file_lines := (fun epc => epc ++ String "010" "")%string
                               <$> ["AAAAAA000000000000000001";
                                    "AAAAAA000000000000000002"]%string;
               sheet_column := None |}
  = ([LoadedFrom 2 "again.txt"],
     Returns ["AAAAAA000000000000000001"; "AAAAAA000000000000000002"]%string).
Proof.
  apply (reloading_the_loaded_epcs example_file
           [SkippingLine 3 "oops"; LoadedFrom 2 "epcs.txt"]
           ["AAAAAA000000000000000001"; "AAAAAA000000000000000002"]%string "again.txt").
  vm_compute. reflexivity.
Defined.

Lemma decode_payload_of_any_bytes_witness :
  exists d,
    decode_payload (init 12 125 1 None)
      [x05; x02; x12; x34; x30; x34; x25; x7b; xf7; x19; x4e; x40; x00; x00; x1a; x85;
       xe2; x80; x68]%byte = Ok d
    /\ length d.(epcs) = 1%nat.
Proof.
  destruct (proj2 (decode_payload_of_any_bytes 12 125 1 None
                     [x05; x02; x12; x34; x30; x34; x25; x7b; xf7; x19; x4e; x40;
                      x00; x00; x1a; x85; xe2; x80; x68]%byte)
                  x05 x02 x12 x34
                  [x30; x34; x25; x7b; xf7; x19; x4e; x40; x00; x00; x1a; x85;
                   xe2; x80; x68]%byte eq_refl)
    as (d & Hd & _ & _ & _ & Hlen & _).
  exists d. split; [exact Hd|exact Hlen].
Defined.

Lemma round_trip_wraps_the_header_witness :
  exists payload d,
    create_lorawan_payload (init 12 125 1 None) 1700000000
      ["3034257BF7194E4000001A85"; "e280689400005013f1a2b3c4"]%string 300 = Ok payload
    /\ decode_payload (init 12 125 1 None) payload = Ok d
    /\ d.(packet_id) = 44.
Proof.
  destruct (round_trip_wraps_the_header 12 125 1 None 1700000000 300
              ["3034257BF7194E4000001A85"; "e280689400005013f1a2b3c4"]%string)
    as (payload & Hpayload & Hd).
  - repeat constructor.
  - vm_compute. discriminate.
  - exists payload. eexists. split; [exact Hpayload|]. split; [exact Hd|reflexivity].
Defined.

Lemma payload_fits_the_configured_size_witness :
  exists payload,
    create_lorawan_payload (init 12 125 1 None) 0
      ["3034257BF7194E4000001A85"]%string 0 = Ok payload
    /\ Z.of_nat (length payload) <= (init 12 125 1 None).(max_payload_size).
Proof.
  destruct (roundtrip 12 125 1 None 0 0 ["3034257BF7194E4000001A85"]%string)
    as (payload & Hpayload & _).
  - repeat constructor.
  - vm_compute. discriminate.
  - exists payload. split; [exact Hpayload|].
    apply (payload_fits_the_configured_size 12 125 1 None 0 0
             ["3034257BF7194E4000001A85"]%string payload).
    + repeat constructor.
    + exact Hpayload.
Defined.

Lemma decoding_then_encoding_witness :
  let payload := [x05; x01; x12; x34; x30; x34; x25; x7b; xf7; x19; x4e; x40;
                  x00; x00; x1a; x85]%byte in
  exists d,
    decode_payload (init 12 125 1 None) payload = Ok d
    /\ create_lorawan_payload (init 12 125 1 None) 70196 d.(epcs) d.(packet_id)
       = Ok payload.
Proof.
  intros payload. eexists. split.
  - apply decode_payload_bodies.
  - apply (decoding_then_encoding 12 125 1 None 70196 payload).
    + apply decode_payload_bodies.
    + vm_compute. reflexivity.
    + vm_compute. discriminate.
    + vm_compute. reflexivity.
Defined.

Lemma process_epcs_sends_every_epc_witness :
  exists shown result,
    process_epcs (init 12 125 1 None) (fun _ => 0%fin) (fun k => 1700000000 + k) 7
    = Processed shown result
    /\ Z.of_nat (length result.(payloads)) = result.(transmission_plan).(frames_needed)
    /\ concat (epcs <$> shown) = result.(processed_epcs).
Proof.
  destruct (process_epcs_sends_every_epc 12 125 1 None (fun _ => 0%fin)
              (fun k => 1700000000 + k) 7)
    as (shown & result & Hrun & _ & _ & _ & Hframes & _ & Hconcat & _).
  - unfold documented_radio. lia.
  - exact I.
  - lia.
  - exists shown, result. split; [exact Hrun|]. split; [exact Hframes|exact Hconcat].
Defined.

Lemma process_epcs_of_an_empty_batch_witness :
  process_epcs (init 12 125 1 None) (fun _ => 0%fin) (fun k => k) 0
  = Raising ZeroDivisionError.
Proof.
  apply (process_epcs_of_an_empty_batch 12 125 1 None).
  - unfold documented_radio. lia.
  - exact I.
Defined.

Lemma no_room_for_an_epc_witness :
  (init 12 125 1 (Some 15)).(max_epcs_per_packet) = 0
  /\ calculate_transmission_plan (init 12 125 1 (Some 15)) 7 = Raise ZeroDivisionError.
Proof.
  destruct (no_room_for_an_epc 12 125 1 15 ltac:(lia)) as (Hm & _ & _ & Hplan & _).
  split; [exact Hm|apply Hplan].
Defined.

Lemma airtime_reports_the_capacity_witness :
  exists r,
    calculate_airtime_parameters (init 9 250 2 None) 123 = Ok r
    /\ r.(EPC_frame) = (init 9 250 2 None).(max_epcs_per_packet).
Proof.
  apply (airtime_reports_the_capacity 9 250 2 None 123).
  - unfold documented_radio. lia.
  - exact I.
  - lia.
Defined.

Lemma payload_symbols_have_a_floor_witness :
  exists r,
    calculate_airtime_parameters (init 12 125 1 None) 2 = Ok r
    /\ r.(N_payload) = PyInt 8.
Proof.
  assert (Hradio : documented_radio 12 125 1) by (unfold documented_radio; lia).
  destruct (airtime_returns 12 125 1 None 2 Hradio I ltac:(lia)) as (r & Hr).
  exists r. split; [exact Hr|].
  apply (payload_symbols_have_a_floor 12 125 1 None 2 r Hradio Hr).
  vm_compute. reflexivity.
Defined.

Lemma frame_duration_by_bandwidth_and_coding_rate_witness :
  exists r r',
    calculate_airtime_parameters (init 10 500 1 None) 59 = Ok r
    /\ calculate_airtime_parameters (init 10 125 4 None) 59 = Ok r'
    /\ num_le r.(T_frame_ms) r'.(T_frame_ms) = true.
Proof.
  assert (Hradio : documented_radio 10 500 1) by (unfold documented_radio; lia).
  assert (Hradio' : documented_radio 10 125 4) by (unfold documented_radio; lia).
  destruct (airtime_returns 10 500 1 None 59 Hradio I ltac:(lia)) as (r & Hr).
  destruct (airtime_returns 10 125 4 None 59 Hradio' I ltac:(lia)) as (r' & Hr').
  exists r, r'. split; [exact Hr|]. split; [exact Hr'|].
  apply (frame_duration_by_bandwidth_and_coding_rate 10 500 125 1 4 None 59 r r'
           Hradio Hradio' ltac:(lia) ltac:(lia) Hr Hr').
Defined.

Lemma plan_by_batch_size_witness :
  exists plan plan',
    calculate_transmission_plan (init 12 125 1 None) 7 = Ok plan
    /\ calculate_transmission_plan (init 12 125 1 None) 700 = Ok plan'
    /\ plan'.(max_batches_per_day) <= plan.(max_batches_per_day).
Proof.
  destruct (plan_by_batch_size 12 125 1 None 7 700)
    as (plan & plan' & Hplan & Hplan' & _ & _ & Hbatches & _).
  - unfold documented_radio. lia.
  - exact I.
  - lia.
  - lia.
  - exists plan, plan'. split; [exact Hplan|]. split; [exact Hplan'|]. lia.
Defined.

Lemma duplicates_share_a_group_witness :
  "AAAAAA000000000000000001"%string ∉ ["BBBBBB111111111111111111"%string].
Proof.
  apply (duplicates_share_a_group
           ["AAAAAA000000000000000001"; "BBBBBB111111111111111111";
            "AAAAAA000000000000000001"]%string 0 1
           ["AAAAAA000000000000000001"; "AAAAAA000000000000000001"]%string
           ["BBBBBB111111111111111111"]%string
           "AAAAAA000000000000000001").
  - cbn. lia.
  - vm_compute. reflexivity.
  - apply list_elem_of_here.
  - lia.
  - vm_compute. reflexivity.
Defined.

Lemma create_lorawan_payload_rejects_bad_characters_witness :
  create_lorawan_payload (init 12 125 1 None) 0
    ["3034257BF7194E4000001A85"; "3034257BF7194E4000001A8G"]%string 0
  = Raise (ValueError NonHexadecimal).
Proof.
  apply (create_lorawan_payload_rejects_bad_characters 12 125 1 None 0 0
           ["3034257BF7194E4000001A85"; "3034257BF7194E4000001A8G"]%string
           "3034257BF7194E4000001A8G" "G"%char).
  - vm_compute. discriminate.
  - apply list_elem_of_further, list_elem_of_here.
  - cbn [list_ascii_of_string]. do 23 apply list_elem_of_further. apply list_elem_of_here.
  - reflexivity.
  - reflexivity.
Defined.

End Instances.
